(** * PokerDataIngestion: session assignment and transactional ingestion

    A shallow embedding of the importer:
    - [db/queries.py]: the SQL text blocks, as functions over a table;
    - [importer/session_assigner.py]: session lookup and index renumbering;
    - [importer/gg_summary_parser.py]: the summary parser, over the
      interface of the Python libraries it calls;
    - [importer/file_router.py] and [importer/tournament_importer.py]:
      file moves, the audit log and the per-file state machine.

    Timestamps are naive local datetimes; they are counted in whole seconds
    ([Z]), the resolution of the summary format.  Python [int] is [Z],
    Python [float] is the IEEE binary64 of [PrimFloat].

    What the code takes from outside is made an input of the model: the
    UUID that [uuid.uuid4()] draws, the clock, the outcome of
    [trans.commit()], and, per file, the folders into which moving the
    file raises.  The queries of the store and the appends to the log do
    not fail.  The run is sequential, as the importer is. *)

From Stdlib Require Import ZArith List String Ascii Bool Lia Permutation Sorted.
From Stdlib Require Import PrimFloat DecimalString DecimalNat.
Import ListNotations.
Open Scope string_scope.
Open Scope list_scope.
Open Scope Z_scope.

(* ================================================================= *)
(** ** Data model *)

(** [gg_summary_parser.ParsedTournament] (a frozen dataclass). *)
Record ParsedTournament := {
  site : string;
  tournament_id : Z;
  tournament_start_ts_local : Z;
  hero_name : string;
  tournament_name : option string;
  game_type : option string;
  player_count : option Z;
  currency : string;
  buy_in_amount : float;
  prize_pool_amount : option float;
  payout_amount : float;
  profit_amount : float;
  finish_place : option Z
}.

(** A row of [tournament_results].  The thirteen result columns are the
    fields of the parsed record the INSERT copies; the remaining columns
    follow.  [session_id], [session_start_ts_local], [modified_at] and
    [notes] are nullable. *)
Record row := {
  result : ParsedTournament;
  source_file_name : string;
  source_file_hash : string;
  session_id : option string;
  session_start_ts_local : option Z;
  session_tournament_index : Z;
  imported_at : Z;
  modified_at : option Z;
  notes : option string
}.

Definition row_site (r : row) : string := site (result r).
Definition row_ts (r : row) : Z := tournament_start_ts_local (result r).

Definition table := list row.

(* ================================================================= *)
(** ** db/queries.py *)

Module Sql.

(** [ORDER BY tournament_start_ts_local DESC LIMIT 1].  PostgreSQL leaves
    the order among equal keys open; the model keeps the row met first in
    table order. *)
Fixpoint order_desc_limit_1 (l : list row) : option row :=
  match l with
  | [] => None
  | r :: l' =>
      match order_desc_limit_1 l' with
      | None => Some r
      | Some b => if row_ts r <? row_ts b then Some b else Some r
      end
  end.

(** [ORDER BY tournament_start_ts_local ASC LIMIT 1]. *)
Fixpoint order_asc_limit_1 (l : list row) : option row :=
  match l with
  | [] => None
  | r :: l' =>
      match order_asc_limit_1 l' with
      | None => Some r
      | Some b => if row_ts b <? row_ts r then Some b else Some r
      end
  end.

(** [session_id = :session_id]; a NULL column never compares equal. *)
Definition session_is (sid : string) (r : row) : bool :=
  match session_id r with
  | Some s => String.eqb s sid
  | None => false
  end.

Definition in_session (st sid : string) (r : row) : bool :=
  String.eqb (row_site r) st && session_is sid r.

(** SQL_HASH_EXISTS: [fetchone() is not None]. *)
Definition SQL_HASH_EXISTS (db : table) (file_hash : string) : bool :=
  existsb (fun r => String.eqb (source_file_hash r) file_hash) db.

(** WHERE clause of SQL_PREV_WITHIN_GAP. *)
Definition prev_within_gap (st : string) (ts gap : Z) (r : row) : bool :=
  String.eqb (row_site r) st && (row_ts r <=? ts) && (ts - row_ts r <=? gap).

(** WHERE clause of SQL_NEXT_WITHIN_GAP. *)
Definition next_within_gap (st : string) (ts gap : Z) (r : row) : bool :=
  String.eqb (row_site r) st && (ts <=? row_ts r) && (row_ts r - ts <=? gap).

Definition SQL_PREV_WITHIN_GAP (db : table) (st : string) (ts gap : Z) : option row :=
  order_desc_limit_1 (filter (prev_within_gap st ts gap) db).

Definition SQL_NEXT_WITHIN_GAP (db : table) (st : string) (ts gap : Z) : option row :=
  order_asc_limit_1 (filter (next_within_gap st ts gap) db).

Definition SQL_COUNT_BEFORE_IN_SESSION (db : table) (st sid : string) (ts : Z) : Z :=
  Z.of_nat (List.length (filter (fun r => in_session st sid r && (row_ts r <? ts)) db)).

(** The CASE expression of SQL_BUMP_INDICES_AT_OR_AFTER_TS. *)
Definition shifted_notes (n : option string) : string :=
  match n with
  | None => "index_shifted"
  | Some s => if String.eqb s EmptyString then "index_shifted"
              else (s ++ " | " ++ "index_shifted")%string
  end.

Definition bump (now : Z) (r : row) : row :=
  {| result := result r;
     source_file_name := source_file_name r;
     source_file_hash := source_file_hash r;
     session_id := session_id r;
     session_start_ts_local := session_start_ts_local r;
     session_tournament_index := session_tournament_index r + 1;
     imported_at := imported_at r;
     modified_at := Some now;
     notes := Some (shifted_notes (notes r)) |}.

Definition SQL_BUMP_INDICES_AT_OR_AFTER_TS
    (db : table) (st sid : string) (ts now : Z) : table :=
  map (fun r => if in_session st sid r && (ts <=? row_ts r) then bump now r else r) db.

Fixpoint min_ts (l : list row) : option Z :=
  match l with
  | [] => None
  | r :: l' =>
      match min_ts l' with
      | None => Some (row_ts r)
      | Some m => Some (Z.min (row_ts r) m)
      end
  end.

(** SQL_MIN_SESSION_START: MIN over no rows is NULL. *)
Definition SQL_MIN_SESSION_START (db : table) (st sid : string) : option Z :=
  min_ts (filter (in_session st sid) db).

(** Modelled from the spec: the table definition is not part of the
    sources; the spec gives one storage constraint, uniqueness of
    [source_file_hash].  SQL_INSERT_TOURNAMENT raises IntegrityError
    ([None]) when the hash is stored already and appends the row
    otherwise, with [imported_at = now()], [modified_at] and [notes] NULL. *)
Definition SQL_INSERT_TOURNAMENT (db : table) (p : ParsedTournament)
    (file_name file_hash : string) (sid : string) (sstart : option Z)
    (sindex : Z) (now : Z) : option table :=
  if SQL_HASH_EXISTS db file_hash then None
  else Some (db ++ [ {| result := p;
                        source_file_name := file_name;
                        source_file_hash := file_hash;
                        session_id := Some sid;
                        session_start_ts_local := sstart;
                        session_tournament_index := sindex;
                        imported_at := now;
                        modified_at := None;
                        notes := None |} ]).

End Sql.

(* ================================================================= *)
(** ** importer/session_assigner.py *)

(** [timedelta(minutes=gap_minutes)], in seconds. *)
Definition timedelta_minutes (gap_minutes : Z) : Z := 60 * gap_minutes.

(** Truth value of [row.session_id] in [if prev and prev.session_id]:
    NULL and the empty string are false. *)
Definition truthy_session (r : row) : option string :=
  match session_id r with
  | Some s => if String.eqb s EmptyString then None else Some s
  | None => None
  end.

Definition find_existing_session_within_gap
    (db : table) (st : string) (ts_local gap_minutes : Z)
  : option string * option Z :=
  let gap := timedelta_minutes gap_minutes in
  let prev := Sql.SQL_PREV_WITHIN_GAP db st ts_local gap in
  match match prev with Some r => truthy_session r | None => None end with
  | Some sid =>
      (Some sid, match prev with Some r => session_start_ts_local r | None => None end)
  | None =>
      let nxt := Sql.SQL_NEXT_WITHIN_GAP db st ts_local gap in
      match match nxt with Some r => truthy_session r | None => None end with
      | Some sid =>
          (Some sid, match nxt with Some r => session_start_ts_local r | None => None end)
      | None => (None, None)
      end
  end.

(** [ensure_session_and_index].  [uuid4] is the value [str(uuid.uuid4())]
    yields if it is called; [now] is the transaction's [now()].  The
    result is the returned triple and the table after the UPDATE. *)
Definition ensure_session_and_index
    (db : table) (st : string) (ts_local gap_minutes : Z) (uuid4 : string) (now : Z)
  : (string * option Z * Z) * table :=
  match find_existing_session_within_gap db st ts_local gap_minutes with
  | (None, _) => ((uuid4, Some ts_local, 1), db)
  | (Some sid, session_start) =>
      let count_before := Sql.SQL_COUNT_BEFORE_IN_SESSION db st sid ts_local in
      let new_index := count_before + 1 in
      let db' := Sql.SQL_BUMP_INDICES_AT_OR_AFTER_TS db st sid ts_local now in
      let min_start := Sql.SQL_MIN_SESSION_START db' st sid in
      let session_start :=
        match min_start with Some m => Some m | None => session_start end in
      ((sid, session_start, new_index), db')
  end.

(** The session assignment and the INSERT of one transaction
    ([TournamentImporter.run], the calls under [trans = conn.begin()]).
    [None] is the IntegrityError of the INSERT. *)
Definition assign_and_insert (db : table) (p : ParsedTournament)
    (file_name file_hash : string) (gap_minutes : Z) (uuid4 : string) (now : Z)
  : option table :=
  let '((sid, sstart, sindex), db1) :=
    ensure_session_and_index db (site p) (tournament_start_ts_local p)
                             gap_minutes uuid4 now in
  Sql.SQL_INSERT_TOURNAMENT db1 p file_name file_hash sid sstart sindex now.

(** One call of [ensure_session_and_index] with the insert that follows
    it: what the transaction needs from outside. *)
Record insertion := {
  ins_result : ParsedTournament;
  ins_file_name : string;
  ins_file_hash : string;
  ins_gap_minutes : Z;
  ins_uuid4 : string;
  ins_now : Z
}.

(** Commit, or roll back when the INSERT raised. *)
Definition run_insertion (db : table) (i : insertion) : table :=
  match assign_and_insert db (ins_result i) (ins_file_name i) (ins_file_hash i)
                          (ins_gap_minutes i) (ins_uuid4 i) (ins_now i) with
  | Some db' => db'
  | None => db
  end.

Definition replay (l : list insertion) : table := fold_left run_insertion l [].

(** Rows sharing a session id: the members of the session. *)
Definition members (db : table) (sid : string) : list row :=
  filter (Sql.session_is sid) db.

Definition indices (l : list row) : list Z := map session_tournament_index l.

(** The list [1; 2; ...; n]. *)
Definition one_to (n : nat) : list Z := map Z.of_nat (seq 1 n).

(** Sample data for the examples: a result of [st] starting at [ts]. *)
Definition sample_result (st : string) (ts : Z) : ParsedTournament :=
  {| site := st; tournament_id := ts; tournament_start_ts_local := ts;
     hero_name := "Hero"; tournament_name := Some "Daily Main";
     game_type := Some "Hold'em No Limit"; player_count := Some 100;
     currency := "USD"; buy_in_amount := 3%float;
     prize_pool_amount := Some 300%float; payout_amount := 0%float;
     profit_amount := (-3)%float; finish_place := Some 50 |}.

Definition sample_insertion (st : string) (ts : Z) (h u : string) (gap : Z) : insertion :=
  {| ins_result := sample_result st ts; ins_file_name := (h ++ ".txt")%string;
     ins_file_hash := h; ins_gap_minutes := gap; ins_uuid4 := u; ins_now := ts + 86400 |}.

(* ================================================================= *)
(** ** The Python libraries and the missing module *)

(** A call returns or raises; the exception is kept by its class name,
    which is all the importer reads of it ([type(e).__name__]). *)
Inductive exc (A : Type) : Type :=
| Returns (a : A)
| Raises (e : string).
Arguments Returns {A} a.
Arguments Raises {A} e.

Inductive re_flag := IGNORECASE | MULTILINE.

(** [re.compile(pattern, flags)]. *)
Record regex := { pattern : string; flags : list re_flag }.

(** A match object, read through [m.group(name)]. *)
Definition rmatch := string -> string.

(** The library calls of the importer: [re], [str], [int], [float],
    [round], [datetime], the decoding of [read_text], the order of
    [pathlib] paths in one directory, and the digest function behind
    [sha256_file].  The parser and the pipeline are written over this
    interface, and the properties below hold for every implementation of
    it.  [py_int] and [strptime] give None where [int] and
    [datetime.strptime] raise ValueError ([int] does so on a string of
    more digits than the interpreter's limit, 4300 by default). *)
Record PyLib := {
  re_search : regex -> string -> option rmatch;
  re_finditer : regex -> string -> list rmatch;
  re_fullmatch : string -> string -> bool;
  str_strip : string -> string;
  str_lower : string -> string;
  py_int : string -> option Z;
  py_float : string -> float;
  py_round : float -> Z -> float;
  strptime : string -> string -> option Z;
  strftime : Z -> string -> string;
  decode : string -> string;
  name_le : string -> string -> bool;
  sha256 : string -> string
}.

(* ================================================================= *)
(** ** importer/gg_summary_parser.py *)

(** [token.startswith("$")]. *)
Definition startswith_dollar (token : string) : bool :=
  match token with
  | String c _ => Ascii.eqb c "$"%char
  | EmptyString => false
  end.

(** [token[1:]]. *)
Definition drop_first (token : string) : string :=
  match token with
  | String _ rest => rest
  | EmptyString => EmptyString
  end.

(** [s.replace(",", "")]. *)
Fixpoint remove_commas (s : string) : string :=
  match s with
  | EmptyString => EmptyString
  | String c rest =>
      if Ascii.eqb c ","%char then remove_commas rest
      else String c (remove_commas rest)
  end.

Definition parse_money_usd (L : PyLib) (token : string) : option float :=
  let token := str_strip L token in
  if negb (startswith_dollar token) then None
  else
    let number_part := str_strip L (remove_commas (drop_first token)) in
    if negb (re_fullmatch L "\d+(\.\d+)?" number_part) then None
    else Some (py_float L number_part).

Module GGSummaryParser.

Definition RE_TOURNAMENT_LINE : regex :=
  {| pattern := "^\s*Tournament\s*#(?P<tid>\d+)\s*,\s*(?P<tname>.+?)\s*,\s*(?P<gtype>.+?)\s*$";
     flags := [IGNORECASE; MULTILINE] |}.

Definition RE_BUYIN : regex :=
  {| pattern := "^\s*Buy-in:\s*(?P<amt>\$[0-9,]+(?:\.[0-9]+)?)\s*$";
     flags := [IGNORECASE; MULTILINE] |}.

Definition RE_PLAYERS : regex :=
  {| pattern := "^\s*(?P<n>\d+)\s+Players\s*$";
     flags := [IGNORECASE; MULTILINE] |}.

Definition RE_POOL : regex :=
  {| pattern := "^\s*Total\s+Prize\s+Pool:\s*(?P<amt>\$[0-9,]+(?:\.[0-9]+)?)\s*$";
     flags := [IGNORECASE; MULTILINE] |}.

Definition RE_STARTED : regex :=
  {| pattern := "^\s*Tournament\s+started\s+(?P<dt>\d{4}/\d{2}/\d{2}\s+\d{2}:\d{2}:\d{2})\s*$";
     flags := [IGNORECASE; MULTILINE] |}.

Definition RE_FINISH : regex :=
  {| pattern := "^\s*You\s+finished\s+in\s+(?P<place>\d+)\s+place\.\s*$";
     flags := [IGNORECASE; MULTILINE] |}.

Definition RE_PLACEMENT_LINE : regex :=
  {| pattern := "^\s*(?P<place>\d+)(?:st|nd|rd|th)\s*:\s*(?P<name>.+?)\s*,\s*(?P<payout>.+?)\s*$";
     flags := [IGNORECASE; MULTILINE] |}.

(** How the loop over the placement lines ends. *)
Inductive hero_line :=
| HeroPaid (payout_amount : float)
| HeroNonCash
| NoHeroLine.

(** [for pm in RE_PLACEMENT_LINE.finditer(text)]: the first line whose
    name is the hero's decides. *)
Fixpoint hero_payout (L : PyLib) (hero : string) (pms : list rmatch) : hero_line :=
  match pms with
  | [] => NoHeroLine
  | pm :: rest =>
      let name := str_strip L (pm "name") in
      if String.eqb (str_lower L name) (str_lower L hero) then
        let payout_token := str_strip L (pm "payout") in
        match parse_money_usd L payout_token with
        | None => HeroNonCash
        | Some payout_amount => HeroPaid payout_amount
        end
      else hero_payout L hero rest
  end.

(** [int(m.group(g)) if m else None]. *)
Definition int_group (L : PyLib) (m : option rmatch) (g : string) : exc (option Z) :=
  match m with
  | Some m' =>
      match py_int L (m' g) with
      | Some n => Returns (Some n)
      | None => Raises "ValueError"
      end
  | None => Returns None
  end.

(** [parse]: the pair (record or None, reason or None), or the
    ValueError of [int] or of [datetime.strptime]. *)
Definition parse (L : PyLib) (st : string) (text : string)
  : exc (option ParsedTournament * option string) :=
  match re_search L RE_TOURNAMENT_LINE text with
  | None => Returns (None, Some "parse_error:missing_tournament_header")
  | Some m =>
  match py_int L (m "tid") with
  | None => Raises "ValueError"
  | Some tid =>
  let tname := str_strip L (m "tname") in
  let gtype := str_strip L (m "gtype") in
  match re_search L RE_BUYIN text with
  | None => Returns (None, Some "parse_error:missing_buy_in")
  | Some m_buy =>
  match parse_money_usd L (m_buy "amt") with
  | None => Returns (None, Some "needs_review:non_cash_buy_in")
  | Some buy_in =>
  match int_group L (re_search L RE_PLAYERS text) "n" with
  | Raises e => Raises e
  | Returns players =>
  let prize_pool :=
    match re_search L RE_POOL text with
    | Some m_pool => parse_money_usd L (m_pool "amt")
    | None => None
    end in
  match re_search L RE_STARTED text with
  | None => Returns (None, Some "parse_error:missing_start_time")
  | Some m_s =>
  match strptime L (m_s "dt") "%Y/%m/%d %H:%M:%S" with
  | None => Raises "ValueError"
  | Some start_dt =>
  match int_group L (re_search L RE_FINISH text) "place" with
  | Raises e => Raises e
  | Returns place =>
  let hero := "Hero" in
  match hero_payout L hero (re_finditer L RE_PLACEMENT_LINE text) with
  | HeroNonCash => Returns (None, Some "needs_review:non_cash_payout")
  | NoHeroLine => Returns (None, Some "parse_error:missing_hero_payout_line")
  | HeroPaid payout =>
      let profit := py_round L (PrimFloat.sub payout buy_in) 2 in
      Returns
        (Some {| site := st;
                 tournament_id := tid;
                 tournament_start_ts_local := start_dt;
                 hero_name := hero;
                 tournament_name := Some tname;
                 game_type := Some gtype;
                 player_count := players;
                 currency := "USD";
                 buy_in_amount := py_round L buy_in 2;
                 prize_pool_amount :=
                   match prize_pool with
                   | Some v => Some (py_round L v 2)
                   | None => None
                   end;
                 payout_amount := py_round L payout 2;
                 profit_amount := profit;
                 finish_place := place |},
         None)
  end end end end end end end end end.

End GGSummaryParser.

(* ================================================================= *)
(** ** importer/file_router.py *)

(** The input directory and the three output folders of [FolderConfig]
    (the log folder holds the log only). *)
Inductive folder := InputDir | ProcessedDir | NeedsReviewDir | DuplicateDir.

Definition folder_eqb (a b : folder) : bool :=
  match a, b with
  | InputDir, InputDir | ProcessedDir, ProcessedDir
  | NeedsReviewDir, NeedsReviewDir | DuplicateDir, DuplicateDir => true
  | _, _ => false
  end.

(** A [pathlib.Path] of a file in one of the folders; [path.name] is
    [stem + suffix]. *)
Record Path := { parent : folder; stem : string; suffix : string }.

Definition path_name (p : Path) : string := (stem p ++ suffix p)%string.

Definition path_eqb (a b : Path) : bool :=
  folder_eqb (parent a) (parent b) && String.eqb (stem a) (stem b)
  && String.eqb (suffix a) (suffix b).

(** A file: where it is, what it holds, the folders into which moving it
    raises (a file held open by another program, a folder without write
    permission), and what a move that raises leaves in the folder:
    nothing, or a file with the given content.  [shutil.move] tries
    [os.rename] and, when that raises, copies the file and unlinks the
    source; when the unlink raises the copy is there, and when the copy
    raises part of it may be. *)
Record file := {
  f_path : Path;
  f_bytes : string;
  f_blocked : folder -> bool;
  f_left : folder -> option string
}.

Definition path_exists (files : list file) (p : Path) : bool :=
  existsb (fun f => path_eqb (f_path f) p) files.

Definition lookup (files : list file) (p : Path) : option file :=
  find (fun f => path_eqb (f_path f) p) files.

Definition str_of_nat (n : nat) : string :=
  NilEmpty.string_of_uint (Nat.to_uint n).

(** The numbered candidate [{stem}_{ts}_{counter}{suffix}]. *)
Definition numbered (dest_dir : folder) (base sfx : string) (counter : nat) : Path :=
  {| parent := dest_dir;
     stem := (base ++ "_" ++ str_of_nat counter)%string;
     suffix := sfx |}.

(** [while candidate.exists()], at most [fuel] more rounds. *)
Fixpoint next_free (files : list file) (dest_dir : folder) (base sfx : string)
    (fuel : nat) (candidate : Path) (counter : nat) : option Path :=
  if negb (path_exists files candidate) then Some candidate
  else match fuel with
       | O => None
       | S fuel' =>
           next_free files dest_dir base sfx fuel'
                     (numbered dest_dir base sfx counter) (S counter)
       end.

(** The file at [src] takes the path [target]; it keeps its place in the
    listing. *)
Definition retarget (src target : Path) (g : file) : file :=
  if path_eqb (f_path g) src
  then {| f_path := target; f_bytes := f_bytes g; f_blocked := f_blocked g;
          f_left := f_left g |}
  else g.

(** The file that a move that raised has left at [target]. *)
Definition left_at (target : Path) (content : string) : file :=
  {| f_path := target; f_bytes := content; f_blocked := fun _ => false;
     f_left := fun _ => None |}.

(** [shutil.move(src, target)]: the listing after the call, and the
    target or the exception.  A move that raises leaves the listing as it
    was or with one more file, at the target. *)
Definition shutil_move (files : list file) (src target : Path)
  : list file * exc Path :=
  match lookup files src with
  | None => (files, Raises "FileNotFoundError")
  | Some f =>
      if f_blocked f (parent target) then
        (match f_left f (parent target) with
         | Some content => files ++ [left_at target content]
         | None => files
         end,
         Raises "PermissionError")
      else (map (retarget src target) files, Returns target)
  end.

(** [safe_move_with_suffix(src, dest_dir)].  The search for a free name
    gets one round per file of the listing, which is enough (see
    [next_free_found]). *)
Definition safe_move_with_suffix (L : PyLib) (files : list file)
    (src : Path) (dest_dir : folder) (now : Z) : list file * exc Path :=
  let dest := {| parent := dest_dir; stem := stem src; suffix := suffix src |} in
  if negb (path_exists files dest) then shutil_move files src dest
  else
    let ts := strftime L now "%Y%m%d_%H%M%S" in
    let base := (stem src ++ "_" ++ ts)%string in
    let candidate := {| parent := dest_dir; stem := base; suffix := suffix src |} in
    match next_free files dest_dir base (suffix src) (List.length files) candidate 1 with
    | Some free => shutil_move files src free
    | None => shutil_move files src candidate
    end.

(** The Ingestion Event: the [event] dict of [TournamentImporter.run]. *)
Record event := {
  ev_file_name : string;
  ev_file_hash : option string;
  ev_status : option string;
  ev_reason : option string;
  ev_tournament_id : option Z;
  ev_start_time : option Z;
  ev_buy_in : option float;
  ev_payout : option float
}.

(** A line of the log: the payload and the timestamp [log_jsonl] adds. *)
Record log_record := { payload : event; timestamp : Z }.

Definition log_jsonl (log : list log_record) (ev : event) (now : Z)
  : list log_record :=
  log ++ [ {| payload := ev; timestamp := now |} ].

(* ================================================================= *)
(** ** importer/tournament_importer.py *)

Record ImportConfig := {
  cfg_site : string;
  dry_run : bool;
  session_gap_minutes : Z;
  file_extension : string
}.

(** The store, the folders and the log. *)
Record world := { w_db : table; w_files : list file; w_log : list log_record }.

(** The four counters of [run]. *)
Record tally := { inserted : Z; duplicates : Z; needs_review : Z; errors : Z }.

(** What the processing of one file takes from outside: the clock, the
    UUID draw, and the exception [trans.commit()] raises, None when the
    commit succeeds. *)
Record ambient := {
  amb_now : Z;
  amb_uuid4 : string;
  amb_commit : option string
}.

Definition new_event (src : Path) : event :=
  {| ev_file_name := path_name src; ev_file_hash := None; ev_status := None;
     ev_reason := None; ev_tournament_id := None; ev_start_time := None;
     ev_buy_in := None; ev_payout := None |}.

Definition with_hash (ev : event) (h : string) : event :=
  {| ev_file_name := ev_file_name ev; ev_file_hash := Some h;
     ev_status := ev_status ev; ev_reason := ev_reason ev;
     ev_tournament_id := ev_tournament_id ev; ev_start_time := ev_start_time ev;
     ev_buy_in := ev_buy_in ev; ev_payout := ev_payout ev |}.

Definition with_result (ev : event) (p : ParsedTournament) : event :=
  {| ev_file_name := ev_file_name ev; ev_file_hash := ev_file_hash ev;
     ev_status := ev_status ev; ev_reason := ev_reason ev;
     ev_tournament_id := Some (tournament_id p);
     ev_start_time := Some (tournament_start_ts_local p);
     ev_buy_in := Some (buy_in_amount p); ev_payout := Some (payout_amount p) |}.

Definition with_status (ev : event) (st rs : string) : event :=
  {| ev_file_name := ev_file_name ev; ev_file_hash := ev_file_hash ev;
     ev_status := Some st; ev_reason := Some rs;
     ev_tournament_id := ev_tournament_id ev; ev_start_time := ev_start_time ev;
     ev_buy_in := ev_buy_in ev; ev_payout := ev_payout ev |}.

Definition count_inserted (t : tally) : tally :=
  {| inserted := inserted t + 1; duplicates := duplicates t;
     needs_review := needs_review t; errors := errors t |}.
Definition count_duplicate (t : tally) : tally :=
  {| inserted := inserted t; duplicates := duplicates t + 1;
     needs_review := needs_review t; errors := errors t |}.
Definition count_needs_review (t : tally) : tally :=
  {| inserted := inserted t; duplicates := duplicates t;
     needs_review := needs_review t + 1; errors := errors t |}.
Definition count_error (t : tally) : tally :=
  {| inserted := inserted t; duplicates := duplicates t;
     needs_review := needs_review t; errors := errors t + 1 |}.

(** Modelled from the spec: [utils/hashing.py] is not part of the
    sources.  [sha256_file(path)] returns the digest of the content of the
    file, [sha256] of its bytes, whatever the name of the file; it raises
    when there is no file at the path. *)
Definition sha256_file (L : PyLib) (files : list file) (src : Path) : exc string :=
  match lookup files src with
  | Some f => Returns (sha256 L (f_bytes f))
  | None => Raises "FileNotFoundError"
  end.

(** [read_text_with_fallback(path)]. *)
Definition read_text_with_fallback (L : PyLib) (files : list file) (src : Path)
  : exc string :=
  match lookup files src with
  | Some f => Returns (decode L (f_bytes f))
  | None => Raises "FileNotFoundError"
  end.

(** [reason or default]. *)
Definition reason_or (reason : option string) (default : string) : string :=
  match reason with
  | Some r => if String.eqb r EmptyString then default else r
  | None => default
  end.

(** How the [try] block of one file ends: it ran to a [continue] or to
    its end, the event logged; or an exception left it, the event as it
    was when raised and the listing as the move that raised left it. *)
Inductive completion :=
| Done (w : world) (t : tally)
| Escaped (e : string) (w : world) (t : tally) (ev : event).

Definition logged (w : world) (files : list file) (db : table)
    (ev : event) (now : Z) : world :=
  {| w_db := db; w_files := files; w_log := log_jsonl (w_log w) ev now |}.

(** The block under [trans = conn.begin()].  [on_integrity_error] and
    [on_exception] are its two [except] branches; both start with
    [trans.rollback()], and both find the listing as the [try] block left
    it. *)
Definition transaction (L : PyLib) (cfg : ImportConfig) (amb : ambient)
    (w : world) (t : tally) (src : Path) (file_hash : string)
    (parsed : ParsedTournament) (ev : event) : completion :=
  let on_integrity_error (files : list file) : completion :=
    match safe_move_with_suffix L files src DuplicateDir (amb_now amb) with
    | (files', Returns _) =>
        Done (logged w files' (w_db w)
                     (with_status ev "duplicate" "unique_conflict") (amb_now amb))
             (count_duplicate t)
    | (files', Raises e) =>
        Escaped e {| w_db := w_db w; w_files := files'; w_log := w_log w |} t ev
    end in
  let on_exception (e : string) (files : list file) : completion :=
    let files' :=
      fst (safe_move_with_suffix L files src NeedsReviewDir (amb_now amb)) in
    Done (logged w files' (w_db w)
                 (with_status ev "error" ("move_failed_or_db_error:" ++ e)%string)
                 (amb_now amb))
         (count_error t) in
  match assign_and_insert (w_db w) parsed (path_name src) file_hash
                          (session_gap_minutes cfg) (amb_uuid4 amb) (amb_now amb) with
  | None => on_integrity_error (w_files w)
  | Some db' =>
      match safe_move_with_suffix L (w_files w) src ProcessedDir (amb_now amb) with
      | (files', Raises e) => on_exception e files'
      | (files', Returns _) =>
          match amb_commit amb with
          | None =>
              Done (logged w files' db' (with_status ev "inserted" "ok") (amb_now amb))
                   (count_inserted t)
          | Some e =>
              if String.eqb e "IntegrityError" then on_integrity_error files'
              else on_exception e files'
          end
      end
  end.

(** The body of the outer [try] of one file. *)
Definition try_file (L : PyLib) (cfg : ImportConfig) (amb : ambient)
    (w : world) (t : tally) (src : Path) : completion :=
  let ev := new_event src in
  let left (files' : list file) : world :=
    {| w_db := w_db w; w_files := files'; w_log := w_log w |} in
  match sha256_file L (w_files w) src with
  | Raises e => Escaped e w t ev
  | Returns file_hash =>
  let ev := with_hash ev file_hash in
  if Sql.SQL_HASH_EXISTS (w_db w) file_hash then
    match (if negb (dry_run cfg)
           then safe_move_with_suffix L (w_files w) src DuplicateDir (amb_now amb)
           else (w_files w, Returns src)) with
    | (files', Raises e) => Escaped e (left files') t ev
    | (files', Returns _) =>
        Done (logged w files' (w_db w)
                     (with_status ev "duplicate" "hash_exists") (amb_now amb))
             (count_duplicate t)
    end
  else
  match read_text_with_fallback L (w_files w) src with
  | Raises e => Escaped e w t ev
  | Returns text_content =>
  match GGSummaryParser.parse L (cfg_site cfg) text_content with
  | Raises e => Escaped e w t ev
  | Returns (None, reason) =>
      match (if negb (dry_run cfg)
             then safe_move_with_suffix L (w_files w) src NeedsReviewDir (amb_now amb)
             else (w_files w, Returns src)) with
      | (files', Raises e) => Escaped e (left files') t ev
      | (files', Returns _) =>
          let is_review := String.prefix "needs_review" (reason_or reason EmptyString) in
          Done (logged w files' (w_db w)
                       (with_status ev (if is_review then "needs_review" else "error")
                                    (reason_or reason "unknown_parse_failure"))
                       (amb_now amb))
               (if is_review then count_needs_review t else count_error t)
      end
  | Returns (Some parsed, _) =>
      let ev := with_result ev parsed in
      if dry_run cfg then
        Done (logged w (w_files w) (w_db w)
                     (with_status ev "dry_run" "no_db_no_move") (amb_now amb))
             t
      else transaction L cfg amb w t src file_hash parsed ev
  end end end.

(** One round of the loop of phase 3, with the outer [except Exception]. *)
Definition process_file (L : PyLib) (cfg : ImportConfig) (amb : ambient)
    (w : world) (t : tally) (src : Path) : world * tally :=
  match try_file L cfg amb w t src with
  | Done w' t' => (w', t')
  | Escaped e w' t' ev =>
      let files' :=
        if negb (dry_run cfg) then
          fst (safe_move_with_suffix L (w_files w') src NeedsReviewDir (amb_now amb))
        else w_files w' in
      (logged w' files' (w_db w')
              (with_status ev "error" ("fatal:" ++ e)%string) (amb_now amb),
       count_error t')
  end.

(** A stable sort by insertion, as [list.sort] is stable. *)
Fixpoint insert_by {A : Type} (le : A -> A -> bool) (x : A) (l : list A) : list A :=
  match l with
  | [] => [x]
  | y :: l' => if le x y then x :: y :: l' else y :: insert_by le x l'
  end.

Definition sort_by {A : Type} (le : A -> A -> bool) (l : list A) : list A :=
  fold_right (insert_by le) [] l.

(** [_list_input_files]: the files of the input directory with the
    configured extension ([input_paths]), sorted. *)
Definition input_paths (L : PyLib) (cfg : ImportConfig) (files : list file)
  : list Path :=
  filter (fun p => folder_eqb (parent p) InputDir
                   && String.eqb (str_lower L (suffix p))
                                 (str_lower L (file_extension cfg)))
         (map f_path files).

Definition list_input_files (L : PyLib) (cfg : ImportConfig) (files : list file)
  : list Path :=
  sort_by (fun a b => name_le L (path_name a) (path_name b))
          (input_paths L cfg files).

(** Phase 1: the timestamp a file is ordered by, None when it does not
    parse or reading or parsing raises. *)
Definition pre_parse (L : PyLib) (cfg : ImportConfig) (files : list file)
    (src : Path) : option Z :=
  match read_text_with_fallback L files src with
  | Returns text_content =>
      match GGSummaryParser.parse L (cfg_site cfg) text_content with
      | Returns (Some parsed, _) => Some (tournament_start_ts_local parsed)
      | _ => None
      end
  | Raises _ => None
  end.

(** Phase 2: the order of the key [(x[0] is None, x[0])]. *)
Definition key_le (a b : option Z * Path) : bool :=
  match fst a, fst b with
  | Some x, Some y => x <=? y
  | Some _, None => true
  | None, Some _ => false
  | None, None => true
  end.

Definition file_queue (L : PyLib) (cfg : ImportConfig) (files : list file)
  : list Path :=
  map snd (sort_by key_le
             (map (fun p => (pre_parse L cfg files p, p))
                  (list_input_files L cfg files))).

(** Phase 3; [amb src] is what the processing of [src] meets. *)
Fixpoint process_queue (L : PyLib) (cfg : ImportConfig) (amb : Path -> ambient)
    (queue : list Path) (st : world * tally) : world * tally :=
  match queue with
  | [] => st
  | src :: rest =>
      process_queue L cfg amb rest
                    (process_file L cfg (amb src) (fst st) (snd st) src)
  end.

Definition no_counts : tally :=
  {| inserted := 0; duplicates := 0; needs_review := 0; errors := 0 |}.

(** [TournamentImporter.run]. *)
Definition run (L : PyLib) (cfg : ImportConfig) (amb : Path -> ambient) (w : world)
  : world * tally :=
  process_queue L cfg amb (file_queue L cfg (w_files w)) (w, no_counts).

(* ================================================================= *)
(** ** A sample implementation of the library interface

    It answers as Python does on the three summaries below and on text
    without a tournament header line; it is used for the examples only. *)

Module Sample.

Definition summary (tid dt : string) : string :=
  ("Tournament #" ++ tid ++ ", Daily Main, Hold'em No Limit
Buy-in: $3
100 Players
Total Prize Pool: $300
Tournament started " ++ dt ++ "
1st : Villain, $100
50th : Hero, $0
You finished in 50 place.
")%string.

(** The known summaries: id and start time, the latter also in seconds
    after 2024/01/05 00:00:00. *)
Definition known : list (string * string * Z) :=
  [ ("1001", "2024/01/05 20:00:00", 72000);
    ("1002", "2024/01/05 20:10:00", 72600);
    ("1003", "2024/01/05 20:05:00", 72300) ].

Definition doc_1 : string := summary "1001" "2024/01/05 20:00:00".
Definition doc_2 : string := summary "1002" "2024/01/05 20:10:00".
Definition doc_3 : string := summary "1003" "2024/01/05 20:05:00".

Definition is_pattern (re other : regex) : bool :=
  String.eqb (pattern re) (pattern other).

(** The named groups of the first match of [re] in the summary of
    [tid] and [dt]. *)
Definition groups (re : regex) (tid dt : string) : option rmatch :=
  let one (g v : string) : option rmatch :=
    Some (fun n => if String.eqb n g then v else EmptyString) in
  if is_pattern re GGSummaryParser.RE_TOURNAMENT_LINE then
    Some (fun n => if String.eqb n "tid" then tid
                   else if String.eqb n "tname" then "Daily Main"
                   else if String.eqb n "gtype" then "Hold'em No Limit"
                   else EmptyString)
  else if is_pattern re GGSummaryParser.RE_BUYIN then one "amt" "$3"
  else if is_pattern re GGSummaryParser.RE_PLAYERS then one "n" "100"
  else if is_pattern re GGSummaryParser.RE_POOL then one "amt" "$300"
  else if is_pattern re GGSummaryParser.RE_STARTED then one "dt" dt
  else if is_pattern re GGSummaryParser.RE_FINISH then one "place" "50"
  else None.

Definition placement (place name payout : string) : rmatch :=
  fun n => if String.eqb n "place" then place
           else if String.eqb n "name" then name
           else if String.eqb n "payout" then payout
           else EmptyString.

Fixpoint search_known (re : regex) (text : string)
    (docs : list (string * string * Z)) : option rmatch :=
  match docs with
  | [] => None
  | (tid, dt, _) :: rest =>
      if String.eqb text (summary tid dt) then groups re tid dt
      else search_known re text rest
  end.

Definition is_known (text : string) : bool :=
  existsb (fun d => String.eqb text (summary (fst (fst d)) (snd (fst d)))) known.

Definition is_digit (c : ascii) : bool :=
  let n := nat_of_ascii c in (48 <=? n)%nat && (n <=? 57)%nat.

Fixpoint all_digits (s : string) : bool :=
  match s with
  | EmptyString => true
  | String c rest => is_digit c && all_digits rest
  end.

Definition lower_ascii (c : ascii) : ascii :=
  let n := nat_of_ascii c in
  if (65 <=? n)%nat && (n <=? 90)%nat then ascii_of_nat (n + 32) else c.

Fixpoint lower (s : string) : string :=
  match s with
  | EmptyString => EmptyString
  | String c rest => String (lower_ascii c) (lower rest)
  end.

Definition int_of (s : string) : Z :=
  match NilEmpty.uint_of_string s with
  | Some d => Z.of_nat (Nat.of_uint d)
  | None => 0
  end.

Definition float_of (s : string) : float :=
  if String.eqb s "3" then 3%float
  else if String.eqb s "300" then 300%float
  else if String.eqb s "100" then 100%float
  else 0%float.

Fixpoint seconds_of (dt : string) (docs : list (string * string * Z)) : option Z :=
  match docs with
  | [] => None
  | (_, d, secs) :: rest => if String.eqb dt d then Some secs else seconds_of dt rest
  end.

Definition lib : PyLib :=
  {| re_search := fun re text => search_known re text known;
     re_finditer := fun re text =>
       if is_pattern re GGSummaryParser.RE_PLACEMENT_LINE && is_known text
       then [placement "1" "Villain" "$100"; placement "50" "Hero" "$0"]
       else [];
     re_fullmatch := fun _ s =>
       negb (String.eqb s EmptyString) && all_digits s;
     str_strip := fun s => s;
     str_lower := lower;
     py_int := fun s =>
       if (4300 <? String.length s)%nat then None else Some (int_of s);
     py_float := float_of;
     py_round := fun x _ => x;
     strptime := fun dt _ => seconds_of dt known;
     strftime := fun _ _ => "20240106_090000";
     decode := fun b => b;
     name_le := String.leb;
     sha256 := fun b => ("sha256:" ++ b)%string |}.

(** What the parser returns for [doc_1]. *)
Definition parsed_1 : ParsedTournament :=
  {| site := "GG"; tournament_id := 1001; tournament_start_ts_local := 72000;
     hero_name := "Hero"; tournament_name := Some "Daily Main";
     game_type := Some "Hold'em No Limit"; player_count := Some 100;
     currency := "USD"; buy_in_amount := 3%float;
     prize_pool_amount := Some 300%float; payout_amount := 0%float;
     profit_amount := (-3)%float; finish_place := Some 50 |}.

Definition cfg (dry : bool) : ImportConfig :=
  {| cfg_site := "GG"; dry_run := dry; session_gap_minutes := 60;
     file_extension := ".txt" |}.

(** A file of the input directory that can be moved anywhere. *)
Definition input_file (stm content : string) : file :=
  {| f_path := {| parent := InputDir; stem := stm; suffix := ".txt" |};
     f_bytes := content;
     f_blocked := fun _ => false;
     f_left := fun _ => None |}.

(** A file of the input directory that cannot be moved. *)
Definition held_file (stm content : string) : file :=
  {| f_path := {| parent := InputDir; stem := stm; suffix := ".txt" |};
     f_bytes := content;
     f_blocked := fun _ => true;
     f_left := fun _ => None |}.

(** A file of the input directory that cannot be removed from it: every
    move raises after it has copied the file. *)
Definition stuck_file (stm content : string) : file :=
  {| f_path := {| parent := InputDir; stem := stm; suffix := ".txt" |};
     f_bytes := content;
     f_blocked := fun _ => true;
     f_left := fun _ => Some content |}.

(** The clock reads one day later; the UUID drawn for a file is [u-]
    and its stem; every commit succeeds. *)
Definition amb (src : Path) : ambient :=
  {| amb_now := 86400;
     amb_uuid4 := ("u-" ++ stem src)%string;
     amb_commit := None |}.

(** The same, but the commit of the file with stem [stm] raises [e]. *)
Definition amb_failing (stm e : string) (src : Path) : ambient :=
  {| amb_now := 86400;
     amb_uuid4 := ("u-" ++ stem src)%string;
     amb_commit := if String.eqb (stem src) stm then Some e else None |}.

Definition start (files : list file) : world :=
  {| w_db := []; w_files := files; w_log := [] |}.

End Sample.

(* ================================================================= *)
(** ** Properties of a run, and sample listings *)

(** The folder a processed file is in agrees with the status logged for
    it.  In dry-run the file stays.  Otherwise: processed for inserted,
    duplicate for duplicate, needs-review for needs_review and for error;
    but a file logged as error has stayed in the input directory when
    moving it into the needs-review folder raises, and is in the processed
    folder when the commit raised after the file had been moved. *)
Definition agrees (cfg : ImportConfig) (a : ambient) (f : file)
    (status : string) (dir : folder) : Prop :=
  if dry_run cfg then dir = InputDir
  else
    (status = "inserted" /\ dir = ProcessedDir /\ amb_commit a = None) \/
    (status = "duplicate" /\ dir = DuplicateDir) \/
    (status = "needs_review" /\ dir = NeedsReviewDir) \/
    (status = "error" /\
     ((dir = NeedsReviewDir /\ f_blocked f NeedsReviewDir = false) \/
      (dir = InputDir /\ f_blocked f NeedsReviewDir = true) \/
      (dir = ProcessedDir /\ amb_commit a <> None))).

Definition statuses : list string :=
  ["inserted"; "duplicate"; "needs_review"; "error"; "dry_run"].

(** In a listing without two files of one path, looking up the path of a
    file of the input directory finds that file. *)
Definition self_found (files : list file) : Prop :=
  forall f, In f files -> parent (f_path f) = InputDir ->
            lookup files (f_path f) = Some f.

(** The files of the queue are distinct files of the input directory. *)
Definition ready (files : list file) (queue : list Path) : Prop :=
  self_found files /\ NoDup queue /\
  forall src, In src queue ->
              parent src = InputDir /\ exists f, In f files /\ f_path f = src.

(** What a move of [f] into [d] that raises leaves in the listing:
    nothing, or one file with the content [f_left f d], at a path of [d]
    that no file has. *)
Definition left_by (files : list file) (f : file) (d : folder)
    (left : list file) : Prop :=
  (left = [] /\ f_left f d = None) \/
  (exists target content,
     left = [left_at target content] /\ f_left f d = Some content /\
     parent target = d /\ path_exists files target = false).

(** A file that a move of [f] has left behind: it is in a folder other
    than the input directory, into which moving [f] raises, and it has
    the content that such a move leaves. *)
Definition leftover (f c : file) : Prop :=
  parent (f_path c) <> InputDir /\
  f_blocked f (parent (f_path c)) = true /\
  f_left f (parent (f_path c)) = Some (f_bytes c).

(** What one file does to the listing: nothing to the files that are
    there but its own move out of the input directory; and the moves
    that raised may have left files in the other folders, which come
    after the files that were there. *)
Definition own_move (src : Path) (files files' : list file) : Prop :=
  exists copies,
    Forall (fun c => parent (f_path c) <> InputDir) copies /\
    (files' = files ++ copies \/
     exists target, parent target <> InputDir /\
       files' = map (retarget src target) files ++ copies).


(** The record of a file whose content hash is stored when its turn
    comes: duplicate by the pre-check, or, when moving it into the
    duplicate folder raises, error. *)
Definition refused (cfg : ImportConfig) (f : file) (rec : log_record) : Prop :=
  (ev_status (payload rec) = Some "duplicate" /\
   ev_reason (payload rec) = Some "hash_exists" /\
   (dry_run cfg = true \/ f_blocked f DuplicateDir = false)) \/
  (ev_status (payload rec) = Some "error" /\
   dry_run cfg = false /\ f_blocked f DuplicateDir = true).

(** A file is turned away as a duplicate: it is logged as duplicate by
    the hash pre-check and, found at its place in the listing, is in the
    duplicate folder (in dry-run: where it was); or moving it into the
    duplicate folder raises, and it is logged as error. *)
Definition turned_away (cfg : ImportConfig) (files' : list file) (i : nat)
    (f : file) (rec : log_record) : Prop :=
  (ev_status (payload rec) = Some "duplicate" /\
   ev_reason (payload rec) = Some "hash_exists" /\
   exists f', nth_error files' i = Some f' /\ f_bytes f' = f_bytes f /\
              parent (f_path f') = if dry_run cfg then InputDir else DuplicateDir) \/
  (ev_status (payload rec) = Some "error" /\
   dry_run cfg = false /\ f_blocked f DuplicateDir = true).

(** The record of a file and the place of the file after the run: the
    record carries the name of the file and one of the five statuses, and
    the file, found at its place in the listing, has kept its content and
    is in a folder that agrees with the status. *)
Definition placed (cfg : ImportConfig) (amb : Path -> ambient)
    (files files' : list file) (src : Path) (rec : log_record) : Prop :=
  ev_file_name (payload rec) = path_name src /\
  forall i f, nth_error files i = Some f -> f_path f = src ->
    exists st f',
      ev_status (payload rec) = Some st /\ In st statuses /\
      nth_error files' i = Some f' /\ f_bytes f' = f_bytes f /\
      agrees cfg (amb src) f st (parent (f_path f')).

(** A file that a run has left behind: a move of a file of the queue
    that was logged as error raised, and left it in the folder it aimed
    at. *)
Definition left_in_run (files : list file) (queue : list Path)
    (recs : list log_record) (c : file) : Prop :=
  exists j src rec f,
    nth_error queue j = Some src /\ nth_error recs j = Some rec /\
    lookup files src = Some f /\
    ev_status (payload rec) = Some "error" /\
    leftover f c.

(** Sample listings. *)
Definition three_files : list file :=
  [ Sample.input_file "a" Sample.doc_1;
    Sample.input_file "b" Sample.doc_2;
    Sample.input_file "c" Sample.doc_3 ].

Definition twice_the_same : list file :=
  [ Sample.input_file "a" Sample.doc_1; Sample.input_file "b" Sample.doc_1 ].

Definition second_copy_held : list file :=
  [ Sample.input_file "a" Sample.doc_1; Sample.held_file "b" Sample.doc_1 ].

Definition not_a_summary : list file := [ Sample.input_file "e" "hello" ].

Definition held_not_a_summary : list file := [ Sample.held_file "g" "hello" ].

(* ================================================================= *)
(** ** Properties of a store, and sample insertions *)

(** The session invariant of the data model: the ordinal indices of the
    members are exactly 1..N, and they follow the start timestamps. *)
Definition contiguous (l : list row) : Prop :=
  Permutation (indices l) (one_to (List.length l)).

Definition ordered (l : list row) : Prop :=
  forall a b, In a l -> In b l -> row_ts a < row_ts b ->
              session_tournament_index a < session_tournament_index b.

Definition well_numbered (l : list row) : Prop := contiguous l /\ ordered l.

(** What the UPDATE does to a member of the session it is scoped to. *)
Definition shift (ts now : Z) (r : row) : row :=
  if ts <=? row_ts r then Sql.bump now r else r.

Definition before (ts : Z) (l : list row) : list row :=
  filter (fun r => row_ts r <? ts) l.

(** Store-wide invariants of the tables the importer builds.  [used] are
    the UUIDs drawn so far. *)
Definition ids_from (used : list string) (db : table) : Prop :=
  forall r, In r db -> exists s, session_id r = Some s /\ In s used.

Definition one_site_per_session (db : table) : Prop :=
  forall a b, In a db -> In b db ->
              session_id a = session_id b -> row_site a = row_site b.

Definition store_ok (used : list string) (db : table) : Prop :=
  ids_from used db /\ one_site_per_session db /\
  forall sid, well_numbered (members db sid).

(** [row.session_id] is true in Python: the row is a member of a session. *)
Definition has_session (r : row) : bool :=
  match truthy_session r with Some _ => true | None => false end.

(** Distance in time between a stored row and an event. *)
Definition distance (r : row) (ts : Z) : Z := Z.abs (row_ts r - ts).

(** Sample runs of the assigner, gap 60 minutes, site GG.
    [out_of_order]: events at T, T+10m and T+5m, inserted in that order.
    [one_event]: a single event at 01:00:00. *)
Definition out_of_order : list insertion :=
  [ sample_insertion "GG" 0 "h1" "u1" 60;
    sample_insertion "GG" 600 "h2" "u2" 60;
    sample_insertion "GG" 300 "h3" "u3" 60 ].

Definition one_event : list insertion :=
  [ sample_insertion "GG" 3600 "h1" "u1" 60 ].

(** Two sessions: [u1] with members at 00:00:00 and 00:50:00, and [u3]
    with a member at 01:51:00. *)
Definition two_sessions : list insertion :=
  [ sample_insertion "GG" 0 "h1" "u1" 60;
    sample_insertion "GG" 3000 "h2" "u2" 60;
    sample_insertion "GG" 6660 "h3" "u3" 60 ].

(* ================================================================= *)
(** ** Further properties of a store *)

(** The start timestamp of the event of an insertion. *)
Definition ins_ts (i : insertion) : Z := tournament_start_ts_local (ins_result i).

(** What later transactions leave of a stored row: every column but the
    index, which does not decrease, the modification timestamp and the
    notes. *)
Definition kept (old new : row) : Prop :=
  result new = result old /\
  source_file_name new = source_file_name old /\
  source_file_hash new = source_file_hash old /\
  session_id new = session_id old /\
  session_start_ts_local new = session_start_ts_local old /\
  imported_at new = imported_at old /\
  session_tournament_index old <= session_tournament_index new.

(** Two rows of one session of one site. *)
Definition same_session (a b : row) : bool :=
  String.eqb (row_site a) (row_site b) &&
  match session_id a, session_id b with
  | Some x, Some y => String.eqb x y
  | _, _ => false
  end.

(** [r'] is of the session of [r] and starts no later than [r]: stored
    after [r], it has taken a place at or before that of [r]. *)
Definition renumbers (r r' : row) : bool :=
  same_session r r' && (row_ts r' <=? row_ts r).

(** [r'] is of the session of [r] and starts earlier than [r]. *)
Definition precedes (r r' : row) : bool :=
  same_session r r' && (row_ts r' <? row_ts r).

(** The import times of the rows of [post] that renumber [r], in the
    order of the table. *)
Definition renumbered_at (r : row) (post : list row) : list Z :=
  map imported_at (filter (renumbers r) post).

(** The last of a list of times, None when there is none. *)
Definition latest (times : list Z) : option Z :=
  fold_left (fun _ t => Some t) times None.

(** The notes of a row renumbered [k] times: NULL when [k] is 0, and
    otherwise [k] marks [index_shifted] joined by [ | ]. *)
Definition note_text (k : nat) : option string :=
  match k with
  | O => None
  | S _ => Some (String.concat " | " (repeat "index_shifted" k))
  end.

(** The audit columns and the index of every row of a table, read off
    the rows stored before it and after it. *)
Definition counted (db : table) : Prop :=
  forall pre r post, db = pre ++ r :: post ->
    notes r = note_text (List.length (renumbered_at r post)) /\
    modified_at r = latest (renumbered_at r post) /\
    session_tournament_index r
    = 1 + Z.of_nat (List.length (filter (precedes r) pre))
        + Z.of_nat (List.length (renumbered_at r post)).

(** Events at T+10m, T+5m and T, inserted in that order: each insertion
    goes to the front of the session. *)
Definition latest_first : list insertion :=
  [ sample_insertion "GG" 600 "h1" "u1" 60;
    sample_insertion "GG" 300 "h2" "u2" 60;
    sample_insertion "GG" 0 "h3" "u3" 60 ].

(** A stored row of a sample insertion. *)
Definition sample_row (st : string) (ts : Z) (h sid : string) (sstart sindex : Z)
    (modified : option Z) (note : option string) : row :=
  {| result := sample_result st ts;
     source_file_name := (h ++ ".txt")%string;
     source_file_hash := h;
     session_id := Some sid;
     session_start_ts_local := Some sstart;
     session_tournament_index := sindex;
     imported_at := ts + 86400;
     modified_at := modified;
     notes := note |}.

(** Every row records as session start what SQL_MIN_SESSION_START gives
    for its session on the table. *)
Definition start_is_earliest (db : table) : Prop :=
  forall r sid, In r db -> session_id r = Some sid ->
    session_start_ts_local r = Sql.SQL_MIN_SESSION_START db (row_site r) sid.

(** Events in chronological order: T, T+5m, T+10m, then one two hours
    later. *)
Definition in_order : list insertion :=
  [ sample_insertion "GG" 0 "h1" "u1" 60;
    sample_insertion "GG" 300 "h2" "u2" 60;
    sample_insertion "GG" 600 "h3" "u3" 60;
    sample_insertion "GG" 7800 "h4" "u4" 60 ].

(** The row that the INSERT of an insertion writes, as far as later
    transactions keep it. *)
Definition stored_from (i : insertion) (r : row) : Prop :=
  result r = ins_result i /\ source_file_name r = ins_file_name i /\
  source_file_hash r = ins_file_hash i /\ imported_at r = ins_now i.

(** The session start recorded on [r] is the start of the earliest event
    stored in [db] for the session of [r]. *)
Definition earliest_of_session (db : table) (r : row) : Prop :=
  exists sid m,
    session_id r = Some sid /\ session_start_ts_local r = Some m /\
    (exists r', In r' db /\ session_id r' = Some sid /\ row_ts r' = m) /\
    forall r', In r' db -> session_id r' = Some sid -> m <= row_ts r'.

(* ================================================================= *)
(** ** Further properties of a run *)

(** The counter of [run] that goes with a status; none goes with
    dry_run. *)
Definition count_status (st : string) (t : tally) : tally :=
  if String.eqb st "inserted" then count_inserted t
  else if String.eqb st "duplicate" then count_duplicate t
  else if String.eqb st "needs_review" then count_needs_review t
  else if String.eqb st "error" then count_error t
  else t.

Definition has_status (st : string) (rec : log_record) : bool :=
  match ev_status (payload rec) with
  | Some s => String.eqb s st
  | None => false
  end.

(** The number of records with a status. *)
Definition records_with (st : string) (recs : list log_record) : Z :=
  Z.of_nat (List.length (filter (has_status st) recs)).

(** The insertion that the transaction of a file performs. *)
Definition insertion_of (cfg : ImportConfig) (amb : ambient) (src : Path)
    (file_hash : string) (parsed : ParsedTournament) : insertion :=
  {| ins_result := parsed; ins_file_name := path_name src;
     ins_file_hash := file_hash; ins_gap_minutes := session_gap_minutes cfg;
     ins_uuid4 := amb_uuid4 amb; ins_now := amb_now amb |}.

(** A log record and a stored row tell of the same file and result. *)
Definition echoes (rec : log_record) (r : row) : Prop :=
  ev_file_name (payload rec) = source_file_name r /\
  ev_file_hash (payload rec) = Some (source_file_hash r) /\
  ev_tournament_id (payload rec) = Some (tournament_id (result r)) /\
  ev_start_time (payload rec) = Some (row_ts r) /\
  ev_buy_in (payload rec) = Some (buy_in_amount (result r)) /\
  ev_payout (payload rec) = Some (payout_amount (result r)).

(** What a run leaves of a file of the listing: its content; its path
    too, unless the file was in the input directory and is in another
    folder now, under a name with the same suffix. *)
Definition same_file (f f' : file) : Prop :=
  f_bytes f' = f_bytes f /\
  (f_path f' = f_path f \/
   (parent (f_path f) = InputDir /\ parent (f_path f') <> InputDir /\
    suffix (f_path f') = suffix (f_path f))).

(** A log record describes a file of the listing: it has the name of the
    file and the hash of its content, and either no result fields or
    those of the record parsed from the content. *)
Definition describes (L : PyLib) (cfg : ImportConfig)
    (files : list file) (src : Path) (rec : log_record) : Prop :=
  exists f,
    lookup files src = Some f /\
    ev_file_name (payload rec) = path_name src /\
    ev_file_hash (payload rec) = Some (sha256 L (f_bytes f)) /\
    ((ev_tournament_id (payload rec) = None /\ ev_start_time (payload rec) = None /\
      ev_buy_in (payload rec) = None /\ ev_payout (payload rec) = None) \/
     exists p r,
       GGSummaryParser.parse L (cfg_site cfg) (decode L (f_bytes f))
       = Returns (Some p, r) /\
       ev_tournament_id (payload rec) = Some (tournament_id p) /\
       ev_start_time (payload rec) = Some (tournament_start_ts_local p) /\
       ev_buy_in (payload rec) = Some (buy_in_amount p) /\
       ev_payout (payload rec) = Some (payout_amount p)).

(** The content hashes of the stored rows. *)
Definition stored_hashes (db : table) : list string := map source_file_hash db.

(** A listing in which the plain name and the first timestamped name are
    taken in the processed folder. *)
Definition name_taken : list file :=
  [ Sample.input_file "a" Sample.doc_1;
    {| f_path := {| parent := ProcessedDir; stem := "a"; suffix := ".txt" |};
       f_bytes := "old"; f_blocked := fun _ => false; f_left := fun _ => None |};
    {| f_path := {| parent := ProcessedDir; stem := "a_20240106_090000";
                    suffix := ".txt" |};
       f_bytes := "older"; f_blocked := fun _ => false; f_left := fun _ => None |} ].

(** The order in which two files are taken: the first has a start time
    whenever the second has one, and it is not the later one. *)
Definition not_after (L : PyLib) (cfg : ImportConfig) (files : list file)
    (a b : Path) : Prop :=
  match pre_parse L cfg files b with
  | Some tb => exists ta, pre_parse L cfg files a = Some ta /\ ta <= tb
  | None => True
  end.

(* ================================================================= *)
(** ** Further properties of the parser *)

(** The reasons that [parse] gives when it returns no record. *)
Definition parse_failures : list string :=
  [ "parse_error:missing_tournament_header";
    "parse_error:missing_buy_in";
    "needs_review:non_cash_buy_in";
    "parse_error:missing_start_time";
    "needs_review:non_cash_payout";
    "parse_error:missing_hero_payout_line" ].

(** The name of a placement line is the hero's: [name.lower() ==
    hero_name.lower()]. *)
Definition names_hero (L : PyLib) (hero : string) (pm : rmatch) : bool :=
  String.eqb (str_lower L (str_strip L (pm "name"))) (str_lower L hero).

(* ================================================================= *)
(** ** db/engine.py *)

(** [os.getenv] after [load_dotenv()]: the value of a key, None when it is
    not set. *)
Definition environ := string -> option string.

(** [not v] for a value of [os.getenv]: None and the empty string. *)
Definition not_v (v : option string) : bool :=
  match v with
  | None => true
  | Some s => String.eqb s EmptyString
  end.

(** [sep.join(l)]. *)
Fixpoint join (sep : string) (l : list string) : string :=
  match l with
  | [] => EmptyString
  | [x] => x
  | x :: rest => (x ++ sep ++ join sep rest)%string
  end.

(** A value of [os.getenv] in an f-string. *)
Definition format_value (v : option string) : string :=
  match v with
  | Some s => s
  | None => "None"
  end.

(** How [build_engine_from_env] ends: it raises RuntimeError with a
    message, or it returns [create_engine(url, future=True,
    pool_pre_ping=True)]. *)
Inductive engine_build :=
| RaisesRuntimeError (message : string)
| CreateEngine (url : string).

(** [build_engine_from_env], to the call of [create_engine]. *)
Definition build_engine_from_env (getenv : environ) : engine_build :=
  let host := getenv "DB_HOST" in
  let port := getenv "DB_PORT" in
  let name := getenv "DB_NAME" in
  let user := getenv "DB_USER" in
  let pwd := getenv "DB_PASSWORD" in
  let missing :=
    map fst (filter (fun kv => not_v (snd kv))
               [ ("DB_HOST", host); ("DB_PORT", port); ("DB_NAME", name);
                 ("DB_USER", user); ("DB_PASSWORD", pwd) ]) in
  match missing with
  | _ :: _ =>
      RaisesRuntimeError ("Missing required .env keys: " ++ join ", " missing)%string
  | [] =>
      CreateEngine ("postgresql+psycopg://" ++ format_value user ++ ":"
                    ++ format_value pwd ++ "@" ++ format_value host ++ ":"
                    ++ format_value port ++ "/" ++ format_value name)%string
  end.

(** The keys that [build_engine_from_env] reads, in the order of its
    dict. *)
Definition env_keys : list string :=
  ["DB_HOST"; "DB_PORT"; "DB_NAME"; "DB_USER"; "DB_PASSWORD"].

(** An environment with host, port, name and user, and the given
    password. *)
Definition sample_env (pwd : option string) : environ :=
  fun k =>
    if String.eqb k "DB_HOST" then Some "localhost"
    else if String.eqb k "DB_PORT" then Some "5432"
    else if String.eqb k "DB_NAME" then Some EmptyString
    else if String.eqb k "DB_USER" then Some "poker"
    else if String.eqb k "DB_PASSWORD" then pwd
    else None.

(* ================================================================= *)
(** ** Sites, and files of one start time *)

(** The row is of the site: [site = :site]. *)
Definition of_site (st : string) (r : row) : bool := String.eqb (row_site r) st.

(** Two sort keys of phase 2 are equal. *)
Definition same_key (k x : option Z) : bool :=
  match k, x with
  | Some a, Some b => a =? b
  | None, None => true
  | _, _ => false
  end.

(* ================================================================= *)
(** ** Facts about the queries *)

Section QueryFacts.

Lemma order_desc_limit_1_none (l : list row) :
  Sql.order_desc_limit_1 l = None -> l = [].
Proof.
  destruct l as [|r l]; simpl; [reflexivity|].
  destruct (Sql.order_desc_limit_1 l) as [b|]; [|discriminate].
  destruct (row_ts r <? row_ts b); discriminate.
Qed.

Lemma order_asc_limit_1_none (l : list row) :
  Sql.order_asc_limit_1 l = None -> l = [].
Proof.
  destruct l as [|r l]; simpl; [reflexivity|].
  destruct (Sql.order_asc_limit_1 l) as [b|]; [|discriminate].
  destruct (row_ts b <? row_ts r); discriminate.
Qed.

(** The row DESC LIMIT 1 returns is in the list and has the greatest key. *)
Lemma order_desc_limit_1_some (l : list row) (r : row) :
  Sql.order_desc_limit_1 l = Some r ->
  In r l /\ forall x, In x l -> row_ts x <= row_ts r.
Proof.
  revert r; induction l as [|a l IH]; simpl; intros r H; [discriminate|].
  destruct (Sql.order_desc_limit_1 l) as [b|] eqn:E.
  - destruct (IH b eq_refl) as [Hin Hmax].
    destruct (Z.ltb_spec (row_ts a) (row_ts b)); inversion H; subst; split; auto.
    + intros x [<-|Hx]; [lia | auto].
    + intros x [<-|Hx]; [lia | specialize (Hmax x Hx); lia].
  - inversion H; subst. apply order_desc_limit_1_none in E; subst.
    split; [now left|]. intros x [<-|[]]; lia.
Qed.

(** The row ASC LIMIT 1 returns is in the list and has the least key. *)
Lemma order_asc_limit_1_some (l : list row) (r : row) :
  Sql.order_asc_limit_1 l = Some r ->
  In r l /\ forall x, In x l -> row_ts r <= row_ts x.
Proof.
  revert r; induction l as [|a l IH]; simpl; intros r H; [discriminate|].
  destruct (Sql.order_asc_limit_1 l) as [b|] eqn:E.
  - destruct (IH b eq_refl) as [Hin Hmin].
    destruct (Z.ltb_spec (row_ts b) (row_ts a)); inversion H; subst; split; auto.
    + intros x [<-|Hx]; [lia | auto].
    + intros x [<-|Hx]; [lia | specialize (Hmin x Hx); lia].
  - inversion H; subst. apply order_asc_limit_1_none in E; subst.
    split; [now left|]. intros x [<-|[]]; lia.
Qed.

Lemma prev_within_gap_iff st ts gap r :
  Sql.prev_within_gap st ts gap r = true <->
  row_site r = st /\ row_ts r <= ts /\ ts - row_ts r <= gap.
Proof.
  unfold Sql.prev_within_gap.
  rewrite !andb_true_iff, String.eqb_eq, !Z.leb_le. tauto.
Qed.

Lemma next_within_gap_iff st ts gap r :
  Sql.next_within_gap st ts gap r = true <->
  row_site r = st /\ ts <= row_ts r /\ row_ts r - ts <= gap.
Proof.
  unfold Sql.next_within_gap.
  rewrite !andb_true_iff, String.eqb_eq, !Z.leb_le. tauto.
Qed.

Lemma session_is_iff sid r :
  Sql.session_is sid r = true <-> session_id r = Some sid.
Proof.
  unfold Sql.session_is. destruct (session_id r) as [s|].
  - rewrite String.eqb_eq. split; congruence.
  - split; discriminate.
Qed.

Lemma in_session_iff st sid r :
  Sql.in_session st sid r = true <-> row_site r = st /\ session_id r = Some sid.
Proof.
  unfold Sql.in_session.
  now rewrite andb_true_iff, String.eqb_eq, session_is_iff.
Qed.

Lemma truthy_session_some r s :
  truthy_session r = Some s -> session_id r = Some s /\ s <> EmptyString.
Proof.
  unfold truthy_session. destruct (session_id r) as [x|]; [|discriminate].
  destruct (String.eqb_spec x EmptyString); [discriminate|].
  intros H; inversion H; subst; auto.
Qed.

End QueryFacts.

(* ================================================================= *)
(** ** Renumbering keeps a session well numbered *)

Section Renumbering.

Lemma in_one_to (v : Z) (n : nat) : In v (one_to n) <-> 1 <= v <= Z.of_nat n.
Proof.
  unfold one_to. rewrite in_map_iff. split.
  - intros (k & <- & Hk). apply in_seq in Hk. lia.
  - intros H. exists (Z.to_nat v). split; [lia|]. apply in_seq. lia.
Qed.

Lemma NoDup_one_to (n : nat) : NoDup (one_to n).
Proof.
  unfold one_to. apply Finite.Injective_map_NoDup.
  - intros a b H. lia.
  - apply seq_NoDup.
Qed.

Lemma length_one_to (n : nat) : List.length (one_to n) = n.
Proof. unfold one_to. now rewrite length_map, length_seq. Qed.

(** Dropping members keeps the indices free of repeats. *)
Lemma NoDup_indices_before (t : Z) (m : list row) :
  NoDup (indices m) -> NoDup (indices (before t m)).
Proof.
  unfold indices, before. induction m as [|r m IH]; simpl; intros Hnd.
  - constructor.
  - apply NoDup_cons_iff in Hnd as [Hnew Hrest].
    destruct (row_ts r <? t); simpl; [|now apply IH].
    apply NoDup_cons; [|now apply IH].
    contradict Hnew. apply in_map_iff in Hnew as (x & Ex & Hx).
    apply filter_In in Hx as [Hx _]. rewrite <- Ex. now apply in_map.
Qed.

Variable l : list row.
Variable ts : Z.
Hypothesis Hcont : contiguous l.
Hypothesis Hord : ordered l.

Let k : Z := Z.of_nat (List.length (before ts l)).

Lemma contiguous_index_range (r : row) :
  In r l -> 1 <= session_tournament_index r <= Z.of_nat (List.length l).
Proof.
  intros Hr. apply in_one_to.
  apply (Permutation_in _ Hcont). unfold indices. now apply in_map.
Qed.

Lemma contiguous_index_taken (v : Z) :
  1 <= v <= Z.of_nat (List.length l) ->
  exists r, In r l /\ session_tournament_index r = v.
Proof.
  intros Hv. apply in_one_to in Hv.
  apply (Permutation_in _ (Permutation_sym Hcont)) in Hv.
  unfold indices in Hv. apply in_map_iff in Hv as (r & Hr & Hin). eauto.
Qed.

Lemma contiguous_NoDup : NoDup (indices l).
Proof.
  apply (Permutation_NoDup (Permutation_sym Hcont)), NoDup_one_to.
Qed.

(** Members strictly before [ts] hold the [k] smallest indices. *)
Lemma index_of_earlier (r : row) :
  In r l -> row_ts r < ts -> session_tournament_index r <= k.
Proof.
  intros Hr Hlt.
  pose proof (contiguous_index_range r Hr) as Hrange.
  set (v := session_tournament_index r) in *.
  assert (Hincl : incl (one_to (Z.to_nat v)) (indices (before ts l))).
  { intros j Hj. apply in_one_to in Hj.
    destruct (contiguous_index_taken j) as (r' & Hr' & Hidx); [lia|].
    unfold indices. apply in_map_iff. exists r'. split; [exact Hidx|].
    apply filter_In. split; [exact Hr'|]. apply Z.ltb_lt.
    destruct (Z.lt_ge_cases (row_ts r') ts) as [|Hge]; [assumption|].
    assert (row_ts r < row_ts r') by lia.
    pose proof (Hord r r' Hr Hr' H). fold v in H0. lia. }
  apply NoDup_incl_length in Hincl; [|apply NoDup_one_to].
  rewrite length_one_to in Hincl. unfold indices in Hincl.
  rewrite length_map in Hincl. unfold k. lia.
Qed.

(** Members at or after [ts] hold the indices above [k]. *)
Lemma index_of_later (r : row) :
  In r l -> ts <= row_ts r -> k < session_tournament_index r.
Proof.
  intros Hr Hge.
  pose proof (contiguous_index_range r Hr) as Hrange.
  set (w := session_tournament_index r) in *.
  assert (Hincl : incl (indices (before ts l)) (one_to (Z.to_nat (w - 1)))).
  { intros x Hx. unfold indices in Hx.
    apply in_map_iff in Hx as (b & Hb & Hin).
    apply filter_In in Hin as [Hbl Hbt]. apply Z.ltb_lt in Hbt.
    pose proof (contiguous_index_range b Hbl).
    assert (row_ts b < row_ts r) by lia.
    pose proof (Hord b r Hbl Hr H0). fold w in H1.
    apply in_one_to. lia. }
  apply NoDup_incl_length in Hincl.
  - rewrite length_one_to in Hincl. unfold indices in Hincl.
    rewrite length_map in Hincl. unfold k. lia.
  - apply NoDup_indices_before, contiguous_NoDup.
Qed.

Variable now : Z.
Variable new : row.
Hypothesis Hnew_ts : row_ts new = ts.
Hypothesis Hnew_index : session_tournament_index new = k + 1.

Lemma shift_index (r : row) :
  In r l ->
  session_tournament_index (shift ts now r) =
  if session_tournament_index r <=? k then session_tournament_index r
  else session_tournament_index r + 1.
Proof.
  intros Hr. unfold shift.
  destruct (Z.leb_spec ts (row_ts r)) as [Hge|Hlt].
  - pose proof (index_of_later r Hr Hge).
    destruct (Z.leb_spec (session_tournament_index r) k); [lia|reflexivity].
  - pose proof (index_of_earlier r Hr Hlt).
    destruct (Z.leb_spec (session_tournament_index r) k); [reflexivity|lia].
Qed.

Lemma shift_ts (r : row) : row_ts (shift ts now r) = row_ts r.
Proof. unfold shift. now destruct (ts <=? row_ts r). Qed.

Lemma k_le_length : k <= Z.of_nat (List.length l).
Proof.
  unfold k, before. pose proof (filter_length_le (fun r => row_ts r <? ts) l). lia.
Qed.

Lemma contiguous_insert : contiguous (map (shift ts now) l ++ [new]).
Proof.
  unfold contiguous. apply Permutation_sym.
  apply NoDup_Permutation_bis.
  - apply NoDup_one_to.
  - unfold indices. rewrite length_one_to, length_map. lia.
  - intros v Hv. apply in_one_to in Hv.
    rewrite length_app, length_map in Hv. simpl in Hv.
    unfold indices. rewrite map_app. apply in_or_app.
    pose proof k_le_length as Hk.
    destruct (Z.eq_dec v (k + 1)) as [->|Hne].
    + right. simpl. left. exact Hnew_index.
    + left. rewrite map_map. apply in_map_iff.
      destruct (Z.lt_ge_cases v (k + 1)) as [Hlo|Hhi].
      * destruct (contiguous_index_taken v) as (r & Hr & Hidx); [lia|].
        exists r. split; [|exact Hr]. rewrite shift_index by exact Hr.
        rewrite Hidx. destruct (Z.leb_spec v k); lia.
      * destruct (contiguous_index_taken (v - 1)) as (r & Hr & Hidx); [lia|].
        exists r. split; [|exact Hr]. rewrite shift_index by exact Hr.
        rewrite Hidx. destruct (Z.leb_spec (v - 1) k); lia.
Qed.

Lemma ordered_insert : ordered (map (shift ts now) l ++ [new]).
Proof.
  intros a b Ha Hb Hlt.
  apply in_app_or in Ha. apply in_app_or in Hb.
  destruct Ha as [Ha|[<-|[]]], Hb as [Hb|[<-|[]]].
  - apply in_map_iff in Ha as (a0 & <- & Ha0).
    apply in_map_iff in Hb as (b0 & <- & Hb0).
    rewrite !shift_ts in Hlt. pose proof (Hord a0 b0 Ha0 Hb0 Hlt) as Hi.
    rewrite !shift_index by assumption.
    destruct (Z.leb_spec (session_tournament_index a0) k);
      destruct (Z.leb_spec (session_tournament_index b0) k); lia.
  - apply in_map_iff in Ha as (a0 & <- & Ha0).
    rewrite shift_ts in Hlt. rewrite Hnew_ts in Hlt.
    rewrite shift_index by assumption. rewrite Hnew_index.
    pose proof (index_of_earlier a0 Ha0 Hlt).
    destruct (Z.leb_spec (session_tournament_index a0) k); lia.
  - apply in_map_iff in Hb as (b0 & <- & Hb0).
    rewrite shift_ts in Hlt. rewrite Hnew_ts in Hlt.
    rewrite shift_index by assumption. rewrite Hnew_index.
    assert (Hge : ts <= row_ts b0) by lia.
    pose proof (index_of_later b0 Hb0 Hge).
    destruct (Z.leb_spec (session_tournament_index b0) k); lia.
  - lia.
Qed.

Lemma well_numbered_insert : well_numbered (map (shift ts now) l ++ [new]).
Proof. split; [apply contiguous_insert | apply ordered_insert]. Qed.

End Renumbering.

(* ================================================================= *)
(** ** The session assigner on a store *)

Section Assigner.

Lemma filter_map_stable {A : Type} (p : A -> bool) (f : A -> A) (l : list A) :
  (forall x, p (f x) = p x) -> filter p (map f l) = map f (filter p l).
Proof.
  intros H. rewrite filter_map_swap. f_equal. apply filter_ext. exact H.
Qed.

Lemma filter_twice {A : Type} (p q : A -> bool) (l : list A) :
  filter p (filter q l) = filter (fun x => q x && p x) l.
Proof.
  induction l as [|a l IH]; simpl; [reflexivity|].
  destruct (q a); simpl; [destruct (p a)|]; now rewrite IH.
Qed.

(** The session lookup returns the session of a stored row of the site
    that satisfies one of the two WHERE clauses. *)
Lemma find_existing_some db st ts gap_minutes sid start :
  find_existing_session_within_gap db st ts gap_minutes = (Some sid, start) ->
  exists r, In r db /\ row_site r = st /\ session_id r = Some sid /\
            sid <> EmptyString /\ session_start_ts_local r = start /\
            (Sql.prev_within_gap st ts (timedelta_minutes gap_minutes) r = true \/
             Sql.next_within_gap st ts (timedelta_minutes gap_minutes) r = true).
Proof.
  unfold find_existing_session_within_gap, Sql.SQL_PREV_WITHIN_GAP,
    Sql.SQL_NEXT_WITHIN_GAP.
  set (gap := timedelta_minutes gap_minutes).
  destruct (Sql.order_desc_limit_1 (filter (Sql.prev_within_gap st ts gap) db))
    as [p|] eqn:Ep.
  - destruct (truthy_session p) as [s|] eqn:Tp.
    + intros H; inversion H; subst.
      apply order_desc_limit_1_some in Ep as [Hin _].
      apply filter_In in Hin as [Hin Hq].
      apply truthy_session_some in Tp as [Hs Hne].
      exists p. pose proof (proj1 (prev_within_gap_iff _ _ _ _) Hq). tauto.
    + destruct (Sql.order_asc_limit_1 (filter (Sql.next_within_gap st ts gap) db))
        as [n|] eqn:En; [|discriminate].
      destruct (truthy_session n) as [s|] eqn:Tn; [|discriminate].
      intros H; inversion H; subst.
      apply order_asc_limit_1_some in En as [Hin _].
      apply filter_In in Hin as [Hin Hq].
      apply truthy_session_some in Tn as [Hs Hne].
      exists n. pose proof (proj1 (next_within_gap_iff _ _ _ _) Hq). tauto.
  - destruct (Sql.order_asc_limit_1 (filter (Sql.next_within_gap st ts gap) db))
      as [n|] eqn:En; [|discriminate].
    destruct (truthy_session n) as [s|] eqn:Tn; [|discriminate].
    intros H; inversion H; subst.
    apply order_asc_limit_1_some in En as [Hin _].
    apply filter_In in Hin as [Hin Hq].
    apply truthy_session_some in Tn as [Hs Hne].
    exists n. pose proof (proj1 (next_within_gap_iff _ _ _ _) Hq). tauto.
Qed.

Lemma ensure_when_none db st ts gap_minutes uuid4 now start :
  find_existing_session_within_gap db st ts gap_minutes = (None, start) ->
  ensure_session_and_index db st ts gap_minutes uuid4 now
  = ((uuid4, Some ts, 1), db).
Proof. unfold ensure_session_and_index. now intros ->. Qed.

Lemma ensure_when_some db st ts gap_minutes uuid4 now sid start :
  find_existing_session_within_gap db st ts gap_minutes = (Some sid, start) ->
  ensure_session_and_index db st ts gap_minutes uuid4 now
  = ((sid,
      match Sql.SQL_MIN_SESSION_START
              (Sql.SQL_BUMP_INDICES_AT_OR_AFTER_TS db st sid ts now) st sid with
      | Some m => Some m
      | None => start
      end,
      Sql.SQL_COUNT_BEFORE_IN_SESSION db st sid ts + 1),
     Sql.SQL_BUMP_INDICES_AT_OR_AFTER_TS db st sid ts now).
Proof. unfold ensure_session_and_index. now intros ->. Qed.

(** In a store with one site per session, the site filter of the queries
    is implied by the session filter. *)
Lemma in_session_members db st sid r0 :
  one_site_per_session db ->
  In r0 db -> row_site r0 = st -> session_id r0 = Some sid ->
  forall r, In r db -> Sql.in_session st sid r = Sql.session_is sid r.
Proof.
  intros H1 Hr0 Hst Hsid r Hr. unfold Sql.in_session.
  destruct (Sql.session_is sid r) eqn:E; [|apply andb_false_r].
  apply session_is_iff in E. rewrite andb_true_r. apply String.eqb_eq.
  rewrite <- Hst. apply H1; congruence.
Qed.

Lemma count_before_members db st sid r0 ts :
  one_site_per_session db ->
  In r0 db -> row_site r0 = st -> session_id r0 = Some sid ->
  Sql.SQL_COUNT_BEFORE_IN_SESSION db st sid ts
  = Z.of_nat (List.length (before ts (members db sid))).
Proof.
  intros H1 Hr0 Hst Hsid. unfold Sql.SQL_COUNT_BEFORE_IN_SESSION, before, members.
  do 2 f_equal. rewrite filter_twice. apply filter_ext_in. intros r Hr.
  now rewrite (in_session_members db st sid r0) by assumption.
Qed.

Lemma members_bump_same db st sid r0 ts now :
  one_site_per_session db ->
  In r0 db -> row_site r0 = st -> session_id r0 = Some sid ->
  members (Sql.SQL_BUMP_INDICES_AT_OR_AFTER_TS db st sid ts now) sid
  = map (shift ts now) (members db sid).
Proof.
  intros H1 Hr0 Hst Hsid. unfold members, Sql.SQL_BUMP_INDICES_AT_OR_AFTER_TS.
  rewrite filter_map_stable.
  - apply map_ext_in. intros r Hr. apply filter_In in Hr as [Hr Hs].
    rewrite (in_session_members db st sid r0) by assumption.
    rewrite Hs. reflexivity.
  - intros r. destruct (Sql.in_session st sid r && (ts <=? row_ts r)); reflexivity.
Qed.

Lemma members_bump_other db st sid sid' ts now :
  sid' <> sid ->
  members (Sql.SQL_BUMP_INDICES_AT_OR_AFTER_TS db st sid ts now) sid'
  = members db sid'.
Proof.
  intros Hne. unfold members, Sql.SQL_BUMP_INDICES_AT_OR_AFTER_TS.
  rewrite filter_map_stable.
  - rewrite <- (map_id (filter (Sql.session_is sid') db)) at 2.
    apply map_ext_in. intros r Hr. apply filter_In in Hr as [Hr Hs].
    apply session_is_iff in Hs.
    destruct (Sql.in_session st sid r) eqn:E; [|reflexivity].
    apply in_session_iff in E as [_ E]. congruence.
  - intros r. destruct (Sql.in_session st sid r && (ts <=? row_ts r)); reflexivity.
Qed.

Lemma in_bumped db st sid ts now r' :
  In r' (Sql.SQL_BUMP_INDICES_AT_OR_AFTER_TS db st sid ts now) ->
  exists r, In r db /\ session_id r' = session_id r /\ row_site r' = row_site r
            /\ row_ts r' = row_ts r.
Proof.
  unfold Sql.SQL_BUMP_INDICES_AT_OR_AFTER_TS. intros H.
  apply in_map_iff in H as (r & <- & Hr). exists r. split; [exact Hr|].
  destruct (Sql.in_session st sid r && (ts <=? row_ts r)); auto.
Qed.

End Assigner.

(* ================================================================= *)
(** ** The store invariant along a sequence of insertions *)

Section StoreInvariant.

Lemma store_ok_nil : store_ok [] [].
Proof.
  split; [|split].
  - intros r [].
  - intros a b [].
  - intros sid. split.
    + apply Permutation_refl.
    + intros a b [].
Qed.

Lemma store_ok_more used more db :
  store_ok used db -> store_ok (used ++ more) db.
Proof.
  intros (Hids & Hsite & Hnum). split; [|split]; auto.
  intros r Hr. destruct (Hids r Hr) as (s & Hs & Hin).
  exists s. split; [exact Hs|]. apply in_or_app. now left.
Qed.

Lemma members_app db new sid :
  members (db ++ [new]) sid
  = members db sid ++ (if Sql.session_is sid new then [new] else []).
Proof. unfold members. rewrite filter_app. reflexivity. Qed.

Lemma members_nil_unused used db u :
  ids_from used db -> ~ In u used -> members db u = [].
Proof.
  intros Hids Hu. unfold members.
  destruct (filter (Sql.session_is u) db) as [|r l] eqn:E; [reflexivity|].
  assert (Hr : In r (filter (Sql.session_is u) db)) by (rewrite E; now left).
  apply filter_In in Hr as [Hr Hs]. apply session_is_iff in Hs.
  destruct (Hids r Hr) as (s & Hs' & Hin). congruence.
Qed.

(** A new single-member session. *)
Lemma store_ok_fresh used db new u :
  store_ok used db -> ~ In u used ->
  session_id new = Some u -> session_tournament_index new = 1 ->
  store_ok (used ++ [u]) (db ++ [new]).
Proof.
  intros (Hids & Hsite & Hnum) Hu Hsid Hidx. split; [|split].
  - intros r Hr. apply in_app_or in Hr as [Hr|[<-|[]]].
    + destruct (Hids r Hr) as (s & Hs & Hin). exists s. split; auto.
      apply in_or_app. now left.
    + exists u. split; auto. apply in_or_app. right. now left.
  - intros a b Ha Hb Hab.
    apply in_app_or in Ha as [Ha|[<-|[]]]; apply in_app_or in Hb as [Hb|[<-|[]]]; auto.
    + destruct (Hids a Ha) as (s & Hs & Hin). congruence.
    + destruct (Hids b Hb) as (s & Hs & Hin). congruence.
  - intros sid. rewrite members_app.
    destruct (Sql.session_is sid new) eqn:E.
    + apply session_is_iff in E. assert (sid = u) by congruence. subst sid.
      rewrite (members_nil_unused used db u) by assumption. simpl. split.
      * unfold contiguous, indices, one_to. simpl. rewrite Hidx. apply Permutation_refl.
      * intros a b [<-|[]] [<-|[]]. lia.
    + rewrite app_nil_r. apply Hnum.
Qed.

(** A new member of the session of [r0], after the UPDATE. *)
Lemma store_ok_join used db st sid r0 ts now new :
  store_ok used db ->
  In r0 db -> row_site r0 = st -> session_id r0 = Some sid ->
  row_site new = st -> session_id new = Some sid -> row_ts new = ts ->
  session_tournament_index new = Sql.SQL_COUNT_BEFORE_IN_SESSION db st sid ts + 1 ->
  store_ok used (Sql.SQL_BUMP_INDICES_AT_OR_AFTER_TS db st sid ts now ++ [new]).
Proof.
  intros (Hids & Hsite & Hnum) Hr0 Hst Hsid Hnst Hnsid Hnts Hnidx.
  split; [|split].
  - intros r Hr. apply in_app_or in Hr as [Hr|[<-|[]]].
    + apply in_bumped in Hr as (r1 & Hr1 & -> & _). auto.
    + rewrite Hnsid, <- Hsid. auto.
  - assert (Hold : forall a, In a (Sql.SQL_BUMP_INDICES_AT_OR_AFTER_TS db st sid ts now) ->
                   session_id a = Some sid -> row_site a = st).
    { intros a Ha Hs. apply in_bumped in Ha as (a1 & Ha1 & E1 & -> & _).
      rewrite <- Hst. apply Hsite; congruence. }
    intros a b Ha Hb Hab.
    apply in_app_or in Ha as [Ha|[<-|[]]]; apply in_app_or in Hb as [Hb|[<-|[]]].
    + apply in_bumped in Ha as (a1 & Ha1 & Ea & -> & _).
      apply in_bumped in Hb as (b1 & Hb1 & Eb & -> & _).
      apply Hsite; congruence.
    + rewrite Hnst. apply Hold; congruence.
    + rewrite Hnst. symmetry. apply Hold; congruence.
    + reflexivity.
  - intros sid'. rewrite members_app.
    destruct (Sql.session_is sid' new) eqn:E.
    + apply session_is_iff in E. assert (sid' = sid) by congruence. subst sid'.
      rewrite (members_bump_same db st sid r0) by assumption.
      destruct (Hnum sid) as [Hc Ho].
      apply well_numbered_insert; auto.
      rewrite Hnidx. now rewrite (count_before_members db st sid r0).
    + rewrite app_nil_r.
      assert (sid' <> sid).
      { intros ->. rewrite (proj2 (session_is_iff sid new) Hnsid) in E. discriminate. }
      rewrite members_bump_other by assumption. apply Hnum.
Qed.

(** One transaction keeps the store well formed, provided the UUID drawn
    for it has not been drawn before. *)
Lemma run_insertion_store_ok used db i :
  store_ok used db -> ~ In (ins_uuid4 i) used ->
  store_ok (used ++ [ins_uuid4 i]) (run_insertion db i).
Proof.
  intros Hok Hu. unfold run_insertion, assign_and_insert.
  destruct (find_existing_session_within_gap db (site (ins_result i))
              (tournament_start_ts_local (ins_result i)) (ins_gap_minutes i))
    as [[sid|] start] eqn:F.
  - rewrite (ensure_when_some _ _ _ _ _ _ _ _ F).
    unfold Sql.SQL_INSERT_TOURNAMENT.
    destruct (Sql.SQL_HASH_EXISTS _ _); [now apply store_ok_more|].
    apply store_ok_more.
    apply find_existing_some in F as (r0 & Hr0 & Hst & Hsid & _).
    eapply store_ok_join; eauto.
  - rewrite (ensure_when_none _ _ _ _ _ _ _ F).
    unfold Sql.SQL_INSERT_TOURNAMENT.
    destruct (Sql.SQL_HASH_EXISTS _ _); [now apply store_ok_more|].
    now apply store_ok_fresh.
Qed.

Lemma fold_insertions_store_ok l : forall used db,
  store_ok used db -> NoDup (used ++ map ins_uuid4 l) ->
  store_ok (used ++ map ins_uuid4 l) (fold_left run_insertion l db).
Proof.
  induction l as [|i l IH]; intros used db Hok Hnd; simpl.
  - now rewrite app_nil_r.
  - simpl in Hnd.
    replace (used ++ ins_uuid4 i :: map ins_uuid4 l)
      with ((used ++ [ins_uuid4 i]) ++ map ins_uuid4 l) in *
      by (now rewrite <- app_assoc).
    apply IH; [|exact Hnd].
    apply run_insertion_store_ok; [exact Hok|].
    rewrite <- app_assoc in Hnd. apply NoDup_remove_2 in Hnd.
    intros Hin. apply Hnd. apply in_or_app. now left.
Qed.

Lemma replay_store_ok l :
  NoDup (map ins_uuid4 l) -> store_ok (map ins_uuid4 l) (replay l).
Proof.
  intros Hnd. apply (fold_insertions_store_ok l [] []); [apply store_ok_nil|exact Hnd].
Qed.

End StoreInvariant.

(* ================================================================= *)
(** ** Session lookup *)

Section Lookup.

Lemma has_session_truthy r :
  has_session r = true -> truthy_session r = session_id r /\ session_id r <> None.
Proof.
  unfold has_session. destruct (truthy_session r) as [s|] eqn:E; [|discriminate].
  intros _. apply truthy_session_some in E as [E _]. rewrite E. split; congruence.
Qed.

Lemma find_existing_prev db st ts gap_minutes p :
  Sql.SQL_PREV_WITHIN_GAP db st ts (timedelta_minutes gap_minutes) = Some p ->
  has_session p = true ->
  find_existing_session_within_gap db st ts gap_minutes
  = (session_id p, session_start_ts_local p).
Proof.
  intros E H. unfold find_existing_session_within_gap. rewrite E.
  destruct (has_session_truthy p H) as [-> Hne].
  destruct (session_id p); [reflexivity|congruence].
Qed.

Lemma find_existing_next db st ts gap_minutes n :
  Sql.SQL_PREV_WITHIN_GAP db st ts (timedelta_minutes gap_minutes) = None ->
  Sql.SQL_NEXT_WITHIN_GAP db st ts (timedelta_minutes gap_minutes) = Some n ->
  has_session n = true ->
  find_existing_session_within_gap db st ts gap_minutes
  = (session_id n, session_start_ts_local n).
Proof.
  intros Ep En H. unfold find_existing_session_within_gap. rewrite Ep, En.
  destruct (has_session_truthy n H) as [-> Hne].
  destruct (session_id n); [reflexivity|congruence].
Qed.

Lemma find_existing_none db st ts gap_minutes :
  Sql.SQL_PREV_WITHIN_GAP db st ts (timedelta_minutes gap_minutes) = None ->
  Sql.SQL_NEXT_WITHIN_GAP db st ts (timedelta_minutes gap_minutes) = None ->
  find_existing_session_within_gap db st ts gap_minutes = (None, None).
Proof.
  intros Ep En. unfold find_existing_session_within_gap. now rewrite Ep, En.
Qed.

Lemma filter_nil_iff {A : Type} (p : A -> bool) (l : list A) :
  filter p l = [] <-> forall x, In x l -> p x = false.
Proof.
  induction l as [|a l IH]; simpl.
  - split; [intros _ x []|reflexivity].
  - destruct (p a) eqn:E; split.
    + discriminate.
    + intros H. specialize (H a (or_introl eq_refl)). congruence.
    + intros H x [<-|Hx]; [exact E|]. now apply IH.
    + intros H. apply IH. intros x Hx. apply H. now right.
Qed.

Lemma prev_none_iff db st ts gap :
  Sql.SQL_PREV_WITHIN_GAP db st ts gap = None <->
  forall r, In r db -> Sql.prev_within_gap st ts gap r = false.
Proof.
  unfold Sql.SQL_PREV_WITHIN_GAP. rewrite <- filter_nil_iff. split.
  - apply order_desc_limit_1_none.
  - now intros ->.
Qed.

Lemma next_none_iff db st ts gap :
  Sql.SQL_NEXT_WITHIN_GAP db st ts gap = None <->
  forall r, In r db -> Sql.next_within_gap st ts gap r = false.
Proof.
  unfold Sql.SQL_NEXT_WITHIN_GAP. rewrite <- filter_nil_iff. split.
  - apply order_asc_limit_1_none.
  - now intros ->.
Qed.

(** An event farther than the gap from every row of its site has no
    neighbour on either side. *)
Lemma far_from_all_none db st ts gap_minutes :
  (forall r, In r db -> row_site r = st ->
             timedelta_minutes gap_minutes < distance r ts) ->
  find_existing_session_within_gap db st ts gap_minutes = (None, None).
Proof.
  intros Hfar. apply find_existing_none.
  - apply prev_none_iff. intros r Hr.
    destruct (Sql.prev_within_gap st ts _ r) eqn:E; [|reflexivity].
    apply prev_within_gap_iff in E as (Hs & H1 & H2).
    specialize (Hfar r Hr Hs). unfold distance in Hfar. lia.
  - apply next_none_iff. intros r Hr.
    destruct (Sql.next_within_gap st ts _ r) eqn:E; [|reflexivity].
    apply next_within_gap_iff in E as (Hs & H1 & H2).
    specialize (Hfar r Hr Hs). unfold distance in Hfar. lia.
Qed.

End Lookup.

(* ================================================================= *)
(** ** The session start returned *)

Section SessionStart.

Lemma min_ts_map (f : row -> row) (l : list row) :
  (forall r, row_ts (f r) = row_ts r) -> Sql.min_ts (map f l) = Sql.min_ts l.
Proof.
  intros H. induction l as [|r l IH]; simpl; [reflexivity|].
  now rewrite IH, H.
Qed.

Lemma min_ts_least (l : list row) (m : Z) :
  Sql.min_ts l = Some m ->
  (exists r, In r l /\ row_ts r = m) /\ forall r, In r l -> m <= row_ts r.
Proof.
  revert m. induction l as [|a l IH]; simpl; intros m H; [discriminate|].
  destruct (Sql.min_ts l) as [m'|] eqn:E.
  - inversion H; subst. destruct (IH m' eq_refl) as ((r & Hr & Er) & Hle). split.
    + destruct (Z.min_spec (row_ts a) m') as [[_ ->]|[_ ->]]; eauto.
    + intros x [<-|Hx]; [lia|]. specialize (Hle x Hx). lia.
  - inversion H; subst. destruct l as [|b l]; [|simpl in E; destruct (Sql.min_ts l); discriminate].
    split; [eauto|]. intros x [<-|[]]. lia.
Qed.

(** The start that [ensure_session_and_index] returns for an event that
    joins a session is the earliest start among the members stored before
    the call; the event itself is not counted. *)
Lemma ensure_start_is_stored_minimum db st ts gap_minutes uuid4 now sid start :
  find_existing_session_within_gap db st ts gap_minutes = (Some sid, start) ->
  exists m,
    snd (fst (fst (ensure_session_and_index db st ts gap_minutes uuid4 now))) = Some m /\
    Sql.SQL_MIN_SESSION_START db st sid = Some m /\
    forall r, In r db -> Sql.in_session st sid r = true -> m <= row_ts r.
Proof.
  intros F. rewrite (ensure_when_some _ _ _ _ _ _ _ _ F). cbn [fst snd].
  assert (E : Sql.SQL_MIN_SESSION_START
                (Sql.SQL_BUMP_INDICES_AT_OR_AFTER_TS db st sid ts now) st sid
              = Sql.SQL_MIN_SESSION_START db st sid).
  { unfold Sql.SQL_MIN_SESSION_START, Sql.SQL_BUMP_INDICES_AT_OR_AFTER_TS.
    rewrite filter_map_stable.
    - apply min_ts_map. intros r.
      now destruct (Sql.in_session st sid r && (ts <=? row_ts r)).
    - intros r. now destruct (Sql.in_session st sid r && (ts <=? row_ts r)). }
  rewrite E.
  apply find_existing_some in F as (r0 & Hr0 & Hst & Hsid & _).
  destruct (Sql.SQL_MIN_SESSION_START db st sid) as [m|] eqn:M.
  - exists m. split; [reflexivity|]. split; [reflexivity|].
    intros r Hr Hs. apply (proj2 (min_ts_least _ _ M)). apply filter_In. now split.
  - exfalso. unfold Sql.SQL_MIN_SESSION_START in M.
    assert (Hin : In r0 (filter (Sql.in_session st sid) db)).
    { apply filter_In. split; [exact Hr0|]. now apply in_session_iff. }
    destruct (filter (Sql.in_session st sid) db) as [|a l]; [destruct Hin|].
    simpl in M. destruct (Sql.min_ts l); discriminate.
Qed.

End SessionStart.

(* ================================================================= *)
(** ** Properties of the session assigner *)

Section AssignerProperties.

Lemma NoDup_snoc_fresh {A : Type} (l : list A) (x : A) :
  NoDup (l ++ [x]) -> NoDup l /\ ~ In x l.
Proof.
  intros H. split.
  - now apply NoDup_app_remove_r in H.
  - rewrite <- (app_nil_r l). apply (NoDup_remove_2 l [] x). exact H.
Qed.

Lemma ensure_join_facts used db st ts gap_minutes uuid4 now sid start :
  store_ok used db ->
  find_existing_session_within_gap db st ts gap_minutes = (Some sid, start) ->
  let out := ensure_session_and_index db st ts gap_minutes uuid4 now in
  fst (fst (fst out)) = sid /\
  snd (fst out) = 1 + Z.of_nat (List.length (before ts (members db sid))) /\
  members (snd out) sid = map (shift ts now) (members db sid) /\
  forall m, In m (members db sid) -> ts <= row_ts m ->
    session_tournament_index (shift ts now m) = session_tournament_index m + 1 /\
    snd (fst out) < session_tournament_index (shift ts now m).
Proof.
  intros (Hids & Hsite & Hnum) F. cbv zeta.
  rewrite (ensure_when_some _ _ _ _ _ _ _ _ F). cbn [fst snd].
  apply find_existing_some in F as (r0 & Hr0 & Hst & Hsid & _).
  rewrite (count_before_members db st sid r0) by assumption.
  rewrite (members_bump_same db st sid r0) by assumption.
  split; [reflexivity|]. split; [lia|]. split; [reflexivity|].
  intros m Hm Hge. destruct (Hnum sid) as [Hc Ho].
  pose proof (index_of_later _ ts Hc Ho m Hm Hge).
  unfold shift. destruct (Z.leb_spec ts (row_ts m)); simpl; lia.
Qed.

End AssignerProperties.

(** C1. After any sequence of calls of [ensure_session_and_index], each
    followed by its insert (committed, or rolled back when the INSERT
    raises), and whatever the order of the timestamps, the ordinal indices
    of the members of every session are exactly 1..N for N members,
    without repeats, and a member with an earlier start has a smaller
    index.  The UUIDs drawn are pairwise distinct. *)
Theorem session_indices_contiguous (l : list insertion) (sid : string) :
  NoDup (map ins_uuid4 l) ->
  Permutation (indices (members (replay l) sid))
              (one_to (List.length (members (replay l) sid))) /\
  NoDup (indices (members (replay l) sid)) /\
  ordered (members (replay l) sid).
Proof.
  intros Hnd. destruct (replay_store_ok l Hnd) as (_ & _ & Hnum).
  destruct (Hnum sid) as [Hc Ho]. repeat split; auto.
  now apply contiguous_NoDup.
Qed.

Lemma session_indices_contiguous_witness :
  NoDup (map ins_uuid4 out_of_order) /\
  (Permutation (indices (members (replay out_of_order) "u1"))
               (one_to (List.length (members (replay out_of_order) "u1"))) /\
   NoDup (indices (members (replay out_of_order) "u1")) /\
   ordered (members (replay out_of_order) "u1")).
Proof.
  assert (H : NoDup (map ins_uuid4 out_of_order)).
  { simpl. repeat constructor; simpl; intuition discriminate. }
  split; [exact H | exact (session_indices_contiguous out_of_order "u1" H)].
Defined.

(** The scenario of the spec: T, T+10m, T+5m end with indices 1, 3, 2. *)
Example out_of_order_indices :
  map (fun r => (row_ts r, session_id r, session_tournament_index r))
      (replay out_of_order)
  = [(0, Some "u1", 1); (600, Some "u1", 3); (300, Some "u1", 2)].
Proof. reflexivity. Qed.

(** C2 (the code at the failing input).  A session holds one member at
    01:00:00.  An event at 00:30:00 joins it through the successor query;
    the start returned, and stored with the new row, is 01:00:00, while
    the earliest member of the session is then the new event. *)
Theorem session_start_misses_earlier_event :
  let db := replay one_event in
  let out := ensure_session_and_index db "GG" 1800 60 "u2" 90000 in
  let db' := run_insertion db (sample_insertion "GG" 1800 "h2" "u2" 60) in
  fst out = ("u1", Some 3600, 1) /\
  map (fun r => (row_ts r, session_id r, session_start_ts_local r)) db'
  = [(3600, Some "u1", Some 3600); (1800, Some "u1", Some 3600)] /\
  Sql.SQL_MIN_SESSION_START db' "GG" "u1" = Some 1800.
Proof. repeat split. Qed.

(** C3 as stated fails: a member at 00:00:00 has index 1; an event with
    the same timestamp joins and receives index 1, and the member it is
    equal to is moved to index 2. *)
Lemma equal_timestamp_goes_first :
  let db := replay [sample_insertion "GG" 0 "h1" "u1" 60] in
  let out := ensure_session_and_index db "GG" 0 60 "u2" 90000 in
  fst (fst (fst out)) = "u1" /\ snd (fst out) = 1 /\
  exists m, In m (members (snd out) "u1") /\ row_ts m = 0 /\
            ~ (session_tournament_index m < snd (fst out)).
Proof.
  cbv zeta. split; [reflexivity|]. split; [reflexivity|].
  eexists. split; [left; reflexivity|]. split; [reflexivity|].
  vm_compute. discriminate.
Qed.

(** C3, amended.  An event that joins an existing session receives one
    plus the number of members strictly before its timestamp; every
    member at or after that timestamp, those with an equal timestamp
    included, is moved up by one and ends above the new event. *)
Theorem joining_event_index (l : list insertion) (st : string)
    (ts gap_minutes : Z) (uuid4 : string) (now : Z) (sid : string)
    (start : option Z) :
  NoDup (map ins_uuid4 l) ->
  find_existing_session_within_gap (replay l) st ts gap_minutes = (Some sid, start) ->
  let out := ensure_session_and_index (replay l) st ts gap_minutes uuid4 now in
  fst (fst (fst out)) = sid /\
  snd (fst out) = 1 + Z.of_nat (List.length (before ts (members (replay l) sid))) /\
  members (snd out) sid = map (shift ts now) (members (replay l) sid) /\
  forall m, In m (members (replay l) sid) -> ts <= row_ts m ->
    session_tournament_index (shift ts now m) = session_tournament_index m + 1 /\
    snd (fst out) < session_tournament_index (shift ts now m).
Proof.
  intros Hnd F.
  exact (ensure_join_facts _ _ st ts gap_minutes uuid4 now sid start
           (replay_store_ok l Hnd) F).
Qed.

Lemma joining_event_index_witness :
  NoDup (map ins_uuid4 out_of_order) /\
  find_existing_session_within_gap (replay out_of_order) "GG" 300 60
  = (Some "u1", Some 0) /\
  (let out := ensure_session_and_index (replay out_of_order) "GG" 300 60 "u4" 90000 in
   fst (fst (fst out)) = "u1" /\
   snd (fst out)
   = 1 + Z.of_nat (List.length (before 300 (members (replay out_of_order) "u1"))) /\
   members (snd out) "u1"
   = map (shift 300 90000) (members (replay out_of_order) "u1") /\
   forall m, In m (members (replay out_of_order) "u1") -> 300 <= row_ts m ->
     session_tournament_index (shift 300 90000 m) = session_tournament_index m + 1 /\
     snd (fst out) < session_tournament_index (shift 300 90000 m)).
Proof.
  assert (H : NoDup (map ins_uuid4 out_of_order)).
  { simpl. repeat constructor; simpl; intuition discriminate. }
  split; [exact H|]. split; [reflexivity|].
  exact (joining_event_index out_of_order "GG" 300 60 "u4" 90000 "u1" (Some 0)
           H eq_refl).
Defined.

(** C7. An event farther than the gap from every stored member of its
    site, on both sides, gets the UUID minted for it, which no stored row
    carries, its own timestamp as session start, and index 1.  With a gap
    of 0 a row qualifies as a neighbour exactly when it has the site and
    the timestamp of the event, and a session is found only through such
    a row. *)
Theorem far_event_starts_new_session (l : list insertion) (st : string)
    (ts gap_minutes : Z) (uuid4 : string) (now : Z) :
  NoDup (map ins_uuid4 l ++ [uuid4]) ->
  (forall r, In r (replay l) -> row_site r = st ->
             timedelta_minutes gap_minutes < distance r ts) ->
  ensure_session_and_index (replay l) st ts gap_minutes uuid4 now
  = ((uuid4, Some ts, 1), replay l) /\
  (forall r, In r (replay l) -> session_id r <> Some uuid4) /\
  (forall r, Sql.prev_within_gap st ts (timedelta_minutes 0) r
             || Sql.next_within_gap st ts (timedelta_minutes 0) r
             = String.eqb (row_site r) st && (row_ts r =? ts)) /\
  (forall db sid start,
      find_existing_session_within_gap db st ts 0 = (Some sid, start) ->
      exists r, In r db /\ row_site r = st /\ row_ts r = ts /\
                session_id r = Some sid).
Proof.
  intros Hnd Hfar. apply NoDup_snoc_fresh in Hnd as [Hnd Hfresh].
  split; [|split; [|split]].
  - apply (ensure_when_none _ _ _ _ _ _ None). now apply far_from_all_none.
  - intros r Hr Hs. destruct (replay_store_ok l Hnd) as (Hids & _).
    destruct (Hids r Hr) as (s & Hs' & Hin). congruence.
  - intros r. unfold Sql.prev_within_gap, Sql.next_within_gap, timedelta_minutes.
    destruct (String.eqb (row_site r) st); simpl; [|reflexivity].
    destruct (Z.leb_spec (row_ts r) ts), (Z.leb_spec ts (row_ts r)),
      (Z.leb_spec (ts - row_ts r) 0), (Z.leb_spec (row_ts r - ts) 0),
      (Z.eqb_spec (row_ts r) ts); simpl; try reflexivity; lia.
  - intros db sid start F.
    apply find_existing_some in F as (r & Hr & Hst & Hsid & _ & _ & Hq).
    exists r. repeat split; auto.
    destruct Hq as [Hq|Hq].
    + apply prev_within_gap_iff in Hq. unfold timedelta_minutes in Hq. lia.
    + apply next_within_gap_iff in Hq. unfold timedelta_minutes in Hq. lia.
Qed.

Lemma far_event_starts_new_session_witness :
  NoDup (map ins_uuid4 one_event ++ ["u2"]) /\
  (forall r, In r (replay one_event) -> row_site r = "GG" ->
             timedelta_minutes 60 < distance r 10800) /\
  ensure_session_and_index (replay one_event) "GG" 10800 60 "u2" 90000
  = (("u2", Some 10800, 1), replay one_event).
Proof.
  assert (H : NoDup (map ins_uuid4 one_event ++ ["u2"])).
  { simpl. repeat constructor; simpl; intuition discriminate. }
  assert (F : forall r, In r (replay one_event) -> row_site r = "GG" ->
                        timedelta_minutes 60 < distance r 10800).
  { intros r [<-|[]] _. reflexivity. }
  split; [exact H|]. split; [exact F|].
  exact (proj1 (far_event_starts_new_session one_event "GG" 10800 60 "u2" 90000 H F)).
Defined.

(** The scenario of the spec: two events two hours apart, gap 60 minutes,
    make two sessions, each with index 1. *)
Example two_hours_apart :
  map (fun r => (row_ts r, session_id r, session_tournament_index r))
      (replay [sample_insertion "GG" 0 "h1" "u1" 60;
               sample_insertion "GG" 7200 "h2" "u2" 60])
  = [(0, Some "u1", 1); (7200, Some "u2", 1)].
Proof. reflexivity. Qed.

(** C8. In a store whose rows all carry a session id: when some row
    qualifies as predecessor, the lookup returns the session of a
    qualifying predecessor nearest to the event, whatever rows qualify as
    successors; when no row qualifies as predecessor and some row
    qualifies as successor, it returns the session of a nearest
    qualifying successor. *)
Theorem predecessor_wins (db : table) (st : string) (ts gap_minutes : Z) :
  forallb has_session db = true ->
  let gap := timedelta_minutes gap_minutes in
  ((exists p, In p db /\ Sql.prev_within_gap st ts gap p = true) ->
   exists p, In p db /\ Sql.prev_within_gap st ts gap p = true /\
     (forall q, In q db -> Sql.prev_within_gap st ts gap q = true ->
                row_ts q <= row_ts p) /\
     session_id p <> None /\
     find_existing_session_within_gap db st ts gap_minutes
     = (session_id p, session_start_ts_local p)) /\
  ((forall p, In p db -> Sql.prev_within_gap st ts gap p = false) ->
   (exists n, In n db /\ Sql.next_within_gap st ts gap n = true) ->
   exists n, In n db /\ Sql.next_within_gap st ts gap n = true /\
     (forall q, In q db -> Sql.next_within_gap st ts gap q = true ->
                row_ts n <= row_ts q) /\
     session_id n <> None /\
     find_existing_session_within_gap db st ts gap_minutes
     = (session_id n, session_start_ts_local n)).
Proof.
  intros Hall gap. rewrite forallb_forall in Hall. split.
  - intros (p0 & Hp0 & Hq0).
    destruct (Sql.SQL_PREV_WITHIN_GAP db st ts gap) as [p|] eqn:E.
    + pose proof E as E'. unfold Sql.SQL_PREV_WITHIN_GAP in E'.
      apply order_desc_limit_1_some in E' as [Hin Hmax].
      apply filter_In in Hin as [Hin Hq].
      exists p. split; [exact Hin|]. split; [exact Hq|]. split.
      * intros q Hq1 Hq2. apply Hmax. apply filter_In. now split.
      * split; [apply (has_session_truthy p (Hall p Hin))|].
        apply find_existing_prev; auto.
    + rewrite prev_none_iff in E. rewrite (E p0 Hp0) in Hq0. discriminate.
  - intros Hnone (n0 & Hn0 & Hq0).
    apply prev_none_iff in Hnone.
    destruct (Sql.SQL_NEXT_WITHIN_GAP db st ts gap) as [n|] eqn:E.
    + pose proof E as E'. unfold Sql.SQL_NEXT_WITHIN_GAP in E'.
      apply order_asc_limit_1_some in E' as [Hin Hmin].
      apply filter_In in Hin as [Hin Hq].
      exists n. split; [exact Hin|]. split; [exact Hq|]. split.
      * intros q Hq1 Hq2. apply Hmin. apply filter_In. now split.
      * split; [apply (has_session_truthy n (Hall n Hin))|].
        apply find_existing_next; auto.
    + rewrite next_none_iff in E. rewrite (E n0 Hn0) in Hq0. discriminate.
Qed.

Lemma predecessor_wins_witness :
  forallb has_session (replay two_sessions) = true /\
  (exists p, In p (replay two_sessions) /\
             Sql.prev_within_gap "GG" 6600 (timedelta_minutes 60) p = true) /\
  (exists p, In p (replay two_sessions) /\
     Sql.prev_within_gap "GG" 6600 (timedelta_minutes 60) p = true /\
     (forall q, In q (replay two_sessions) ->
                Sql.prev_within_gap "GG" 6600 (timedelta_minutes 60) q = true ->
                row_ts q <= row_ts p) /\
     session_id p <> None /\
     find_existing_session_within_gap (replay two_sessions) "GG" 6600 60
     = (session_id p, session_start_ts_local p)).
Proof.
  assert (H : forallb has_session (replay two_sessions) = true) by reflexivity.
  assert (P : exists p, In p (replay two_sessions) /\
                Sql.prev_within_gap "GG" 6600 (timedelta_minutes 60) p = true).
  { eexists. split; [right; left; reflexivity | reflexivity]. }
  split; [exact H|]. split; [exact P|].
  exact (proj1 (predecessor_wins (replay two_sessions) "GG" 6600 60 H) P).
Defined.

(** An event at 01:50:00 has a member of [u1] sixty minutes before it and
    a member of [u3] one minute after it: it joins [u1]. *)
Example closer_successor_loses :
  map (fun r => (row_ts r, session_id r)) (replay two_sessions)
  = [(0, Some "u1"); (3000, Some "u1"); (6660, Some "u3")] /\
  find_existing_session_within_gap (replay two_sessions) "GG" 6600 60
  = (Some "u1", Some 0).
Proof. split; reflexivity. Qed.

(** C10. When the lookup finds no session, [ensure_session_and_index]
    returns the minted id, the timestamp of the event and index 1, and the
    table it leaves is the table it was given: no row is added, removed
    or changed. *)
Theorem new_session_writes_nothing (db : table) (st : string)
    (ts gap_minutes : Z) (uuid4 : string) (now : Z) :
  fst (find_existing_session_within_gap db st ts gap_minutes) = None ->
  ensure_session_and_index db st ts gap_minutes uuid4 now
  = ((uuid4, Some ts, 1), db).
Proof.
  intros H.
  destruct (find_existing_session_within_gap db st ts gap_minutes) as [o start] eqn:F.
  simpl in H. subst o. exact (ensure_when_none _ _ _ _ _ _ _ F).
Qed.

Lemma new_session_writes_nothing_witness :
  fst (find_existing_session_within_gap (replay out_of_order) "GG" 10800 60) = None /\
  ensure_session_and_index (replay out_of_order) "GG" 10800 60 "u9" 90000
  = (("u9", Some 10800, 1), replay out_of_order).
Proof.
  split; [reflexivity|].
  exact (new_session_writes_nothing (replay out_of_order) "GG" 10800 60 "u9" 90000
           eq_refl).
Defined.

(* ================================================================= *)
(** ** Moving files *)

Section Moves.

Lemma folder_eqb_eq (a b : folder) : folder_eqb a b = true <-> a = b.
Proof. destruct a, b; simpl; split; intros H; congruence. Qed.

Lemma path_eqb_eq (a b : Path) : path_eqb a b = true <-> a = b.
Proof.
  unfold path_eqb. rewrite !andb_true_iff, folder_eqb_eq, !String.eqb_eq.
  destruct a, b; simpl. split.
  - intros [[-> ->] ->]. reflexivity.
  - intros H. inversion H. auto.
Qed.

Lemma path_eqb_refl (a : Path) : path_eqb a a = true.
Proof. now apply path_eqb_eq. Qed.

Lemma path_eqb_neq (a b : Path) : a <> b -> path_eqb a b = false.
Proof.
  intros H. destruct (path_eqb a b) eqn:E; [|reflexivity].
  apply path_eqb_eq in E. contradiction.
Qed.

Lemma next_free_parent files d base sfx fuel : forall candidate counter free,
  next_free files d base sfx fuel candidate counter = Some free ->
  parent candidate = d -> parent free = d.
Proof.
  induction fuel as [|fuel IH]; simpl; intros candidate counter free H Hc.
  - destruct (path_exists files candidate); simpl in H; [discriminate|].
    now inversion H; subst.
  - destruct (path_exists files candidate); simpl in H.
    + apply IH in H; auto.
    + now inversion H; subst.
Qed.

Lemma shutil_move_cases files src target f :
  lookup files src = Some f ->
  (f_blocked f (parent target) = false /\
   shutil_move files src target = (map (retarget src target) files, Returns target)) \/
  (f_blocked f (parent target) = true /\
   shutil_move files src target
   = (match f_left f (parent target) with
      | Some content => files ++ [left_at target content]
      | None => files
      end, Raises "PermissionError")).
Proof.
  intros H. unfold shutil_move. rewrite H.
  destruct (f_blocked f (parent target)); auto.
Qed.

Lemma retarget_other src target g :
  f_path g <> src -> retarget src target g = g.
Proof. intros H. unfold retarget. now rewrite path_eqb_neq. Qed.

Lemma retarget_bytes src target g : f_bytes (retarget src target g) = f_bytes g.
Proof. unfold retarget. now destruct (path_eqb (f_path g) src). Qed.

Lemma retarget_path src target g :
  f_path (retarget src target g) = if path_eqb (f_path g) src then target else f_path g.
Proof. unfold retarget. now destruct (path_eqb (f_path g) src). Qed.

End Moves.

(* ================================================================= *)
(** ** The search for a free name ends *)

Section FreeName.

Lemma append_cancel_l (s a b : string) : (s ++ a = s ++ b)%string -> a = b.
Proof.
  induction s as [|c s IH]; simpl; intros H; [exact H|].
  inversion H. auto.
Qed.

Lemma append_empty_r (s : string) : (s ++ EmptyString)%string = s.
Proof. induction s as [|c s IH]; simpl; [reflexivity|now rewrite IH]. Qed.

Lemma str_of_nat_inj (m n : nat) : str_of_nat m = str_of_nat n -> m = n.
Proof.
  unfold str_of_nat. intros H.
  assert (E : Some (Nat.to_uint m) = Some (Nat.to_uint n)).
  { rewrite <- !NilEmpty.usu. now rewrite H. }
  inversion E as [E']. apply (f_equal Nat.of_uint) in E'.
  now rewrite !DecimalNat.Unsigned.of_to in E'.
Qed.

Lemma numbered_inj d base sfx m n :
  numbered d base sfx m = numbered d base sfx n -> m = n.
Proof.
  unfold numbered. intros H. inversion H as [E].
  apply append_cancel_l in E. simpl in E. inversion E as [E'].
  now apply str_of_nat_inj.
Qed.

Lemma numbered_not_plain d base sfx n :
  numbered d base sfx n <> {| parent := d; stem := base; suffix := sfx |}.
Proof.
  unfold numbered. intros H. inversion H as [E].
  rewrite <- (append_empty_r base) in E at 2.
  apply append_cancel_l in E. discriminate.
Qed.

(** The candidates the loop has tried when it gives up all exist. *)
Lemma next_free_none files d base sfx fuel : forall candidate counter,
  next_free files d base sfx fuel candidate counter = None ->
  forall p, In p (candidate :: map (numbered d base sfx) (seq counter fuel)) ->
            In p (map f_path files).
Proof.
  assert (Hex : forall p, path_exists files p = true -> In p (map f_path files)).
  { intros p H. unfold path_exists in H. apply existsb_exists in H as (f & Hf & E).
    apply path_eqb_eq in E. subst. now apply in_map. }
  induction fuel as [|fuel IH]; simpl; intros candidate counter H p Hp.
  - destruct (path_exists files candidate) eqn:E; simpl in H; [|discriminate].
    destruct Hp as [<-|[]]. now apply Hex.
  - destruct (path_exists files candidate) eqn:E; simpl in H; [|discriminate].
    destruct Hp as [<-|Hp]; [now apply Hex|].
    apply (IH _ _ H). exact Hp.
Qed.

Lemma NoDup_candidates d base sfx counter fuel :
  NoDup ({| parent := d; stem := base; suffix := sfx |}
         :: map (numbered d base sfx) (seq counter fuel)).
Proof.
  constructor.
  - intros H. apply in_map_iff in H as (n & E & _).
    now apply numbered_not_plain in E.
  - apply Finite.Injective_map_NoDup; [|apply seq_NoDup].
    intros m n. apply numbered_inj.
Qed.

(** One round per file of the listing is enough for the search of
    [safe_move_with_suffix] to end with a free name. *)
Lemma next_free_found files d base sfx :
  exists free,
    next_free files d base sfx (List.length files)
              {| parent := d; stem := base; suffix := sfx |} 1 = Some free /\
    path_exists files free = false.
Proof.
  destruct (next_free files d base sfx (List.length files)
              {| parent := d; stem := base; suffix := sfx |} 1) as [free|] eqn:E.
  - exists free. split; [reflexivity|].
    clear -E. revert E. generalize 1%nat.
    generalize {| parent := d; stem := base; suffix := sfx |}.
    induction (List.length files) as [|fuel IH]; simpl; intros c n H.
    + destruct (path_exists files c) eqn:X; simpl in H; [discriminate|].
      now inversion H; subst.
    + destruct (path_exists files c) eqn:X; simpl in H.
      * eapply IH; eauto.
      * now inversion H; subst.
  - exfalso.
    pose proof (next_free_none _ _ _ _ _ _ _ E) as Hincl.
    apply (NoDup_incl_length (NoDup_candidates d base sfx 1 (List.length files))) in Hincl.
    simpl in Hincl. rewrite !length_map, length_seq in Hincl. lia.
Qed.

End FreeName.

(* ================================================================= *)
(** ** What a move does *)

Section MoveOutcome.

Variable L : PyLib.

Lemma prefix_append (s t : string) : String.prefix s (s ++ t) = true.
Proof.
  induction s as [|c s IH]; simpl; [now destruct t|].
  destruct (Ascii.ascii_dec c c) as [_|N]; [exact IH | now elim N].
Qed.

Lemma append_assoc (a b c : string) : ((a ++ b) ++ c = a ++ (b ++ c))%string.
Proof. induction a as [|x a IH]; simpl; [reflexivity | now rewrite IH]. Qed.

Lemma path_exists_false_iff (files : list file) (p : Path) :
  path_exists files p = false <-> ~ In p (map f_path files).
Proof.
  unfold path_exists. split.
  - intros H Hin. apply in_map_iff in Hin as (f & <- & Hf).
    assert (E : existsb (fun g => path_eqb (f_path g) (f_path f)) files = true).
    { apply existsb_exists. exists f. split; [exact Hf | apply path_eqb_refl]. }
    congruence.
  - intros H. destruct (existsb _ files) eqn:E; [|reflexivity].
    apply existsb_exists in E as (f & Hf & E). apply path_eqb_eq in E.
    elim H. apply in_map_iff. now exists f.
Qed.

Lemma path_exists_app (files more : list file) (p : Path) :
  path_exists (files ++ more) p = path_exists files p || path_exists more p.
Proof. unfold path_exists. apply existsb_app. Qed.

Lemma lookup_in (files : list file) (src : Path) (f : file) :
  lookup files src = Some f -> In f files /\ f_path f = src.
Proof.
  unfold lookup. intros H. apply find_some in H as [Hin E].
  now apply path_eqb_eq in E.
Qed.

(** A path that no file has is not the path of a file that is found. *)
Lemma free_is_not_found (files : list file) (src target : Path) (f : file) :
  lookup files src = Some f -> path_exists files target = false -> target <> src.
Proof.
  intros Hl Hfree ->. apply lookup_in in Hl as [Hin Hp].
  apply path_exists_false_iff in Hfree. apply Hfree.
  apply in_map_iff. now exists f.
Qed.

Lemma lookup_app_found (files more : list file) (src : Path) (f : file) :
  lookup files src = Some f -> lookup (files ++ more) src = Some f.
Proof.
  unfold lookup. induction files as [|g files IH]; simpl; [discriminate|].
  destruct (path_eqb (f_path g) src); auto.
Qed.

Lemma lookup_app_missing (files more : list file) (src : Path) :
  lookup files src = None -> lookup (files ++ more) src = lookup more src.
Proof.
  unfold lookup. induction files as [|g files IH]; simpl; [reflexivity|].
  destruct (path_eqb (f_path g) src); [discriminate | exact IH].
Qed.

Lemma lookup_retarget_gone files src target :
  target <> src -> lookup (map (retarget src target) files) src = None.
Proof.
  intros Ht. induction files as [|g files IH]; [reflexivity|].
  simpl map. unfold lookup in *. simpl. rewrite retarget_path.
  destruct (path_eqb (f_path g) src) eqn:E.
  - now rewrite (path_eqb_neq target src Ht).
  - now rewrite E.
Qed.

(** The name the loop settles on is free, and it is the first candidate
    or a numbered one. *)
Lemma next_free_shape files d base sfx fuel : forall candidate counter free,
  next_free files d base sfx fuel candidate counter = Some free ->
  path_exists files free = false /\
  (free = candidate \/ exists n, free = numbered d base sfx n).
Proof.
  induction fuel as [|fuel IH]; simpl; intros candidate counter free H.
  - destruct (path_exists files candidate) eqn:X; simpl in H; [discriminate|].
    inversion H; subst. auto.
  - destruct (path_exists files candidate) eqn:X; simpl in H.
    + apply IH in H as [Hf [->|Hn]]; eauto.
    + inversion H; subst. auto.
Qed.

(** [safe_move_with_suffix] is [shutil.move] to a path of the folder that
    no file has: the plain name when it is free, or else a name made of
    the stem, the timestamp and perhaps a counter. *)
Lemma safe_move_is_move files src d now :
  exists target,
    parent target = d /\ suffix target = suffix src /\
    path_exists files target = false /\
    String.prefix (stem src) (stem target) = true /\
    (path_exists files {| parent := d; stem := stem src; suffix := suffix src |}
     = false -> path_name target = path_name src) /\
    safe_move_with_suffix L files src d now = shutil_move files src target.
Proof.
  unfold safe_move_with_suffix.
  set (dest := {| parent := d; stem := stem src; suffix := suffix src |}).
  set (base := (stem src ++ "_" ++ strftime L now "%Y%m%d_%H%M%S")%string).
  set (candidate := {| parent := d; stem := base; suffix := suffix src |}).
  destruct (path_exists files dest) eqn:X; simpl.
  - destruct (next_free_found files d base (suffix src)) as (free & E & Hfree).
    fold candidate in E. rewrite E. exists free.
    pose proof (next_free_parent _ _ _ _ _ _ _ _ E eq_refl) as Hp.
    apply next_free_shape in E as [_ Hshape].
    split; [exact Hp|].
    split; [destruct Hshape as [->|[n ->]]; reflexivity|].
    split; [exact Hfree|]. split.
    { destruct Hshape as [->|[n ->]]; simpl; unfold base.
      - apply prefix_append.
      - rewrite append_assoc. apply prefix_append. }
    split; [discriminate | reflexivity].
  - exists dest. split; [reflexivity|]. split; [reflexivity|]. split; [exact X|].
    split; [simpl; rewrite <- (append_empty_r (stem src)) at 2; apply prefix_append|].
    split; reflexivity.
Qed.

Lemma safe_move_missing files src d now :
  lookup files src = None ->
  safe_move_with_suffix L files src d now = (files, Raises "FileNotFoundError").
Proof.
  intros H. destruct (safe_move_is_move files src d now) as (t & _ & _ & _ & _ & _ & ->).
  unfold shutil_move. now rewrite H.
Qed.

(** A move of a file that exists returns, the file renamed to a path that
    no file had, when the file is not blocked for the folder; otherwise
    it raises, and leaves what [left_by] says. *)
Lemma safe_move_outcome files src d now f :
  lookup files src = Some f ->
  (f_blocked f d = false /\
   exists target, parent target = d /\ path_exists files target = false /\
     suffix target = suffix src /\
     safe_move_with_suffix L files src d now
     = (map (retarget src target) files, Returns target)) \/
  (f_blocked f d = true /\
   exists left, left_by files f d left /\
     safe_move_with_suffix L files src d now
     = (files ++ left, Raises "PermissionError")).
Proof.
  intros Hl.
  destruct (safe_move_is_move files src d now) as (t & Hp & Hs & Hfree & _ & _ & ->).
  destruct (shutil_move_cases files src t f Hl) as [[B M]|[B M]];
    rewrite Hp in B; try rewrite Hp in M; rewrite M.
  - left. split; [exact B|]. exists t. auto.
  - right. split; [exact B|].
    destruct (f_left f d) as [content|] eqn:E.
    + exists [left_at t content]. split; [|reflexivity].
      right. exists t, content. auto.
    + exists []. split; [now left | now rewrite app_nil_r].
Qed.

Lemma left_by_leftover files f d left :
  left_by files f d left -> f_blocked f d = true -> d <> InputDir ->
  Forall (leftover f) left.
Proof.
  intros [[-> _]|(t & c & -> & Hc & <- & _)] B Hd; constructor; [|constructor].
  unfold leftover. simpl. auto.
Qed.

(** What a move of the file has left is not the file. *)
Lemma left_by_not_source files f d left src target :
  left_by files f d left -> lookup files src = Some f ->
  map (retarget src target) left = left.
Proof.
  intros [[-> _]|(t & c & -> & _ & _ & Hfree)] Hl; [reflexivity|].
  simpl. rewrite retarget_other; [reflexivity|].
  simpl. exact (free_is_not_found files src t f Hl Hfree).
Qed.

(** The second move of a file, after a move that raised. *)
Lemma safe_move_again files src d1 d now f left :
  lookup files src = Some f -> left_by files f d1 left ->
  (f_blocked f d = false /\
   exists target, parent target = d /\ path_exists files target = false /\
     path_exists (files ++ left) target = false /\
     suffix target = suffix src /\
     safe_move_with_suffix L (files ++ left) src d now
     = (map (retarget src target) files ++ left, Returns target)) \/
  (f_blocked f d = true /\
   exists left2, left_by (files ++ left) f d left2 /\
     safe_move_with_suffix L (files ++ left) src d now
     = (files ++ (left ++ left2), Raises "PermissionError")).
Proof.
  intros Hl Hleft.
  destruct (safe_move_outcome (files ++ left) src d now f (lookup_app_found _ _ _ _ Hl))
    as [(B & t & Hp & Hfree & Hs & M)|(B & left2 & Hl2 & M)].
  - left. split; [exact B|]. exists t. split; [exact Hp|].
    pose proof Hfree as Hfree'. rewrite path_exists_app in Hfree'.
    apply orb_false_iff in Hfree' as [Hfree' _].
    split; [exact Hfree'|]. split; [exact Hfree|]. split; [exact Hs|].
    rewrite M, map_app.
    now rewrite (left_by_not_source files f d1 left src t Hleft Hl).
  - right. split; [exact B|]. exists left2. split; [exact Hl2|].
    now rewrite M, <- app_assoc.
Qed.

(** The second move of a file, after a move that returned. *)
Lemma safe_move_moved files src target d now f :
  lookup files src = Some f -> path_exists files target = false ->
  safe_move_with_suffix L (map (retarget src target) files) src d now
  = (map (retarget src target) files, Raises "FileNotFoundError").
Proof.
  intros Hl Hfree. apply safe_move_missing, lookup_retarget_gone.
  exact (free_is_not_found files src target f Hl Hfree).
Qed.

(** The listing keeps pairwise distinct paths when a file takes a path
    that no file has. *)
Lemma retarget_distinct_paths (files : list file) (src target : Path) :
  NoDup (map f_path files) -> path_exists files target = false ->
  NoDup (map f_path (map (retarget src target) files)).
Proof.
  intros Hnd Hfree. apply path_exists_false_iff in Hfree. revert Hnd Hfree.
  induction files as [|g files IH]; simpl; intros Hnd Hfresh; [constructor|].
  inversion Hnd as [|? ? Hg Hrest]; subst.
  assert (Hin : forall p, In p (map f_path (map (retarget src target) files)) ->
                          p = target \/ In p (map f_path files)).
  { intros p Hp. apply in_map_iff in Hp as (g' & <- & Hg').
    apply in_map_iff in Hg' as (g0 & <- & Hg0). rewrite retarget_path.
    destruct (path_eqb (f_path g0) src); [now left|].
    right. apply in_map_iff. now exists g0. }
  constructor.
  - rewrite retarget_path. destruct (path_eqb (f_path g) src) eqn:E.
    + apply path_eqb_eq in E.
      replace (map (retarget src target) files) with files; [tauto|].
      symmetry. rewrite <- (map_id files) at 2. apply map_ext_in.
      intros a Ha. apply retarget_other. intros Heq. apply Hg.
      apply in_map_iff. exists a. split; [congruence | exact Ha].
    + intros Hp. apply Hin in Hp as [Hp|Hp]; [|contradiction].
      apply Hfresh. now left.
  - apply IH; [exact Hrest | tauto].
Qed.

(** And when a move that raised leaves a file behind. *)
Lemma left_distinct_paths (files : list file) f d left :
  NoDup (map f_path files) -> left_by files f d left ->
  NoDup (map f_path (files ++ left)).
Proof.
  intros Hnd [[-> _]|(t & c & -> & _ & _ & Hfree)]; [now rewrite app_nil_r|].
  rewrite map_app. simpl. apply path_exists_false_iff in Hfree.
  apply NoDup_app; [exact Hnd | repeat constructor; intros [] |].
  intros p Hp [<-|[]]. contradiction.
Qed.

Lemma moved_left_distinct_paths (files : list file) src f d left target :
  NoDup (map f_path files) -> lookup files src = Some f -> left_by files f d left ->
  path_exists (files ++ left) target = false ->
  NoDup (map f_path (map (retarget src target) files ++ left)).
Proof.
  intros Hnd Hl Hleft Hfree.
  rewrite <- (left_by_not_source files f d left src target Hleft Hl), <- map_app.
  apply retarget_distinct_paths; [|exact Hfree].
  eapply left_distinct_paths; eauto.
Qed.

Lemma left_left_distinct_paths (files : list file) f d left d2 left2 :
  NoDup (map f_path files) -> left_by files f d left ->
  left_by (files ++ left) f d2 left2 ->
  NoDup (map f_path (files ++ (left ++ left2))).
Proof.
  intros Hnd Hleft Hleft2. rewrite app_assoc.
  eapply left_distinct_paths; [|exact Hleft2].
  eapply left_distinct_paths; eauto.
Qed.

End MoveOutcome.

(* ================================================================= *)
(** ** One file *)

Section OneFile.

Variable L : PyLib.
Variable cfg : ImportConfig.

(** Once a file has left the input directory, moving it from there
    raises. *)
Lemma safe_move_gone files src target d now :
  parent src = InputDir -> parent target <> InputDir ->
  safe_move_with_suffix L (map (retarget src target) files) src d now
  = (map (retarget src target) files, Raises "FileNotFoundError").
Proof.
  intros Hs Ht. apply safe_move_missing, lookup_retarget_gone. congruence.
Qed.

Ltac use_facts :=
  repeat match goal with
         | H : dry_run cfg = _ |- _ => rewrite H
         | H : f_blocked _ _ = _ |- _ => rewrite H
         | H : Sql.SQL_HASH_EXISTS _ _ = _ |- _ => rewrite H
         | H : GGSummaryParser.parse _ _ _ = _ |- _ => rewrite H
         | H : String.prefix _ _ = _ |- _ => rewrite H
         | H : parent _ = _ |- _ => rewrite H
         end.

Ltac solve_agree :=
  unfold agrees; use_facts; cbn;
  first [ reflexivity
        | intuition (try reflexivity; try assumption; try congruence) ].

Ltac solve_listing_eq := first [ reflexivity | symmetry; apply app_nil_r ].

Ltac solve_copies :=
  first [ apply Forall_nil | assumption | apply Forall_app; split; assumption ].

Ltac pick_copies :=
  lazymatch goal with
  | |- exists copies, _ /\ _ /\ _ /\ ((?X = _ /\ _) \/ _) =>
      lazymatch X with
      | _ ++ ?c => exists c
      | _ => exists (@nil file)
      end
  end.

Ltac solve_place :=
  pick_copies;
  split; [solve_copies|];
  split; [let X := fresh in intros X; first [reflexivity | now elim X]|];
  split; [let X := fresh in intros X; first [reflexivity | discriminate X | congruence]|];
  first [ left; split; [solve_listing_eq | solve_agree]
        | right; eexists;
          (split; [|split; [|split; [|split; [solve_listing_eq | solve_agree]]]]);
          [ use_facts; discriminate | eassumption | eassumption ] ].

Ltac solve_distinct :=
  let Hnd := fresh in
  intros Hnd;
  first [ exact Hnd
        | solve [eauto using retarget_distinct_paths]
        | solve [eauto using left_distinct_paths]
        | solve [eauto using moved_left_distinct_paths]
        | solve [eauto using left_left_distinct_paths] ].

Ltac solve_cases :=
  do 5 eexists; split; [apply (f_equal2 pair); reflexivity|];
  split; [reflexivity|];
  split; [unfold statuses; simpl; tauto|];
  split; [solve_place|];
  split; [solve_distinct|];
  split; [let X := fresh in intros X; first [reflexivity | now elim X]|];
  split; [let X := fresh in
          intros X;
          first [ discriminate X
                | do 2 eexists; split; [first [reflexivity | eassumption]|];
                  split; [reflexivity | eassumption] ]|];
  use_facts; cbn;
  repeat split; intros; try discriminate; try congruence; eauto 6.

(** What the processing of one file that is there does: it appends one
    record, with the name of the file and a status, and increments the
    counter of the status; the files of the listing stay as they are but
    for the move of the file itself, in agreement with the status, and
    the moves that raised may have left files behind, all of which come
    after the files that were there; it changes the store only when the
    status is inserted. *)
Lemma process_file_cases amb w t src f :
  lookup (w_files w) src = Some f ->
  exists st rs core files' db',
    process_file L cfg amb w t src
    = ({| w_db := db'; w_files := files';
          w_log := w_log w ++ [ {| payload := with_status core st rs;
                                   timestamp := amb_now amb |} ] |},
       count_status st t) /\
    ev_file_name core = path_name src /\
    In st statuses /\
    (exists copies,
       Forall (leftover f) copies /\
       (st <> "error" -> copies = []) /\
       (dry_run cfg = true -> copies = []) /\
       ((files' = w_files w ++ copies /\ agrees cfg amb f st InputDir) \/
        (exists target, parent target <> InputDir /\
           path_exists (w_files w) target = false /\
           suffix target = suffix src /\
           files' = map (retarget src target) (w_files w) ++ copies /\
           agrees cfg amb f st (parent target)))) /\
    (NoDup (map f_path (w_files w)) -> NoDup (map f_path files')) /\
    (st <> "inserted" -> db' = w_db w) /\
    (st = "inserted" -> exists parsed r,
        GGSummaryParser.parse L (cfg_site cfg) (decode L (f_bytes f))
        = Returns (Some parsed, r) /\
        core = with_result (with_hash (new_event src) (sha256 L (f_bytes f))) parsed /\
        assign_and_insert (w_db w) parsed (path_name src) (sha256 L (f_bytes f))
          (session_gap_minutes cfg) (amb_uuid4 amb) (amb_now amb) = Some db') /\
    (Sql.SQL_HASH_EXISTS (w_db w) (sha256 L (f_bytes f)) = true ->
       (st = "duplicate" /\ rs = "hash_exists" /\
        (dry_run cfg = true \/ f_blocked f DuplicateDir = false)) \/
       (st = "error" /\ dry_run cfg = false /\ f_blocked f DuplicateDir = true)) /\
    (dry_run cfg = true ->
       Sql.SQL_HASH_EXISTS (w_db w) (sha256 L (f_bytes f)) = false ->
       match GGSummaryParser.parse L (cfg_site cfg) (decode L (f_bytes f)) with
       | Returns (Some _, _) => st = "dry_run"
       | Returns (None, r) =>
           st = if String.prefix "needs_review" (reason_or r EmptyString)
                then "needs_review" else "error"
       | Raises _ => st = "error"
       end) /\
    (st = "dry_run" -> dry_run cfg = true) /\
    (st = "inserted" -> dry_run cfg = false) /\
    (core = with_hash (new_event src) (sha256 L (f_bytes f)) \/
     exists parsed r,
       GGSummaryParser.parse L (cfg_site cfg) (decode L (f_bytes f))
       = Returns (Some parsed, r) /\
       core = with_result (with_hash (new_event src) (sha256 L (f_bytes f))) parsed).
Proof.
  intros Hl.
  (* the first move, into each of the three folders *)
  destruct (safe_move_outcome L (w_files w) src DuplicateDir (amb_now amb) f Hl)
    as [(Bd & td & Ptd & Ftd & Std & Md)|(Bd & ld & Ld & Md)];
  destruct (safe_move_outcome L (w_files w) src NeedsReviewDir (amb_now amb) f Hl)
    as [(Bn & tn & Ptn & Ftn & Stn & Mn)|(Bn & ln & Ln & Mn)];
  destruct (safe_move_outcome L (w_files w) src ProcessedDir (amb_now amb) f Hl)
    as [(Bp & tp & Ptp & Ftp & Stp & Mp)|(Bp & lp & Lp & Mp)].
  (* the second move, into the needs-review folder, after one that raised *)
  all: try (destruct (safe_move_again L (w_files w) src DuplicateDir NeedsReviewDir
                        (amb_now amb) f ld Hl Ld)
              as [(Bd2 & td2 & Ptd2 & Ftd2 & Ftd2' & Std2 & Md2)|(Bd2 & ld2 & Ld2 & Md2)];
            [try congruence | try congruence]).
  all: try (destruct (safe_move_again L (w_files w) src NeedsReviewDir NeedsReviewDir
                        (amb_now amb) f ln Hl Ln)
              as [(Bn2 & tn2 & Ptn2 & Ftn2 & Ftn2' & Stn2 & Mn2)|(Bn2 & ln2 & Ln2 & Mn2)];
            [try congruence | try congruence]).
  all: try (destruct (safe_move_again L (w_files w) src ProcessedDir NeedsReviewDir
                        (amb_now amb) f lp Hl Lp)
              as [(Bp2 & tp2 & Ptp2 & Ftp2 & Ftp2' & Stp2 & Mp2)|(Bp2 & lp2 & Lp2 & Mp2)];
            [try congruence | try congruence]).
  (* and after one that returned *)
  all: try (assert (Gd : safe_move_with_suffix L (map (retarget src tp) (w_files w)) src
                      DuplicateDir (amb_now amb)
                    = (map (retarget src tp) (w_files w), Raises "FileNotFoundError"))
              by (eapply safe_move_moved; eassumption);
            assert (Gn : safe_move_with_suffix L (map (retarget src tp) (w_files w)) src
                      NeedsReviewDir (amb_now amb)
                    = (map (retarget src tp) (w_files w), Raises "FileNotFoundError"))
              by (eapply safe_move_moved; eassumption)).
  (* what the moves that raised have left *)
  all: try (pose proof (left_by_leftover _ _ _ _ Ld Bd ltac:(discriminate)) as Cd).
  all: try (pose proof (left_by_leftover _ _ _ _ Ln Bn ltac:(discriminate)) as Cn).
  all: try (pose proof (left_by_leftover _ _ _ _ Lp Bp ltac:(discriminate)) as Cp).
  all: try (pose proof (left_by_leftover _ _ _ _ Ld2 Bn ltac:(discriminate)) as Cd2).
  all: try (pose proof (left_by_leftover _ _ _ _ Ln2 Bn ltac:(discriminate)) as Cn2).
  all: try (pose proof (left_by_leftover _ _ _ _ Lp2 Bn ltac:(discriminate)) as Cp2).
  all: unfold process_file, try_file, transaction, sha256_file, read_text_with_fallback;
    rewrite Hl;
    destruct (Sql.SQL_HASH_EXISTS (w_db w) (sha256 L (f_bytes f))) eqn:Hh;
    destruct (dry_run cfg) eqn:Hd; cbn [negb];
    rewrite ?Md, ?Mn, ?Mp; cbn [fst snd w_files w_db];
    rewrite ?Md2, ?Mn2, ?Mp2; cbn [fst snd w_files w_db].
  all: try solve [solve_cases].
  all: destruct (GGSummaryParser.parse L (cfg_site cfg) (decode L (f_bytes f)))
      as [[[parsed|] r]|e] eqn:Hparse;
    rewrite ?Md, ?Mn, ?Mp; cbn [fst snd w_files w_db];
    rewrite ?Md2, ?Mn2, ?Mp2; cbn [fst snd w_files w_db].
  all: try solve [solve_cases].
  all: try (destruct (String.prefix "needs_review" (reason_or r EmptyString)) eqn:Hpre).
  all: try solve [solve_cases].
  all: try (destruct (assign_and_insert (w_db w) parsed (path_name src)
               (sha256 L (f_bytes f)) (session_gap_minutes cfg) (amb_uuid4 amb)
               (amb_now amb)) as [db'|] eqn:Hins;
            rewrite ?Md, ?Mn, ?Mp; cbn [fst snd w_files w_db];
            rewrite ?Md2, ?Mn2, ?Mp2; cbn [fst snd w_files w_db]).
  all: try solve [solve_cases].
  all: try (destruct (amb_commit amb) as [ce|] eqn:Hc;
            [destruct (String.eqb ce "IntegrityError") eqn:Hce|];
            rewrite ?Gd, ?Gn; cbn [fst snd w_files w_db]; rewrite ?Gd, ?Gn;
            cbn [fst snd w_files w_db]).
  all: try solve [solve_cases].
Qed.

(** The same, for a file of the input directory, without the counters. *)
Lemma process_file_step amb w t src f :
  lookup (w_files w) src = Some f -> parent src = InputDir ->
  exists st rs core files' db' t',
    process_file L cfg amb w t src
    = ({| w_db := db'; w_files := files';
          w_log := w_log w ++ [ {| payload := with_status core st rs;
                                   timestamp := amb_now amb |} ] |}, t') /\
    ev_file_name core = path_name src /\
    In st statuses /\
    (exists copies,
       Forall (leftover f) copies /\
       (st <> "error" -> copies = []) /\
       (dry_run cfg = true -> copies = []) /\
       ((files' = w_files w ++ copies /\ agrees cfg amb f st InputDir) \/
        (exists target, parent target <> InputDir /\
           files' = map (retarget src target) (w_files w) ++ copies /\
           agrees cfg amb f st (parent target)))) /\
    (st <> "inserted" -> db' = w_db w) /\
    (st = "inserted" -> exists parsed r,
        GGSummaryParser.parse L (cfg_site cfg) (decode L (f_bytes f))
        = Returns (Some parsed, r) /\
        assign_and_insert (w_db w) parsed (path_name src) (sha256 L (f_bytes f))
          (session_gap_minutes cfg) (amb_uuid4 amb) (amb_now amb) = Some db') /\
    (Sql.SQL_HASH_EXISTS (w_db w) (sha256 L (f_bytes f)) = true ->
       (st = "duplicate" /\ rs = "hash_exists" /\
        (dry_run cfg = true \/ f_blocked f DuplicateDir = false)) \/
       (st = "error" /\ dry_run cfg = false /\ f_blocked f DuplicateDir = true)) /\
    (dry_run cfg = true ->
       Sql.SQL_HASH_EXISTS (w_db w) (sha256 L (f_bytes f)) = false ->
       match GGSummaryParser.parse L (cfg_site cfg) (decode L (f_bytes f)) with
       | Returns (Some _, _) => st = "dry_run"
       | Returns (None, r) =>
           st = if String.prefix "needs_review" (reason_or r EmptyString)
                then "needs_review" else "error"
       | Raises _ => st = "error"
       end) /\
    (st = "dry_run" -> dry_run cfg = true) /\
    (st = "inserted" -> dry_run cfg = false).
Proof.
  intros Hl _.
  destruct (process_file_cases amb w t src f Hl)
    as (st & rs & core & files' & db' & E & Hname & Hst & Hplace & _ & Hkeep & Hins
        & Hdup & Hstat & Hdry & Hnotdry & _).
  exists st, rs, core, files', db', (count_status st t).
  split; [exact E|]. split; [exact Hname|]. split; [exact Hst|].
  split.
  { destruct Hplace as (copies & Hc & He & Hd & Hp). exists copies.
    split; [exact Hc|]. split; [exact He|]. split; [exact Hd|].
    destruct Hp as [Hp|(target & Ht & _ & _ & Hf & Hag)]; [now left|].
    right. exists target. auto. }
  split; [exact Hkeep|].
  split.
  { intros X. destruct (Hins X) as (parsed & r & Hp & _ & Ha). eauto. }
  auto.
Qed.

End OneFile.

(* ================================================================= *)
(** ** The queue of files *)

Section Queue.

Variable L : PyLib.
Variable cfg : ImportConfig.
Variable amb : Path -> ambient.

Lemma lookup_cons f files p :
  lookup (f :: files) p = if path_eqb (f_path f) p then Some f else lookup files p.
Proof. reflexivity. Qed.

Lemma NoDup_paths_self_found files :
  NoDup (map f_path files) -> self_found files.
Proof.
  induction files as [|a files IH]; simpl; intros Hnd f Hin Hp; [destruct Hin|].
  apply NoDup_cons_iff in Hnd as [Hnew Hrest]. rewrite lookup_cons.
  destruct Hin as [->|Hin].
  - now rewrite path_eqb_refl.
  - rewrite path_eqb_neq; [now apply IH|].
    intros E. apply Hnew. rewrite E. now apply in_map.
Qed.

Lemma lookup_retarget_other files src target p :
  p <> src -> p <> target ->
  lookup (map (retarget src target) files) p = lookup files p.
Proof.
  intros Hs Ht. induction files as [|g files IH]; [reflexivity|].
  simpl map. rewrite !lookup_cons, retarget_path, IH.
  destruct (path_eqb (f_path g) src) eqn:E.
  - apply path_eqb_eq in E. rewrite (path_eqb_neq target p) by congruence.
    now rewrite (path_eqb_neq (f_path g) p) by congruence.
  - destruct (path_eqb (f_path g) p); [|reflexivity].
    unfold retarget. now rewrite E.
Qed.

Lemma ready_lookup files queue src :
  ready files queue -> In src queue -> exists f, lookup files src = Some f.
Proof.
  intros (Hself & _ & Hq) Hin. destruct (Hq src Hin) as (Hp & f & Hf & <-).
  exists f. now apply Hself.
Qed.

(** Files that are not in the input directory are not found under a
    path of the input directory. *)
Lemma lookup_app_outside (files copies : list file) (p : Path) :
  Forall (fun c => parent (f_path c) <> InputDir) copies ->
  parent p = InputDir ->
  lookup (files ++ copies) p = lookup files p.
Proof.
  intros Hc Hp. destruct (lookup files p) as [g|] eqn:E.
  - now apply lookup_app_found.
  - rewrite lookup_app_missing by exact E.
    induction Hc as [|c copies Hc _ IH]; [reflexivity|].
    rewrite lookup_cons. rewrite path_eqb_neq; [exact IH | congruence].
Qed.

Lemma own_move_lookup files files' src p :
  own_move src files files' -> p <> src -> parent p = InputDir ->
  lookup files' p = lookup files p.
Proof.
  intros (copies & Hc & [->|(target & Ht & ->)]) Hs Hp;
    rewrite (lookup_app_outside _ _ _ Hc Hp); [reflexivity|].
  apply lookup_retarget_other; congruence.
Qed.

Lemma own_move_nth files files' src i g :
  own_move src files files' -> nth_error files i = Some g -> f_path g <> src ->
  nth_error files' i = Some g.
Proof.
  intros (copies & Hc & [->|(target & Ht & ->)]) Hn Hs.
  - rewrite nth_error_app1; [exact Hn|]. apply nth_error_Some. congruence.
  - rewrite nth_error_app1.
    + rewrite nth_error_map, Hn. simpl. now rewrite retarget_other.
    + rewrite length_map. apply nth_error_Some. congruence.
Qed.

Lemma own_move_in files files' src g :
  own_move src files files' -> In g files -> f_path g <> src -> In g files'.
Proof.
  intros (copies & Hc & [->|(target & Ht & ->)]) Hin Hs;
    apply in_or_app; left; [exact Hin|].
  apply in_map_iff. exists g. split; [now apply retarget_other|exact Hin].
Qed.

Lemma ready_step files files' src rest :
  ready files (src :: rest) -> own_move src files files' -> ready files' rest.
Proof.
  intros (Hself & Hnd & Hq) Hmv.
  apply NoDup_cons_iff in Hnd as [Hnew Hnd].
  split; [|split; [exact Hnd|]].
  - intros f' Hin Hp.
    destruct Hmv as (copies & Hc & [->|(target & Ht & ->)]);
      rewrite (lookup_app_outside _ _ _ Hc Hp);
      apply in_app_or in Hin as [Hin|Hin];
      try (rewrite Forall_forall in Hc; now elim (Hc f' Hin)).
    + now apply Hself.
    + apply in_map_iff in Hin as (g & <- & Hg).
      rewrite retarget_path in *.
      destruct (path_eqb (f_path g) src) eqn:E; [congruence|].
      assert (f_path g <> src) by (intros X; apply path_eqb_eq in X; congruence).
      rewrite lookup_retarget_other by congruence.
      rewrite retarget_other by assumption. now apply Hself.
  - intros p Hin. destruct (Hq p (or_intror Hin)) as (Hp & g & Hg & Eg).
    split; [exact Hp|]. exists g. split; [|exact Eg].
    eapply own_move_in; eauto. congruence.
Qed.

Lemma leftover_outside f copies :
  Forall (leftover f) copies ->
  Forall (fun c => parent (f_path c) <> InputDir) copies.
Proof. apply Forall_impl. now intros c (H & _). Qed.

(** The step lemma, with the listing read as [own_move]. *)
Lemma process_file_own_move w t src f :
  lookup (w_files w) src = Some f -> parent src = InputDir ->
  own_move src (w_files w) (w_files (fst (process_file L cfg (amb src) w t src))).
Proof.
  intros Hl Hp.
  destruct (process_file_step L cfg (amb src) w t src f Hl Hp)
    as (st & rs & core & files' & db' & t' & E & _ & _ & Hf & _).
  rewrite E. simpl.
  destruct Hf as (copies & Hc & _ & _ & Hf). exists copies.
  split; [now apply (leftover_outside f)|].
  destruct Hf as [[-> _]|(target & Ht & -> & _)]; [now left|].
  right. exists target. split; [exact Ht|reflexivity].
Qed.

Lemma process_queue_cons src rest w t :
  process_queue L cfg amb (src :: rest) (w, t)
  = process_queue L cfg amb rest
      (fst (process_file L cfg (amb src) w t src),
       snd (process_file L cfg (amb src) w t src)).
Proof. simpl. now destruct (process_file L cfg (amb src) w t src). Qed.

End Queue.

(* ================================================================= *)
(** ** A run over the queue *)

Section QueueRun.

Variable L : PyLib.
Variable cfg : ImportConfig.
Variable amb : Path -> ambient.

Lemma Forall2_impl_in {A B : Type} (P Q : A -> B -> Prop) (l : list A) (l' : list B) :
  Forall2 P l l' -> (forall x y, In x l -> P x y -> Q x y) -> Forall2 Q l l'.
Proof.
  induction 1 as [|x y l l' Hxy HF IH]; intros Himp; constructor.
  - apply Himp; [now left|exact Hxy].
  - apply IH. intros a b Ha. apply Himp. now right.
Qed.

(** Each file of the queue gets one record, and is found afterwards, at
    its place in the listing, in a folder that agrees with the status;
    what comes after the files that were there has been left by moves
    that raised. *)
Lemma queue_placement : forall queue w t,
  ready (w_files w) queue ->
  (exists recs,
     w_log (fst (process_queue L cfg amb queue (w, t))) = w_log w ++ recs /\
     Forall2 (placed cfg amb (w_files w)
                (w_files (fst (process_queue L cfg amb queue (w, t)))))
             queue recs /\
     exists kept copies,
       w_files (fst (process_queue L cfg amb queue (w, t))) = kept ++ copies /\
       List.length kept = List.length (w_files w) /\
       Forall (left_in_run (w_files w) queue recs) copies) /\
  (forall i g, nth_error (w_files w) i = Some g -> ~ In (f_path g) queue ->
     nth_error (w_files (fst (process_queue L cfg amb queue (w, t)))) i = Some g).
Proof.
  induction queue as [|src rest IH]; intros w t Hready.
  - simpl. split; [|auto]. exists []. rewrite app_nil_r.
    split; [reflexivity|]. split; [constructor|].
    exists (w_files w), []. rewrite app_nil_r. auto.
  - destruct (ready_lookup _ _ src Hready (or_introl eq_refl)) as (f0 & Hl).
    pose proof Hready as (Hself & Hnd & Hq).
    destruct (Hq src (or_introl eq_refl)) as (Hp & _).
    apply NoDup_cons_iff in Hnd as [Hnew Hnd].
    pose proof (process_file_own_move L cfg amb w t src f0 Hl Hp) as Hmv.
    pose proof (ready_step _ _ _ _ Hready Hmv) as Hready2.
    destruct (process_file_step L cfg (amb src) w t src f0 Hl Hp)
      as (st & rs & core & files' & db' & t' & E & Hname & Hst & Hf & _).
    rewrite process_queue_cons.
    set (w2 := fst (process_file L cfg (amb src) w t src)) in *.
    set (t2 := snd (process_file L cfg (amb src) w t src)) in *.
    destruct (IH w2 t2 Hready2)
      as ((recs & Hlog & HF & kept2 & copies2 & Hfinal & Hlen2 & Hleft2) & Hframe).
    set (w' := fst (process_queue L cfg amb rest (w2, t2))) in *.
    assert (Ew2 : w_log w2 = w_log w ++ [ {| payload := with_status core st rs;
                                             timestamp := amb_now (amb src) |} ]
                  /\ w_files w2 = files').
    { unfold w2. rewrite E. simpl. auto. }
    destruct Ew2 as [Elog Efiles].
    destruct Hf as (copies1 & Hc1 & Herr1 & _ & Hf).
    assert (Hbase : exists base, files' = base ++ copies1 /\
                      List.length base = List.length (w_files w)).
    { destruct Hf as [[-> _]|(target & _ & -> & _)]; eexists; split;
        try reflexivity. apply length_map. }
    destruct Hbase as (base & Ebase & Hlenb).
    set (rec0 := {| payload := with_status core st rs;
                    timestamp := amb_now (amb src) |}) in *.
    split.
    + exists (rec0 :: recs).
      split; [rewrite Hlog, Elog, <- app_assoc; reflexivity|].
      split.
      * constructor.
        -- split; [exact Hname|]. intros i f Hi Hpath.
           assert (f = f0).
           { assert (Hin : In f (w_files w)) by (eapply nth_error_In; eauto).
             pose proof (Hself f Hin) as X. rewrite Hpath in X.
             rewrite X in Hl by congruence. congruence. }
           subst f0. exists st.
           assert (Hlt : (i < List.length (w_files w))%nat)
             by (apply nth_error_Some; congruence).
           destruct Hf as [[Hf Hag]|(target & Ht & Hf & Hag)].
           ++ exists f. split; [reflexivity|]. split; [exact Hst|]. split.
              ** apply Hframe; [|now rewrite Hpath].
                 rewrite Efiles, Hf, nth_error_app1 by exact Hlt. exact Hi.
              ** split; [reflexivity|]. now rewrite Hpath, Hp.
           ++ exists (retarget src target f). split; [reflexivity|].
              split; [exact Hst|]. split.
              ** apply Hframe.
                 --- rewrite Efiles, Hf, nth_error_app1
                       by (now rewrite length_map).
                     rewrite nth_error_map, Hi. reflexivity.
                 --- rewrite retarget_path, Hpath, path_eqb_refl. intros Hin.
                     destruct Hready2 as (_ & _ & Hq2).
                     destruct (Hq2 target Hin) as (Hpt & _). contradiction.
              ** split; [apply retarget_bytes|].
                 now rewrite retarget_path, Hpath, path_eqb_refl.
        -- eapply Forall2_impl_in; [exact HF|].
           intros src' rec Hin (Hn & Hplace). split; [exact Hn|].
           intros i f Hi Hpath. apply Hplace; [|exact Hpath].
           eapply own_move_nth; eauto. intros X. apply Hnew. congruence.
      * set (n := List.length (w_files w)) in *.
        assert (Hn2 : List.length kept2 = (n + List.length copies1)%nat).
        { rewrite Hlen2, Efiles, Ebase, length_app. unfold n. lia. }
        exists (firstn n kept2), (skipn n kept2 ++ copies2).
        split; [now rewrite app_assoc, firstn_skipn|].
        split; [rewrite length_firstn; lia|].
        apply Forall_app. split.
        -- apply Forall_forall. intros c Hc.
           apply In_nth_error in Hc as (i & Hi).
           rewrite nth_error_skipn in Hi.
           assert (Hlt : (n + i < List.length kept2)%nat)
             by (apply nth_error_Some; congruence).
           assert (Hi' : nth_error (w_files w') (n + i) = Some c)
             by (rewrite Hfinal, nth_error_app1 by exact Hlt; exact Hi).
           destruct (nth_error copies1 i) as [c1|] eqn:Ec1;
             [|apply nth_error_None in Ec1; lia].
           assert (Hc1in : In c1 copies1) by (eapply nth_error_In; eauto).
           assert (Hi1 : nth_error (w_files w2) (n + i) = Some c1).
           { rewrite Efiles, Ebase, nth_error_app2 by lia.
             replace (n + i - List.length base)%nat with i by lia. exact Ec1. }
           rewrite Forall_forall in Hc1. pose proof (Hc1 c1 Hc1in) as Hlo.
           assert (c = c1).
           { apply Hframe in Hi1; [congruence|]. intros Hin.
             destruct Hready2 as (_ & _ & Hq2).
             destruct (Hq2 _ Hin) as (Hpin & _). destruct Hlo as (Hlo & _).
             contradiction. }
           subst c1. exists 0%nat, src, rec0, f0.
           split; [reflexivity|]. split; [reflexivity|]. split; [exact Hl|].
           split; [|exact Hlo].
           simpl. f_equal. destruct (String.eqb_spec st "error") as [->|Hne];
             [reflexivity|].
           specialize (Herr1 Hne). subst copies1. destruct Hc1in.
        -- eapply Forall_impl; [|exact Hleft2].
           intros c (j & src' & rec & f & Hj & Hr & Hlk & Hs & Hlo).
           exists (S j), src', rec, f. simpl.
           split; [exact Hj|]. split; [exact Hr|]. split; [|auto].
           rewrite <- Hlk. symmetry.
           assert (Hin : In src' rest) by (eapply nth_error_In; eauto).
           destruct Hready2 as (_ & _ & Hq2). destruct (Hq2 src' Hin) as (Hp' & _).
           eapply own_move_lookup; eauto. intros X. apply Hnew. congruence.
    + intros i g Hi Hnin. apply Hframe.
      * eapply own_move_nth; eauto. intros X. apply Hnin. now left.
      * intros X. apply Hnin. now right.
Qed.

End QueueRun.

Section Hashes.

Variable L : PyLib.
Variable cfg : ImportConfig.
Variable amb : Path -> ambient.

Lemma hash_exists_app db db' h :
  Sql.SQL_HASH_EXISTS (db ++ db') h
  = Sql.SQL_HASH_EXISTS db h || Sql.SQL_HASH_EXISTS db' h.
Proof. unfold Sql.SQL_HASH_EXISTS. apply existsb_app. Qed.

Lemma hash_exists_bump db st sid ts now h :
  Sql.SQL_HASH_EXISTS (Sql.SQL_BUMP_INDICES_AT_OR_AFTER_TS db st sid ts now) h
  = Sql.SQL_HASH_EXISTS db h.
Proof.
  unfold Sql.SQL_HASH_EXISTS, Sql.SQL_BUMP_INDICES_AT_OR_AFTER_TS.
  induction db as [|r db IH]; simpl; [reflexivity|]. rewrite IH. f_equal.
  now destruct (Sql.in_session st sid r && (ts <=? row_ts r)).
Qed.

Lemma hash_exists_ensure db st ts gap u now h :
  Sql.SQL_HASH_EXISTS (snd (ensure_session_and_index db st ts gap u now)) h
  = Sql.SQL_HASH_EXISTS db h.
Proof.
  unfold ensure_session_and_index.
  destruct (find_existing_session_within_gap db st ts gap) as [[sid|] start]; simpl.
  - apply hash_exists_bump.
  - reflexivity.
Qed.

(** A committed insert adds the hash of the file and no other; it
    happens only when the hash is not stored yet. *)
Lemma assign_and_insert_hashes db p n h gap u now db' :
  assign_and_insert db p n h gap u now = Some db' ->
  Sql.SQL_HASH_EXISTS db h = false /\
  forall x, Sql.SQL_HASH_EXISTS db' x = Sql.SQL_HASH_EXISTS db x || String.eqb h x.
Proof.
  unfold assign_and_insert.
  pose proof (hash_exists_ensure db (site p) (tournament_start_ts_local p) gap u now)
    as He.
  destruct (ensure_session_and_index db (site p) (tournament_start_ts_local p) gap u now)
    as [[[sid sstart] sindex] db1].
  simpl in He. unfold Sql.SQL_INSERT_TOURNAMENT.
  destruct (Sql.SQL_HASH_EXISTS db1 h) eqn:E; [discriminate|].
  intros H; inversion H; subst. split; [now rewrite <- He|].
  intros x. rewrite hash_exists_app, He. f_equal.
  unfold Sql.SQL_HASH_EXISTS. simpl. now rewrite orb_false_r.
Qed.

Lemma queue_hashes : forall queue w t,
  ready (w_files w) queue ->
  (forall h, Sql.SQL_HASH_EXISTS (w_db w) h = true ->
     Sql.SQL_HASH_EXISTS (w_db (fst (process_queue L cfg amb queue (w, t)))) h = true) /\
  exists recs,
    w_log (fst (process_queue L cfg amb queue (w, t))) = w_log w ++ recs /\
    List.length recs = List.length queue /\
    (forall j src rec f,
       nth_error queue j = Some src -> nth_error recs j = Some rec ->
       lookup (w_files w) src = Some f ->
       Sql.SQL_HASH_EXISTS (w_db w) (sha256 L (f_bytes f)) = true ->
       refused cfg f rec) /\
    (forall j1 j2 src1 src2 rec1 rec2 f1 f2,
       (j1 < j2)%nat ->
       nth_error queue j1 = Some src1 -> nth_error queue j2 = Some src2 ->
       nth_error recs j1 = Some rec1 -> nth_error recs j2 = Some rec2 ->
       lookup (w_files w) src1 = Some f1 -> lookup (w_files w) src2 = Some f2 ->
       sha256 L (f_bytes f1) = sha256 L (f_bytes f2) ->
       ev_status (payload rec1) = Some "inserted" ->
       refused cfg f2 rec2 /\ dry_run cfg = false).
Proof.
  induction queue as [|src rest IH]; intros w t Hready.
  - simpl. split; [auto|]. exists []. rewrite app_nil_r.
    split; [reflexivity|]. split; [reflexivity|]. split.
    + intros j src rec f H. destruct j; discriminate.
    + intros j1 j2 src1 src2 rec1 rec2 f1 f2 _ H. destruct j1; discriminate.
  - destruct (ready_lookup _ _ src Hready (or_introl eq_refl)) as (f0 & Hl).
    pose proof Hready as (Hself & Hnd & Hq).
    destruct (Hq src (or_introl eq_refl)) as (Hp & _).
    apply NoDup_cons_iff in Hnd as [Hnew Hnd].
    pose proof (process_file_own_move L cfg amb w t src f0 Hl Hp) as Hmv.
    pose proof (ready_step _ _ _ _ Hready Hmv) as Hready2.
    destruct (process_file_step L cfg (amb src) w t src f0 Hl Hp)
      as (st & rs & core & files' & db' & t' & E & Hname & Hst & Hf & Hkeep & Hins
          & Hdup & _ & _ & Hnotdry).
    rewrite process_queue_cons.
    set (w2 := fst (process_file L cfg (amb src) w t src)) in *.
    set (t2 := snd (process_file L cfg (amb src) w t src)) in *.
    destruct (IH w2 t2 Hready2) as (Hmono & recs & Hlog & Hlen & Hstored & Hpairs).
    set (w' := fst (process_queue L cfg amb rest (w2, t2))) in *.
    assert (Ew2 : w_log w2 = w_log w ++ [ {| payload := with_status core st rs;
                                             timestamp := amb_now (amb src) |} ]
                  /\ w_db w2 = db').
    { unfold w2. rewrite E. simpl. auto. }
    destruct Ew2 as [Elog Edb].
    assert (Hstep : forall h, Sql.SQL_HASH_EXISTS (w_db w) h = true ->
                              Sql.SQL_HASH_EXISTS (w_db w2) h = true).
    { intros h Hh. rewrite Edb.
      destruct (String.eqb_spec st "inserted") as [Est|Est].
      - destruct (Hins Est) as (parsed & r & _ & Ha).
        apply assign_and_insert_hashes in Ha as [_ Ha]. rewrite Ha, Hh. reflexivity.
      - now rewrite (Hkeep Est). }
    assert (Hsame : forall src' f, In src' rest ->
              lookup (w_files w) src' = Some f -> lookup (w_files w2) src' = Some f).
    { intros src' f Hin Hlk. rewrite <- Hlk.
      destruct Hready2 as (_ & _ & Hq2). destruct (Hq2 src' Hin) as (Hp' & _).
      eapply own_move_lookup; eauto. intros X. apply Hnew. congruence. }
    split; [auto|].
    exists ({| payload := with_status core st rs; timestamp := amb_now (amb src) |}
            :: recs).
    split; [rewrite Hlog, Elog, <- app_assoc; reflexivity|].
    split; [simpl; now rewrite Hlen|]. split.
    + intros j src' rec f Hj Hr Hlk Hh. destruct j as [|j]; simpl in Hj, Hr.
      * inversion Hj; inversion Hr; subst. assert (f = f0) by congruence. subst f0.
        destruct (Hdup Hh) as [(-> & -> & Hd)|(-> & Hd & Hb)];
          [left|right]; simpl; auto.
      * apply (Hstored j src' rec f); auto.
        apply Hsame; auto. eapply nth_error_In; eauto.
    + intros j1 j2 src1 src2 rec1 rec2 f1 f2 Hlt H1 H2 R1 R2 L1 L2 Hsha Hi.
      destruct j2 as [|j2]; [lia|]. simpl in H2, R2.
      assert (In2 : In src2 rest) by (eapply nth_error_In; eauto).
      destruct j1 as [|j1]; simpl in H1, R1.
      * inversion H1; inversion R1; subst. assert (f1 = f0) by congruence. subst f0.
        simpl in Hi. inversion Hi; subst st.
        destruct (Hins eq_refl) as (parsed & r & _ & Ha).
        apply assign_and_insert_hashes in Ha as [_ Ha].
        split; [|now apply Hnotdry].
        apply (Hstored j2 src2 rec2 f2); auto.
        rewrite ?Edb, Ha, <- Hsha, String.eqb_refl. apply orb_true_r.
      * assert (In1 : In src1 rest) by (eapply nth_error_In; eauto).
        apply (Hpairs j1 j2 src1 src2 rec1 rec2 f1 f2); auto. lia.
Qed.

(** In dry-run nothing moves and nothing is stored; the status logged for
    a file depends on the store and on the content alone. *)
Lemma queue_dry_run : dry_run cfg = true -> forall queue w t,
  (forall src, In src queue ->
     parent src = InputDir /\ exists f, lookup (w_files w) src = Some f) ->
  w_db (fst (process_queue L cfg amb queue (w, t))) = w_db w /\
  w_files (fst (process_queue L cfg amb queue (w, t))) = w_files w /\
  exists recs,
    w_log (fst (process_queue L cfg amb queue (w, t))) = w_log w ++ recs /\
    Forall2 (fun src rec =>
      ev_file_name (payload rec) = path_name src /\
      exists f, lookup (w_files w) src = Some f /\
        ev_status (payload rec)
        = Some (if Sql.SQL_HASH_EXISTS (w_db w) (sha256 L (f_bytes f))
                then "duplicate"
                else match GGSummaryParser.parse L (cfg_site cfg) (decode L (f_bytes f)) with
                     | Returns (Some _, _) => "dry_run"
                     | Returns (None, r) =>
                         if String.prefix "needs_review" (reason_or r EmptyString)
                         then "needs_review" else "error"
                     | Raises _ => "error"
                     end)) queue recs.
Proof.
  intros Hdry. induction queue as [|src rest IH]; intros w t Hq.
  - simpl. repeat split. exists []. rewrite app_nil_r. split; [reflexivity|constructor].
  - destruct (Hq src (or_introl eq_refl)) as (Hp & f0 & Hl).
    destruct (process_file_step L cfg (amb src) w t src f0 Hl Hp)
      as (st & rs & core & files' & db' & t' & E & Hname & Hst & Hf & Hkeep & _
          & Hdup & Hstat & _ & Hnotins).
    rewrite process_queue_cons.
    set (w2 := fst (process_file L cfg (amb src) w t src)) in *.
    set (t2 := snd (process_file L cfg (amb src) w t src)) in *.
    assert (Est : st <> "inserted") by (intros X; specialize (Hnotins X); congruence).
    assert (Ew2 : w_log w2 = w_log w ++ [ {| payload := with_status core st rs;
                                             timestamp := amb_now (amb src) |} ]
                  /\ w_db w2 = w_db w /\ w_files w2 = w_files w).
    { unfold w2. rewrite E. simpl. rewrite (Hkeep Est). repeat split.
      destruct Hf as (copies & _ & _ & Hnone & Hf).
      rewrite (Hnone Hdry), !app_nil_r in Hf.
      destruct Hf as [[Hf _]|(target & Ht & _ & Hag)]; [exact Hf|].
      unfold agrees in Hag. rewrite Hdry in Hag. contradiction. }
    destruct Ew2 as (Elog & Edb & Efiles).
    destruct (IH w2 t2) as (Hdb & Hfiles & recs & Hlog & HF).
    { rewrite Efiles. intros s' Hs'. apply Hq. now right. }
    rewrite Hdb, Hfiles, Edb, Efiles. repeat split.
    exists ({| payload := with_status core st rs; timestamp := amb_now (amb src) |}
            :: recs).
    split; [rewrite Hlog, Elog, <- app_assoc; reflexivity|].
    constructor.
    + split; [exact Hname|]. exists f0. split; [exact Hl|]. simpl. f_equal.
      destruct (Sql.SQL_HASH_EXISTS (w_db w) (sha256 L (f_bytes f0))) eqn:Hh.
      * destruct (Hdup eq_refl) as [(-> & _)|(_ & X & _)]; [reflexivity|congruence].
      * specialize (Hstat Hdry eq_refl).
        destruct (GGSummaryParser.parse L (cfg_site cfg) (decode L (f_bytes f0)))
          as [[[p|] r]|e]; exact Hstat.
    + rewrite Edb, Efiles in HF. exact HF.
Qed.

End Hashes.

(* ================================================================= *)
(** ** The whole run *)

Section WholeRun.

Variable L : PyLib.
Variable cfg : ImportConfig.
Variable amb : Path -> ambient.

Lemma insert_by_perm {A : Type} (le : A -> A -> bool) (x : A) (l : list A) :
  Permutation (insert_by le x l) (x :: l).
Proof.
  induction l as [|y l IH]; simpl; [apply Permutation_refl|].
  destruct (le x y); [apply Permutation_refl|].
  apply perm_trans with (y :: x :: l); [now apply perm_skip | apply perm_swap].
Qed.

Lemma sort_by_perm {A : Type} (le : A -> A -> bool) (l : list A) :
  Permutation (sort_by le l) l.
Proof.
  unfold sort_by. induction l as [|x l IH]; simpl; [constructor|].
  apply perm_trans with (x :: fold_right (insert_by le) [] l).
  - apply insert_by_perm.
  - now apply perm_skip.
Qed.

(** The queue holds the input files, each once. *)
Lemma file_queue_perm files :
  Permutation (file_queue L cfg files) (input_paths L cfg files).
Proof.
  unfold file_queue.
  apply perm_trans with
    (map snd (map (fun p => (pre_parse L cfg files p, p)) (list_input_files L cfg files))).
  - apply Permutation_map, sort_by_perm.
  - rewrite map_map. simpl. rewrite map_id. apply sort_by_perm.
Qed.

Lemma in_input_paths files src :
  In src (input_paths L cfg files) ->
  parent src = InputDir /\ exists f, In f files /\ f_path f = src.
Proof.
  unfold input_paths. intros H. apply filter_In in H as [Hin Hp].
  apply andb_true_iff in Hp as [Hp _]. apply folder_eqb_eq in Hp.
  split; [exact Hp|]. apply in_map_iff in Hin as (f & Hf & Hin). eauto.
Qed.

Lemma ready_queue files :
  NoDup (map f_path files) -> ready files (file_queue L cfg files).
Proof.
  intros Hnd. split; [now apply NoDup_paths_self_found|]. split.
  - apply (Permutation_NoDup (Permutation_sym (file_queue_perm files))).
    unfold input_paths. now apply NoDup_filter.
  - intros src Hin. apply in_input_paths.
    now apply (Permutation_in _ (file_queue_perm files)).
Qed.

Lemma lookup_exists files f :
  In f files -> exists g, lookup files (f_path f) = Some g.
Proof.
  intros Hin. unfold lookup.
  destruct (find (fun g => path_eqb (f_path g) (f_path f)) files) as [g|] eqn:E; [eauto|].
  pose proof (find_none _ _ E f Hin) as X. simpl in X.
  now rewrite path_eqb_refl in X.
Qed.

Lemma queue_files_exist files src :
  In src (file_queue L cfg files) ->
  parent src = InputDir /\ exists f, lookup files src = Some f.
Proof.
  intros Hin. apply (Permutation_in _ (file_queue_perm files)) in Hin.
  apply in_input_paths in Hin as (Hp & f & Hf & <-).
  split; [exact Hp|]. now apply lookup_exists.
Qed.

Lemma Forall2_nth_error {A B : Type} (P : A -> B -> Prop) (l : list A) (l' : list B) :
  Forall2 P l l' -> forall j x y,
  nth_error l j = Some x -> nth_error l' j = Some y -> P x y.
Proof.
  induction 1 as [|a b l l' Hab HF IH]; intros j x y Hx Hy.
  - destruct j; discriminate.
  - destruct j as [|j]; simpl in Hx, Hy.
    + inversion Hx; inversion Hy; subst. exact Hab.
    + eapply IH; eauto.
Qed.

End WholeRun.

(* ================================================================= *)
(** ** The order of the queue *)

Section QueueOrder.

Lemma insert_by_sorted {A : Type} (le : A -> A -> bool) (x : A) (l : list A) :
  (forall a b, le a b = false -> le b a = true) ->
  Sorted (fun a b => le a b = true) l ->
  Sorted (fun a b => le a b = true) (insert_by le x l).
Proof.
  intros Htotal. induction l as [|y l IH]; intros Hs; simpl.
  - repeat constructor.
  - destruct (le x y) eqn:E.
    + constructor; [exact Hs|]. constructor. exact E.
    + apply Sorted_inv in Hs as [Hs Hhd]. constructor; [now apply IH|].
      destruct l as [|z l]; simpl.
      * constructor. now apply Htotal.
      * destruct (le x z); constructor; [now apply Htotal|].
        now inversion Hhd.
Qed.

Lemma sort_by_sorted {A : Type} (le : A -> A -> bool) (l : list A) :
  (forall a b, le a b = false -> le b a = true) ->
  Sorted (fun a b => le a b = true) (sort_by le l).
Proof.
  intros Htotal. unfold sort_by. induction l as [|x l IH]; simpl.
  - constructor.
  - now apply insert_by_sorted.
Qed.

Lemma key_le_total (a b : option Z * Path) : key_le a b = false -> key_le b a = true.
Proof.
  unfold key_le. destruct (fst a), (fst b); try discriminate; try reflexivity.
  intros H. apply Z.leb_gt in H. apply Z.leb_le. lia.
Qed.

(** Phase 2 leaves the files in ascending order of the pre-parsed
    timestamp, those without one last. *)
Lemma file_queue_sorted (L : PyLib) (cfg : ImportConfig) (files : list file) :
  Sorted (fun a b => key_le a b = true)
         (sort_by key_le (map (fun p => (pre_parse L cfg files p, p))
                              (list_input_files L cfg files))).
Proof. apply sort_by_sorted. exact key_le_total. Qed.

End QueueOrder.


(* ================================================================= *)
(** ** Properties of the parser and of the pipeline *)

(** C9. Whatever the text and the site, a record that [parse] returns has
    the hero name "Hero" and the currency "USD"; neither is read from the
    text. *)
Theorem parse_fixed_hero_and_currency (L : PyLib) (st text : string)
    (p : ParsedTournament) (r : option string) :
  GGSummaryParser.parse L st text = Returns (Some p, r) ->
  hero_name p = "Hero" /\ currency p = "USD".
Proof.
  unfold GGSummaryParser.parse. intros H.
  repeat match type of H with
         | match ?x with _ => _ end = _ => destruct x; try discriminate
         end.
  inversion H; subst. simpl. split; reflexivity.
Qed.

Lemma parse_fixed_hero_and_currency_witness :
  GGSummaryParser.parse Sample.lib "GG" Sample.doc_1
  = Returns (Some (Sample.parsed_1), None) /\
  (hero_name Sample.parsed_1 = "Hero" /\ currency Sample.parsed_1 = "USD").
Proof.
  split; [reflexivity|].
  exact (parse_fixed_hero_and_currency Sample.lib "GG" Sample.doc_1
           Sample.parsed_1 None eq_refl).
Defined.

(** C4 as stated fails: of two files with the same content the first is
    inserted; moving the second into the duplicate folder raises, and it
    is logged as error and stays in the input directory. *)
Lemma held_copy_logged_as_error :
  let w' := fst (run Sample.lib (Sample.cfg false) Sample.amb
                     (Sample.start second_copy_held)) in
  map f_bytes second_copy_held = [Sample.doc_1; Sample.doc_1] /\
  map (fun r => (ev_file_name (payload r), ev_status (payload r), ev_reason (payload r)))
      (w_log w')
  = [("a.txt", Some "inserted", Some "ok");
     ("b.txt", Some "error", Some "fatal:PermissionError")] /\
  map (fun f => parent (f_path f)) (w_files w') = [ProcessedDir; InputDir].
Proof. repeat split. Qed.

(** C4, amended.  In a run, when a file has been inserted, every file
    with the same content that is processed after it is turned away by
    the hash pre-check: it is logged as duplicate with reason hash_exists
    and is in the duplicate folder afterwards, unless moving it there
    raises, in which case it is logged as error.  It is not inserted, and
    every file of the queue gets its record.  A file whose content hash is
    in the store when the run starts is turned away in the same way (in
    dry-run it is logged as duplicate and stays where it is). *)
Theorem same_content_inserted_once (L : PyLib) (cfg : ImportConfig)
    (amb : Path -> ambient) (w : world) :
  NoDup (map f_path (w_files w)) ->
  exists recs,
    w_log (fst (run L cfg amb w)) = w_log w ++ recs /\
    List.length recs = List.length (file_queue L cfg (w_files w)) /\
    (forall j1 j2 src1 src2 rec1 rec2 f1 f2 i2,
       (j1 < j2)%nat ->
       nth_error (file_queue L cfg (w_files w)) j1 = Some src1 ->
       nth_error (file_queue L cfg (w_files w)) j2 = Some src2 ->
       nth_error recs j1 = Some rec1 -> nth_error recs j2 = Some rec2 ->
       lookup (w_files w) src1 = Some f1 ->
       nth_error (w_files w) i2 = Some f2 -> f_path f2 = src2 ->
       f_bytes f1 = f_bytes f2 ->
       ev_status (payload rec1) = Some "inserted" ->
       dry_run cfg = false /\
       ev_status (payload rec2) <> Some "inserted" /\
       turned_away cfg (w_files (fst (run L cfg amb w))) i2 f2 rec2) /\
    (forall j src rec f i,
       nth_error (file_queue L cfg (w_files w)) j = Some src ->
       nth_error recs j = Some rec ->
       nth_error (w_files w) i = Some f -> f_path f = src ->
       Sql.SQL_HASH_EXISTS (w_db w) (sha256 L (f_bytes f)) = true ->
       turned_away cfg (w_files (fst (run L cfg amb w))) i f rec).
Proof.
  intros Hnd. pose proof (ready_queue L cfg _ Hnd) as Hready.
  destruct (queue_hashes L cfg amb _ w no_counts Hready)
    as (_ & recs & Hlog & Hlen & Hstored & Hpairs).
  destruct (queue_placement L cfg amb _ w no_counts Hready)
    as ((recs' & Hlog' & HF & _) & _).
  fold (run L cfg amb w) in *.
  assert (recs' = recs) by (rewrite Hlog in Hlog'; now apply app_inv_head in Hlog').
  subst recs'.
  assert (Hlook : forall j src i f,
            nth_error (file_queue L cfg (w_files w)) j = Some src ->
            nth_error (w_files w) i = Some f -> f_path f = src ->
            lookup (w_files w) src = Some f).
  { intros j src i f Hj Hi Hpath. destruct Hready as (Hself & _ & Hq).
    destruct (Hq src (nth_error_In _ _ Hj)) as (Hp & _).
    rewrite <- Hpath. apply Hself; [eapply nth_error_In; eauto|congruence]. }
  assert (Hturn : forall j src rec i f,
            nth_error (file_queue L cfg (w_files w)) j = Some src ->
            nth_error recs j = Some rec ->
            nth_error (w_files w) i = Some f -> f_path f = src ->
            refused cfg f rec ->
            turned_away cfg (w_files (fst (run L cfg amb w))) i f rec).
  { intros j src rec i f Hj Hr Hi Hpath [(Hs & Hrs & Hd)|(Hs & Hd & Hbl)].
    - left. split; [exact Hs|]. split; [exact Hrs|].
      destruct (Forall2_nth_error _ _ _ HF j src rec Hj Hr) as (_ & Hplace).
      destruct (Hplace i f Hi Hpath) as (st & f' & Est & _ & Hn & Hby & Hag).
      assert (st = "duplicate") by congruence. subst st.
      exists f'. split; [exact Hn|]. split; [exact Hby|].
      unfold agrees in Hag. destruct (dry_run cfg); [exact Hag|].
      destruct Hag as [(X & _)|[(_ & Hdir)|[(X & _)|(X & _)]]];
        [discriminate X | exact Hdir | discriminate X | discriminate X].
    - right. auto. }
  exists recs. split; [exact Hlog|]. split; [exact Hlen|]. split.
  - intros j1 j2 src1 src2 rec1 rec2 f1 f2 i2 Hlt H1 H2 R1 R2 L1 N2 P2 Hb Hi.
    pose proof (Hlook j2 src2 i2 f2 H2 N2 P2) as L2.
    assert (Hsha : sha256 L (f_bytes f1) = sha256 L (f_bytes f2)) by now rewrite Hb.
    destruct (Hpairs j1 j2 src1 src2 rec1 rec2 f1 f2 Hlt H1 H2 R1 R2 L1 L2 Hsha Hi)
      as [Href Hdry].
    split; [exact Hdry|]. split.
    + destruct Href as [(Hs & _)|(Hs & _)]; rewrite Hs; discriminate.
    + exact (Hturn j2 src2 rec2 i2 f2 H2 R2 N2 P2 Href).
  - intros j src rec f i Hj Hr Hi Hpath Hh.
    apply (Hturn j src rec i f Hj Hr Hi Hpath).
    exact (Hstored j src rec f Hj Hr (Hlook j src i f Hj Hi Hpath) Hh).
Qed.

Lemma same_content_inserted_once_witness :
  NoDup (map f_path (w_files (Sample.start twice_the_same))) /\
  exists recs,
    w_log (fst (run Sample.lib (Sample.cfg false) Sample.amb (Sample.start twice_the_same)))
    = w_log (Sample.start twice_the_same) ++ recs /\
    List.length recs
    = List.length (file_queue Sample.lib (Sample.cfg false)
                              (w_files (Sample.start twice_the_same))).
Proof.
  assert (H : NoDup (map f_path (w_files (Sample.start twice_the_same)))).
  { simpl. repeat constructor; simpl; intuition discriminate. }
  split; [exact H|].
  destruct (same_content_inserted_once Sample.lib (Sample.cfg false) Sample.amb
              (Sample.start twice_the_same) H) as (recs & Hlog & Hlen & _).
  exists recs. split; [exact Hlog | exact Hlen].
Defined.

(** Two files with the same content: the first is inserted, the second
    is a duplicate. *)
Example twice_the_same_run :
  let w' := fst (run Sample.lib (Sample.cfg false) Sample.amb
                     (Sample.start twice_the_same)) in
  map (fun r => (ev_file_name (payload r), ev_status (payload r), ev_reason (payload r)))
      (w_log w')
  = [("a.txt", Some "inserted", Some "ok");
     ("b.txt", Some "duplicate", Some "hash_exists")] /\
  map (fun f => parent (f_path f)) (w_files w') = [ProcessedDir; DuplicateDir] /\
  List.length (w_db w') = 1%nat.
Proof. repeat split. Qed.

(** C5 as stated fails: outside dry-run, a file that cannot be moved is
    logged as error and is left in the input directory. *)
Lemma held_file_left_in_input :
  let w' := fst (run Sample.lib (Sample.cfg false) Sample.amb
                     (Sample.start held_not_a_summary)) in
  dry_run (Sample.cfg false) = false /\
  map (fun r => (ev_file_name (payload r), ev_status (payload r))) (w_log w')
  = [("g.txt", Some "error")] /\
  map (fun f => parent (f_path f)) (w_files w') = [InputDir].
Proof. repeat split. Qed.

(** C5, amended.  The queue holds every input file once, and a run
    appends one record per file of the queue, in the order of the queue,
    with the name of the file and one of the five statuses.  Afterwards
    the file is in the folder of its status: processed for inserted,
    duplicate for duplicate, needs-review for needs_review and for error.
    The exceptions: in dry-run every file stays in the input directory;
    outside dry-run a file logged as error stays in the input directory
    when moving it into the needs-review folder raises, and is in the
    processed folder when the commit raised after the file had been moved
    there.  Besides the files that were there, each at its place, the
    listing then holds only what moves that raised have left behind: such
    a file is in a folder other than the input directory, into which a
    move of a file logged as error raises, and it has the content that
    this move leaves there; so a file logged as error may be in the input
    directory and have copies in the other folders. *)
Theorem every_file_logged_once_and_placed (L : PyLib) (cfg : ImportConfig)
    (amb : Path -> ambient) (w : world) :
  NoDup (map f_path (w_files w)) ->
  Permutation (file_queue L cfg (w_files w)) (input_paths L cfg (w_files w)) /\
  exists recs,
    w_log (fst (run L cfg amb w)) = w_log w ++ recs /\
    Forall2 (placed cfg amb (w_files w) (w_files (fst (run L cfg amb w))))
            (file_queue L cfg (w_files w)) recs /\
    exists kept copies,
      w_files (fst (run L cfg amb w)) = kept ++ copies /\
      List.length kept = List.length (w_files w) /\
      Forall (left_in_run (w_files w) (file_queue L cfg (w_files w)) recs) copies.
Proof.
  intros Hnd. split; [apply file_queue_perm|].
  exact (proj1 (queue_placement L cfg amb _ w no_counts (ready_queue L cfg _ Hnd))).
Qed.

Lemma every_file_logged_once_and_placed_witness :
  NoDup (map f_path (w_files (Sample.start three_files))) /\
  (Permutation (file_queue Sample.lib (Sample.cfg false) (w_files (Sample.start three_files)))
               (input_paths Sample.lib (Sample.cfg false) (w_files (Sample.start three_files))) /\
   exists recs,
     w_log (fst (run Sample.lib (Sample.cfg false) Sample.amb (Sample.start three_files)))
     = w_log (Sample.start three_files) ++ recs /\
     Forall2 (placed (Sample.cfg false) Sample.amb (w_files (Sample.start three_files))
                (w_files (fst (run Sample.lib (Sample.cfg false) Sample.amb
                                   (Sample.start three_files)))))
             (file_queue Sample.lib (Sample.cfg false) (w_files (Sample.start three_files)))
             recs /\
     exists kept copies,
       w_files (fst (run Sample.lib (Sample.cfg false) Sample.amb
                         (Sample.start three_files))) = kept ++ copies /\
       List.length kept = List.length (w_files (Sample.start three_files)) /\
       Forall (left_in_run (w_files (Sample.start three_files))
                 (file_queue Sample.lib (Sample.cfg false)
                             (w_files (Sample.start three_files))) recs) copies).
Proof.
  assert (H : NoDup (map f_path (w_files (Sample.start three_files)))).
  { simpl. repeat constructor; simpl; intuition discriminate. }
  split; [exact H|].
  exact (every_file_logged_once_and_placed Sample.lib (Sample.cfg false) Sample.amb
           (Sample.start three_files) H).
Defined.

(** A file that cannot be removed from the input directory: both moves
    raise after copying, the record says error, and the file is in the
    input directory, in the processed folder and in the needs-review
    folder. *)
Example stuck_file_is_in_three_folders :
  let w' := fst (run Sample.lib (Sample.cfg false) Sample.amb
                     (Sample.start [Sample.stuck_file "a" Sample.doc_1])) in
  map (fun r => (ev_file_name (payload r), ev_status (payload r), ev_reason (payload r)))
      (w_log w')
  = [("a.txt", Some "error", Some "move_failed_or_db_error:PermissionError")] /\
  map (fun f => (parent (f_path f), path_name (f_path f), f_bytes f)) (w_files w')
  = [(InputDir, "a.txt", Sample.doc_1); (ProcessedDir, "a.txt", Sample.doc_1);
     (NeedsReviewDir, "a.txt", Sample.doc_1)] /\
  w_db w' = [].
Proof. repeat split. Qed.

(** A commit that raises after the move: the file is in the processed
    folder, nothing is stored, and the record says error. *)
Example commit_fails_after_move :
  let w' := fst (run Sample.lib (Sample.cfg false)
                     (Sample.amb_failing "a" "IntegrityError")
                     (Sample.start [Sample.input_file "a" Sample.doc_1])) in
  map (fun r => (ev_file_name (payload r), ev_status (payload r), ev_reason (payload r)))
      (w_log w')
  = [("a.txt", Some "error", Some "fatal:FileNotFoundError")] /\
  map (fun f => parent (f_path f)) (w_files w') = [ProcessedDir] /\
  w_db w' = [].
Proof. repeat split. Qed.

(** The scenario of the spec: files at T, T+10m and T+5m are processed by
    timestamp and end with indices 1, 3 and 2 in one session. *)
Example three_files_run :
  let w' := fst (run Sample.lib (Sample.cfg false) Sample.amb (Sample.start three_files)) in
  map path_name (file_queue Sample.lib (Sample.cfg false) three_files)
  = ["a.txt"; "c.txt"; "b.txt"] /\
  map (fun r => (source_file_name r, row_ts r, session_id r, session_tournament_index r))
      (w_db w')
  = [("a.txt", 72000, Some "u-a", 1); ("c.txt", 72300, Some "u-a", 2);
     ("b.txt", 72600, Some "u-a", 3)] /\
  map (fun f => parent (f_path f)) (w_files w')
  = [ProcessedDir; ProcessedDir; ProcessedDir].
Proof. repeat split. Qed.

(** C6 as stated fails: in dry-run, a file without a tournament header is
    logged with status error, not dry_run. *)
Lemma dry_run_logs_other_statuses :
  let w' := fst (run Sample.lib (Sample.cfg true) Sample.amb
                     (Sample.start not_a_summary)) in
  dry_run (Sample.cfg true) = true /\
  map (fun r => (ev_file_name (payload r), ev_status (payload r), ev_reason (payload r)))
      (w_log w')
  = [("e.txt", Some "error", Some "parse_error:missing_tournament_header")].
Proof. repeat split. Qed.

(** C6, amended.  In dry-run a run leaves the listing and the store as
    they were and appends one record per file of the queue.  The status
    is dry_run exactly when the content hash is not stored and the content
    parses; it is duplicate when the hash is stored, and needs_review or
    error when the hash is not stored and the content does not parse. *)
Theorem dry_run_touches_nothing (L : PyLib) (cfg : ImportConfig)
    (amb : Path -> ambient) (w : world) :
  dry_run cfg = true ->
  w_db (fst (run L cfg amb w)) = w_db w /\
  w_files (fst (run L cfg amb w)) = w_files w /\
  exists recs,
    w_log (fst (run L cfg amb w)) = w_log w ++ recs /\
    Forall2 (fun src rec =>
      ev_file_name (payload rec) = path_name src /\
      exists f, lookup (w_files w) src = Some f /\
        let stored := Sql.SQL_HASH_EXISTS (w_db w) (sha256 L (f_bytes f)) in
        let parsed := GGSummaryParser.parse L (cfg_site cfg) (decode L (f_bytes f)) in
        (ev_status (payload rec) = Some "dry_run" <->
         stored = false /\ exists p r, parsed = Returns (Some p, r)) /\
        (stored = true -> ev_status (payload rec) = Some "duplicate") /\
        (stored = false -> (forall p r, parsed <> Returns (Some p, r)) ->
         ev_status (payload rec) = Some "needs_review" \/
         ev_status (payload rec) = Some "error"))
      (file_queue L cfg (w_files w)) recs.
Proof.
  intros Hdry.
  destruct (queue_dry_run L cfg amb Hdry (file_queue L cfg (w_files w)) w no_counts)
    as (Hdb & Hfiles & recs & Hlog & HF).
  { intros src Hin. eapply queue_files_exist; eauto. }
  fold (run L cfg amb w) in *.
  split; [exact Hdb|]. split; [exact Hfiles|].
  exists recs. split; [exact Hlog|].
  eapply Forall2_impl; [|exact HF].
  intros src rec (Hname & f & Hl & Hst). split; [exact Hname|].
  exists f. split; [exact Hl|]. cbv zeta. rewrite Hst.
  destruct (Sql.SQL_HASH_EXISTS (w_db w) (sha256 L (f_bytes f))).
  - split; [|split].
    + split; [discriminate|]. intros [X _]. discriminate.
    + reflexivity.
    + discriminate.
  - destruct (GGSummaryParser.parse L (cfg_site cfg) (decode L (f_bytes f)))
      as [[[p|] r]|e].
    + split; [|split].
      * split; [intros _; split; eauto | reflexivity].
      * discriminate.
      * intros _ X. exfalso. eapply X; reflexivity.
    + split; [|split].
      * split.
        -- destruct (String.prefix "needs_review" (reason_or r EmptyString)); discriminate.
        -- intros (_ & p & r' & X). discriminate.
      * discriminate.
      * intros _ _.
        destruct (String.prefix "needs_review" (reason_or r EmptyString)); auto.
    + split; [|split].
      * split; [discriminate|]. intros (_ & p & r' & X). discriminate.
      * discriminate.
      * auto.
Qed.

Lemma dry_run_touches_nothing_witness :
  dry_run (Sample.cfg true) = true /\
  w_db (fst (run Sample.lib (Sample.cfg true) Sample.amb (Sample.start three_files)))
  = w_db (Sample.start three_files) /\
  w_files (fst (run Sample.lib (Sample.cfg true) Sample.amb (Sample.start three_files)))
  = w_files (Sample.start three_files).
Proof.
  split; [reflexivity|].
  pose proof (dry_run_touches_nothing Sample.lib (Sample.cfg true) Sample.amb
                (Sample.start three_files) eq_refl) as (Hdb & Hfiles & _).
  split; [exact Hdb | exact Hfiles].
Defined.

(* ================================================================= *)
(** ** Further properties of the session assigner *)

Section LookupFacts.

Lemma within_gap_qualifies db st ts gap r :
  In r db -> row_site r = st -> distance r ts <= gap ->
  Sql.prev_within_gap st ts gap r = true \/ Sql.next_within_gap st ts gap r = true.
Proof.
  intros Hr Hs Hd. unfold distance in Hd.
  destruct (Z.le_gt_cases (row_ts r) ts).
  - left. apply prev_within_gap_iff. repeat split; auto. lia.
  - right. apply next_within_gap_iff. repeat split; auto; lia.
Qed.

Lemma qualifies_within_gap st ts gap r :
  Sql.prev_within_gap st ts gap r = true \/ Sql.next_within_gap st ts gap r = true ->
  row_site r = st /\ distance r ts <= gap.
Proof.
  unfold distance. intros [H|H].
  - apply prev_within_gap_iff in H. split; [tauto|lia].
  - apply next_within_gap_iff in H. split; [tauto|lia].
Qed.

(** With a session id on every row, a row that qualifies on either side
    makes the lookup return a session. *)
Lemma neighbour_found db st ts gap_minutes r :
  forallb has_session db = true ->
  In r db ->
  Sql.prev_within_gap st ts (timedelta_minutes gap_minutes) r = true \/
  Sql.next_within_gap st ts (timedelta_minutes gap_minutes) r = true ->
  fst (find_existing_session_within_gap db st ts gap_minutes) <> None.
Proof.
  intros Hall Hr Hq. rewrite forallb_forall in Hall.
  destruct (Sql.SQL_PREV_WITHIN_GAP db st ts (timedelta_minutes gap_minutes))
    as [p|] eqn:Ep.
  - pose proof Ep as Ep'. unfold Sql.SQL_PREV_WITHIN_GAP in Ep'.
    apply order_desc_limit_1_some in Ep' as [Hin _].
    apply filter_In in Hin as [Hin _].
    rewrite (find_existing_prev _ _ _ _ _ Ep (Hall p Hin)). simpl.
    apply (has_session_truthy p (Hall p Hin)).
  - destruct (Sql.SQL_NEXT_WITHIN_GAP db st ts (timedelta_minutes gap_minutes))
      as [n|] eqn:En.
    + pose proof En as En'. unfold Sql.SQL_NEXT_WITHIN_GAP in En'.
      apply order_asc_limit_1_some in En' as [Hin _].
      apply filter_In in Hin as [Hin _].
      rewrite (find_existing_next _ _ _ _ _ Ep En (Hall n Hin)). simpl.
      apply (has_session_truthy n (Hall n Hin)).
    + exfalso. destruct Hq as [Hq|Hq].
      * rewrite (proj1 (prev_none_iff _ _ _ _) Ep r Hr) in Hq. discriminate.
      * rewrite (proj1 (next_none_iff _ _ _ _) En r Hr) in Hq. discriminate.
Qed.

End LookupFacts.

(** X1. In a store whose rows all carry a session id, the lookup finds no
    session exactly when every row of the site is farther than the gap
    from the event: one row of the site within the gap, before or after,
    is enough for the event to join a stored session. *)
Theorem no_session_iff_no_neighbour (db : table) (st : string) (ts gap_minutes : Z) :
  forallb has_session db = true ->
  (fst (find_existing_session_within_gap db st ts gap_minutes) = None <->
   forall r, In r db -> row_site r = st ->
             timedelta_minutes gap_minutes < distance r ts).
Proof.
  intros Hall. split.
  - intros Hnone r Hr Hs.
    destruct (Z.lt_ge_cases (timedelta_minutes gap_minutes) (distance r ts))
      as [|Hle]; [assumption|].
    exfalso. apply (neighbour_found db st ts gap_minutes r Hall Hr); [|exact Hnone].
    apply (within_gap_qualifies db); auto.
  - intros Hfar. now rewrite far_from_all_none.
Qed.

Lemma no_session_iff_no_neighbour_witness :
  forallb has_session (replay two_sessions) = true /\
  (fst (find_existing_session_within_gap (replay two_sessions) "GG" 12000 60) = None <->
   forall r, In r (replay two_sessions) -> row_site r = "GG" ->
             timedelta_minutes 60 < distance r 12000).
Proof.
  split; [reflexivity|].
  exact (no_session_iff_no_neighbour (replay two_sessions) "GG" 12000 60 eq_refl).
Defined.

(** X2. [ensure_session_and_index] either returns the minted id with the
    event's timestamp and index 1 and leaves the table as it is, or
    returns the session id of a stored row of the same site that is
    within the gap of the event; the index it returns is then between 1
    and one more than the number of rows, and the table keeps its
    length. *)
Theorem ensure_mints_or_joins_neighbour (db : table) (st : string)
    (ts gap_minutes : Z) (uuid4 : string) (now : Z) :
  let out := ensure_session_and_index db st ts gap_minutes uuid4 now in
  (out = ((uuid4, Some ts, 1), db)) \/
  (exists r, In r db /\ row_site r = st /\
             session_id r = Some (fst (fst (fst out))) /\
             distance r ts <= timedelta_minutes gap_minutes /\
             1 <= snd (fst out) <= 1 + Z.of_nat (List.length db) /\
             List.length (snd out) = List.length db).
Proof.
  cbv zeta.
  destruct (find_existing_session_within_gap db st ts gap_minutes)
    as [[sid|] start] eqn:F.
  - right. rewrite (ensure_when_some _ _ _ _ _ _ _ _ F). cbn [fst snd].
    apply find_existing_some in F as (r & Hr & Hs & Hsid & _ & _ & Hq).
    exists r. apply qualifies_within_gap in Hq as [_ Hd].
    split; [exact Hr|]. split; [exact Hs|]. split; [exact Hsid|].
    split; [exact Hd|]. split.
    + unfold Sql.SQL_COUNT_BEFORE_IN_SESSION.
      pose proof (filter_length_le
                    (fun r => Sql.in_session st sid r && (row_ts r <? ts)) db).
      lia.
    + unfold Sql.SQL_BUMP_INDICES_AT_OR_AFTER_TS. apply length_map.
  - left. exact (ensure_when_none _ _ _ _ _ _ _ F).
Qed.

(** X3. With a negative gap no row qualifies: every event gets the minted
    id, its own timestamp as session start and index 1, and the table is
    left as it is, even when a row with the same timestamp is stored. *)
Theorem negative_gap_always_mints (db : table) (st : string)
    (ts gap_minutes : Z) (uuid4 : string) (now : Z) :
  gap_minutes < 0 ->
  ensure_session_and_index db st ts gap_minutes uuid4 now
  = ((uuid4, Some ts, 1), db).
Proof.
  intros Hneg. apply (ensure_when_none _ _ _ _ _ _ None).
  apply far_from_all_none. intros r _ _.
  unfold timedelta_minutes, distance. lia.
Qed.

Lemma negative_gap_always_mints_witness :
  -1 < 0 /\
  ensure_session_and_index (replay one_event) "GG" 3600 (-1) "u2" 90000
  = (("u2", Some 3600, 1), replay one_event).
Proof.
  split; [reflexivity|].
  exact (negative_gap_always_mints (replay one_event) "GG" 3600 (-1) "u2" 90000
           eq_refl).
Defined.

(* ================================================================= *)
(** ** Further properties of a store *)

Section StoreHistory.

Lemma kept_refl (r : row) : kept r r.
Proof. unfold kept. repeat split; lia. Qed.

Lemma kept_trans (a b c : row) : kept a b -> kept b c -> kept a c.
Proof.
  unfold kept. intros (A1 & A2 & A3 & A4 & A5 & A6 & A7) (B1 & B2 & B3 & B4 & B5 & B6 & B7).
  repeat split; try congruence. lia.
Qed.

Lemma kept_bump now r : kept r (Sql.bump now r).
Proof. unfold kept. simpl. repeat split. lia. Qed.

Lemma Forall2_kept_refl (db : table) : Forall2 kept db db.
Proof. induction db; constructor; auto using kept_refl. Qed.

Lemma Forall2_kept_trans (a b c : table) :
  Forall2 kept a b -> Forall2 kept b c -> Forall2 kept a c.
Proof.
  intros H. revert c. induction H as [|x y a b Hxy Hab IH]; intros c Hc.
  - inversion Hc. constructor.
  - inversion Hc as [|y' z b' c' Hyz Hbc]; subst. constructor.
    + eapply kept_trans; eauto.
    + now apply IH.
Qed.

Lemma Forall2_kept_ensure db st ts gap_minutes uuid4 now :
  Forall2 kept db (snd (ensure_session_and_index db st ts gap_minutes uuid4 now)).
Proof.
  unfold ensure_session_and_index.
  destruct (find_existing_session_within_gap db st ts gap_minutes) as [[sid|] start];
    simpl; [|apply Forall2_kept_refl].
  unfold Sql.SQL_BUMP_INDICES_AT_OR_AFTER_TS.
  induction db as [|r db IH]; simpl; constructor; [|exact IH].
  destruct (Sql.in_session st sid r && (ts <=? row_ts r));
    [apply kept_bump | apply kept_refl].
Qed.

Lemma ensure_index_positive db st ts gap_minutes uuid4 now :
  1 <= snd (fst (ensure_session_and_index db st ts gap_minutes uuid4 now)).
Proof.
  unfold ensure_session_and_index, Sql.SQL_COUNT_BEFORE_IN_SESSION.
  destruct (find_existing_session_within_gap db st ts gap_minutes) as [[sid|] start];
    cbn [fst snd]; lia.
Qed.

Lemma kept_stored_from i a b : kept a b -> stored_from i a -> stored_from i b.
Proof.
  unfold kept, stored_from. intros (A1 & A2 & A3 & A4 & A5 & A6 & A7) (B1 & B2 & B3 & B4).
  repeat split; congruence.
Qed.

(** One transaction keeps the stored rows and adds at most one row, the
    row of the insertion. *)
Lemma run_insertion_keeps db i :
  exists old added,
    run_insertion db i = old ++ added /\ Forall2 kept db old /\
    (added = [] \/ exists r, added = [r] /\ stored_from i r).
Proof.
  unfold run_insertion, assign_and_insert.
  pose proof (Forall2_kept_ensure db (site (ins_result i))
                (tournament_start_ts_local (ins_result i)) (ins_gap_minutes i)
                (ins_uuid4 i) (ins_now i)) as Hk.
  destruct (ensure_session_and_index db (site (ins_result i))
              (tournament_start_ts_local (ins_result i)) (ins_gap_minutes i)
              (ins_uuid4 i) (ins_now i)) as [[[sid sstart] sindex] db1].
  simpl in Hk. unfold Sql.SQL_INSERT_TOURNAMENT.
  destruct (Sql.SQL_HASH_EXISTS db1 (ins_file_hash i)).
  - exists db, []. rewrite app_nil_r. split; [reflexivity|].
    split; [apply Forall2_kept_refl | now left].
  - eexists db1, [_]. split; [reflexivity|]. split; [exact Hk|].
    right. eexists. split; [reflexivity|]. unfold stored_from. simpl. tauto.
Qed.

Lemma fold_insertions_keep l : forall db,
  exists old added,
    fold_left run_insertion l db = old ++ added /\ Forall2 kept db old /\
    (List.length added <= List.length l)%nat /\
    Forall (fun r => exists i, In i l /\ stored_from i r) added.
Proof.
  induction l as [|i l IH]; intros db; simpl.
  - exists db, []. rewrite app_nil_r. split; [reflexivity|].
    split; [apply Forall2_kept_refl|]. split; [simpl; lia | constructor].
  - destruct (run_insertion_keeps db i) as (old1 & add1 & E1 & K1 & A1).
    destruct (IH (run_insertion db i)) as (old2 & add2 & E2 & K2 & A2 & F2).
    rewrite E1 in K2. apply Forall2_app_inv_l in K2 as (o2a & o2b & Ka & Kb & ->).
    exists o2a, (o2b ++ add2). split; [now rewrite E2, app_assoc|].
    split; [eapply Forall2_kept_trans; eauto|].
    split.
    + apply Forall2_length in Kb. rewrite length_app.
      destruct A1 as [->|(r & -> & _)]; simpl in Kb; lia.
    + apply Forall_app. split.
      * destruct A1 as [->|(r & -> & Hr)].
        -- inversion Kb. constructor.
        -- inversion Kb as [|? y ? ? Hy Hnil]; subst. inversion Hnil; subst.
           constructor; [|constructor]. exists i. split; [now left|].
           eapply kept_stored_from; eauto.
      * eapply Forall_impl; [|exact F2].
        intros r (j & Hj & Hr). exists j. split; [now right | exact Hr].
Qed.

Lemma same_session_sym a b : same_session a b = same_session b a.
Proof.
  unfold same_session. rewrite String.eqb_sym. f_equal.
  destruct (session_id a), (session_id b); try reflexivity. apply String.eqb_sym.
Qed.

Lemma same_session_kept a a' b b' :
  kept a a' -> kept b b' -> same_session a' b' = same_session a b.
Proof.
  unfold kept, same_session, row_site.
  intros (A1 & _ & _ & A4 & _) (B1 & _ & _ & B4 & _). now rewrite A1, A4, B1, B4.
Qed.

Lemma renumbers_kept a a' b b' :
  kept a a' -> kept b b' -> renumbers a' b' = renumbers a b.
Proof.
  intros Ha Hb. unfold renumbers. rewrite (same_session_kept a a' b b' Ha Hb).
  unfold row_ts. destruct Ha as (-> & _), Hb as (-> & _). reflexivity.
Qed.

Lemma precedes_kept a a' b b' :
  kept a a' -> kept b b' -> precedes a' b' = precedes a b.
Proof.
  intros Ha Hb. unfold precedes. rewrite (same_session_kept a a' b b' Ha Hb).
  unfold row_ts. destruct Ha as (-> & _), Hb as (-> & _). reflexivity.
Qed.

Lemma renumbered_at_map (f : row -> row) r0 r post :
  (forall x, kept x (f x)) -> kept r0 r ->
  renumbered_at r (map f post) = renumbered_at r0 post.
Proof.
  intros Hf Hr. unfold renumbered_at.
  induction post as [|x post IH]; simpl; [reflexivity|].
  rewrite (renumbers_kept r0 r x (f x) Hr (Hf x)).
  destruct (renumbers r0 x); simpl; rewrite IH; [|reflexivity].
  f_equal. now destruct (Hf x) as (_ & _ & _ & _ & _ & -> & _).
Qed.

Lemma renumbered_at_app r post new :
  renumbered_at r (post ++ [new])
  = renumbered_at r post ++ (if renumbers r new then [imported_at new] else []).
Proof.
  unfold renumbered_at. rewrite filter_app, map_app. simpl.
  now destruct (renumbers r new).
Qed.

Lemma precedes_map (f : row -> row) r0 r pre :
  (forall x, kept x (f x)) -> kept r0 r ->
  List.length (filter (precedes r) (map f pre))
  = List.length (filter (precedes r0) pre).
Proof.
  intros Hf Hr. induction pre as [|x pre IH]; simpl; [reflexivity|].
  rewrite (precedes_kept r0 r x (f x) Hr (Hf x)).
  destruct (precedes r0 x); simpl; now rewrite IH.
Qed.

Lemma latest_last times t : latest (times ++ [t]) = Some t.
Proof. unfold latest. now rewrite fold_left_app. Qed.

Lemma concat_repeat_last (sep x : string) (k : nat) :
  String.concat sep (repeat x (S (S k)))
  = (String.concat sep (repeat x (S k)) ++ sep ++ x)%string.
Proof.
  induction k as [|k IH]; [reflexivity|].
  change (String.concat sep (repeat x (S (S (S k)))))
    with (x ++ sep ++ String.concat sep (repeat x (S (S k))))%string.
  rewrite IH at 1.
  change (String.concat sep (repeat x (S (S k))))
    with (x ++ sep ++ String.concat sep (repeat x (S k)))%string.
  now rewrite !append_assoc.
Qed.

Lemma marks_not_empty (k : nat) :
  String.eqb (String.concat " | " (repeat "index_shifted" (S k))) EmptyString = false.
Proof. destruct k; reflexivity. Qed.

(** The CASE expression of the UPDATE adds one mark. *)
Lemma shifted_note_text (k : nat) :
  Some (Sql.shifted_notes (note_text k)) = note_text (S k).
Proof.
  destruct k as [|k]; [reflexivity|].
  unfold note_text, Sql.shifted_notes. rewrite marks_not_empty.
  now rewrite concat_repeat_last.
Qed.

Lemma split_at_last (A : Type) (pre : list A) (r : A) (post d : list A) (n : A) :
  pre ++ r :: post = d ++ [n] ->
  (post = [] /\ pre = d /\ r = n) \/
  exists post1, post = post1 ++ [n] /\ d = pre ++ r :: post1.
Proof.
  destruct post as [|y post] using rev_ind; intros E.
  - left. apply app_inj_tail in E as [E1 E2]. auto.
  - right. exists post.
    change (pre ++ r :: post ++ [y]) with (pre ++ (r :: post) ++ [y]) in E.
    rewrite app_assoc in E. apply app_inj_tail in E as [E1 E2].
    subst. auto.
Qed.

Lemma filter_none (A : Type) (g : A -> bool) (l : list A) :
  (forall x, In x l -> g x = false) -> filter g l = [].
Proof.
  induction l as [|x l IH]; intros H; simpl; [reflexivity|].
  rewrite (H x (or_introl eq_refl)). apply IH. intros y Hy. apply H. now right.
Qed.

(** A row is appended and the rows that it renumbers are updated: the
    columns still count. *)
Lemma counted_insert db new :
  counted db -> notes new = None -> modified_at new = None ->
  session_tournament_index new
  = 1 + Z.of_nat (List.length (filter (precedes new) db)) ->
  counted (map (fun x => if renumbers x new then Sql.bump (imported_at new) x else x) db
           ++ [new]).
Proof.
  intros H Hn Hm Hi pre r post E.
  set (f := fun x => if renumbers x new then Sql.bump (imported_at new) x else x) in *.
  assert (Hf : forall x, kept x (f x)).
  { intros x. unfold f. destruct (renumbers x new); [apply kept_bump | apply kept_refl]. }
  symmetry in E.
  apply split_at_last in E as [(-> & -> & ->) | (post1 & -> & E)].
  - change (renumbered_at new []) with (@nil Z).
    split; [exact Hn|]. split; [exact Hm|].
    rewrite (precedes_map f new new db Hf (kept_refl new)), Hi.
    change (Z.of_nat (List.length (@nil Z))) with 0. lia.
  - apply map_eq_app in E as (pre0 & tl & -> & <- & E).
    apply map_eq_cons in E as (r0 & post0 & -> & <- & <-).
    destruct (H pre0 r0 post0 eq_refl) as (N & M & I).
    rewrite renumbered_at_app.
    rewrite (renumbered_at_map f r0 (f r0) post0 Hf (Hf r0)).
    rewrite (precedes_map f r0 (f r0) pre0 Hf (Hf r0)).
    rewrite (renumbers_kept r0 (f r0) new new (Hf r0) (kept_refl new)).
    unfold f at 1 2 3. destruct (renumbers r0 new).
    + simpl notes. simpl modified_at. simpl session_tournament_index.
      rewrite length_app, Nat.add_1_r, latest_last, N, I.
      split; [apply shifted_note_text|]. split; [reflexivity | lia].
    + rewrite app_nil_r. auto.
Qed.

(** One transaction keeps the columns counting, provided the UUID drawn
    for it has not been drawn before. *)
Lemma run_insertion_counted used db i :
  ids_from used db -> ~ In (ins_uuid4 i) used ->
  counted db -> counted (run_insertion db i).
Proof.
  intros Hids Hu H. unfold run_insertion, assign_and_insert.
  destruct (find_existing_session_within_gap db (site (ins_result i))
              (tournament_start_ts_local (ins_result i)) (ins_gap_minutes i))
    as [[sid|] start] eqn:F.
  - rewrite (ensure_when_some _ _ _ _ _ _ _ _ F).
    unfold Sql.SQL_INSERT_TOURNAMENT.
    destruct (Sql.SQL_HASH_EXISTS _ _); [exact H|].
    match goal with |- counted (_ ++ [?n]) => set (new := n) end.
    assert (Hsame : forall x,
              Sql.in_session (site (ins_result i)) sid x = same_session x new).
    { intros x. unfold Sql.in_session, Sql.session_is, same_session. simpl.
      now destruct (session_id x). }
    assert (E : Sql.SQL_BUMP_INDICES_AT_OR_AFTER_TS db (site (ins_result i)) sid
                  (tournament_start_ts_local (ins_result i)) (ins_now i)
                = map (fun x => if renumbers x new
                                then Sql.bump (imported_at new) x else x) db).
    { unfold Sql.SQL_BUMP_INDICES_AT_OR_AFTER_TS. apply map_ext. intros x.
      unfold renumbers. now rewrite Hsame. }
    rewrite E. apply counted_insert; [exact H|reflexivity|reflexivity|].
    unfold new at 1. simpl session_tournament_index.
    unfold Sql.SQL_COUNT_BEFORE_IN_SESSION.
    rewrite (filter_ext _ (precedes new)); [lia|].
    intros x. unfold precedes. now rewrite Hsame, same_session_sym.
  - rewrite (ensure_when_none _ _ _ _ _ _ _ F).
    unfold Sql.SQL_INSERT_TOURNAMENT.
    destruct (Sql.SQL_HASH_EXISTS _ _); [exact H|].
    match goal with |- counted (_ ++ [?n]) => set (new := n) end.
    assert (Hnone : forall x, In x db -> same_session x new = false).
    { intros x Hx. destruct (Hids x Hx) as (s & Hs & Hin).
      unfold same_session. rewrite Hs. simpl.
      destruct (String.eqb_spec s (ins_uuid4 i)) as [->|_];
        [contradiction | apply andb_false_r]. }
    assert (E : map (fun x => if renumbers x new
                              then Sql.bump (imported_at new) x else x) db = db).
    { rewrite <- (map_id db) at 2. apply map_ext_in. intros x Hx.
      unfold renumbers. now rewrite (Hnone x Hx). }
    rewrite <- E. apply counted_insert; [exact H|reflexivity|reflexivity|].
    rewrite filter_none; [reflexivity|].
    intros x Hx. unfold precedes. now rewrite same_session_sym, (Hnone x Hx).
Qed.

Lemma fold_insertions_counted l : forall used db,
  store_ok used db -> NoDup (used ++ map ins_uuid4 l) ->
  counted db -> counted (fold_left run_insertion l db).
Proof.
  induction l as [|i l IH]; intros used db Hok Hnd H; simpl; [exact H|].
  simpl in Hnd.
  assert (Hu : ~ In (ins_uuid4 i) used).
  { apply NoDup_remove_2 in Hnd. intros Hin. apply Hnd. apply in_or_app. now left. }
  apply (IH (used ++ [ins_uuid4 i])).
  - now apply run_insertion_store_ok.
  - now rewrite <- app_assoc.
  - apply (run_insertion_counted used); [apply Hok|exact Hu|exact H].
Qed.

Lemma replay_counted l : NoDup (map ins_uuid4 l) -> counted (replay l).
Proof.
  intros Hnd. apply (fold_insertions_counted l [] []);
    [apply store_ok_nil | exact Hnd |].
  intros pre r post E. now destruct pre.
Qed.

End StoreHistory.

(** X4. The store is append-only across transactions: whatever is
    inserted after a prefix of the history, every row stored by the
    prefix is still there, at the same position, with its result, file
    name, file hash, session id, session start and import time unchanged
    and an index at least as large; the rows that follow are at most one
    per later insertion, each carrying that insertion's result, file name,
    file hash and [now()]. *)
Theorem later_insertions_keep_rows (l1 l2 : list insertion) :
  exists old added,
    replay (l1 ++ l2) = old ++ added /\
    Forall2 kept (replay l1) old /\
    (List.length added <= List.length l2)%nat /\
    Forall (fun r => exists i, In i l2 /\ stored_from i r) added.
Proof.
  unfold replay. rewrite fold_left_app. apply fold_insertions_keep.
Qed.

(** X5. The audit columns count the renumberings of a row.  In a store
    built by the importer from UUIDs that are pairwise distinct, take a
    row and the rows stored after it that are of its site and session
    and start no later than it does.  If there are [k] of them, the notes
    of the row are NULL when [k] is 0 and otherwise [k] marks
    [index_shifted] joined by [ | ]; its modification timestamp is NULL
    when [k] is 0 and otherwise the [now()] of the transaction that
    stored the last of them; and its index is 1, plus the number of rows
    of its session stored before it that start earlier, plus [k]. *)
Theorem notes_count_renumberings (l : list insertion) (pre : list row) (r : row)
    (post : list row) :
  NoDup (map ins_uuid4 l) ->
  replay l = pre ++ r :: post ->
  notes r = note_text (List.length (renumbered_at r post)) /\
  modified_at r = latest (renumbered_at r post) /\
  session_tournament_index r
  = 1 + Z.of_nat (List.length (filter (precedes r) pre))
      + Z.of_nat (List.length (renumbered_at r post)).
Proof. intros Hnd E. exact (replay_counted l Hnd pre r post E). Qed.

Lemma notes_count_renumberings_witness :
  let r := sample_row "GG" 600 "h1" "u1" 600 3 (Some 86400)
             (Some "index_shifted | index_shifted") in
  let post := [ sample_row "GG" 300 "h2" "u1" 600 2 (Some 86400) (Some "index_shifted");
                sample_row "GG" 0 "h3" "u1" 300 1 None None ] in
  NoDup (map ins_uuid4 latest_first) /\
  replay latest_first = [] ++ r :: post /\
  notes r = note_text (List.length (renumbered_at r post)) /\
  modified_at r = latest (renumbered_at r post) /\
  session_tournament_index r
  = 1 + Z.of_nat (List.length (filter (precedes r) []))
      + Z.of_nat (List.length (renumbered_at r post)).
Proof.
  intros r post.
  assert (H1 : NoDup (map ins_uuid4 latest_first)).
  { simpl. repeat constructor; simpl; intuition discriminate. }
  assert (H2 : replay latest_first = [] ++ r :: post) by reflexivity.
  split; [exact H1|]. split; [exact H2|].
  exact (notes_count_renumberings latest_first [] r post H1 H2).
Defined.

(** The first row of [latest_first] has been renumbered twice, the last
    time by the transaction of the third event. *)
Example renumbered_twice :
  let r := sample_row "GG" 600 "h1" "u1" 600 3 (Some 86400)
             (Some "index_shifted | index_shifted") in
  let post := [ sample_row "GG" 300 "h2" "u1" 600 2 (Some 86400) (Some "index_shifted");
                sample_row "GG" 0 "h3" "u1" 300 1 None None ] in
  replay latest_first = r :: post /\
  renumbered_at r post = [86700; 86400] /\
  note_text 2 = Some "index_shifted | index_shifted" /\
  latest [86700; 86400] = Some 86400.
Proof. repeat split. Qed.

(* ================================================================= *)
(** ** Session starts when events arrive in chronological order *)

Section Chronological.

Lemma min_ts_snoc (l : list row) (x : row) :
  Sql.min_ts (l ++ [x])
  = match Sql.min_ts l with
    | None => Some (row_ts x)
    | Some m => Some (Z.min m (row_ts x))
    end.
Proof.
  induction l as [|a l IH]; simpl; [reflexivity|].
  rewrite IH. destruct (Sql.min_ts l) as [m|]; f_equal; lia.
Qed.

Lemma min_start_bump db st sid st' sid' ts now :
  Sql.SQL_MIN_SESSION_START (Sql.SQL_BUMP_INDICES_AT_OR_AFTER_TS db st sid ts now) st' sid'
  = Sql.SQL_MIN_SESSION_START db st' sid'.
Proof.
  unfold Sql.SQL_MIN_SESSION_START, Sql.SQL_BUMP_INDICES_AT_OR_AFTER_TS.
  rewrite filter_map_stable.
  - apply min_ts_map. intros r.
    now destruct (Sql.in_session st sid r && (ts <=? row_ts r)).
  - intros r. now destruct (Sql.in_session st sid r && (ts <=? row_ts r)).
Qed.

Lemma min_start_snoc db st sid new :
  Sql.SQL_MIN_SESSION_START (db ++ [new]) st sid
  = if Sql.in_session st sid new
    then match Sql.SQL_MIN_SESSION_START db st sid with
         | None => Some (row_ts new)
         | Some m => Some (Z.min m (row_ts new))
         end
    else Sql.SQL_MIN_SESSION_START db st sid.
Proof.
  unfold Sql.SQL_MIN_SESSION_START. rewrite filter_app. simpl.
  destruct (Sql.in_session st sid new).
  - apply min_ts_snoc.
  - now rewrite app_nil_r.
Qed.

Lemma min_start_not_later db st sid m ts :
  (forall r, In r db -> row_ts r <= ts) ->
  Sql.SQL_MIN_SESSION_START db st sid = Some m -> Z.min m ts = m.
Proof.
  intros Hle M. apply min_ts_least in M as ((r & Hr & <-) & _).
  apply filter_In in Hr as [Hr _]. specialize (Hle r Hr). lia.
Qed.

Lemma min_start_no_member db st sid :
  (forall r, In r db -> session_id r <> Some sid) ->
  Sql.SQL_MIN_SESSION_START db st sid = None.
Proof.
  intros H. unfold Sql.SQL_MIN_SESSION_START.
  replace (filter (Sql.in_session st sid) db) with (@nil row); [reflexivity|].
  symmetry. apply filter_nil_iff. intros r Hr.
  unfold Sql.in_session. apply andb_false_iff. right.
  destruct (Sql.session_is sid r) eqn:E; [|reflexivity].
  apply session_is_iff in E. now elim (H r Hr).
Qed.

Lemma min_start_member db st sid r0 :
  In r0 db -> Sql.in_session st sid r0 = true ->
  exists m, Sql.SQL_MIN_SESSION_START db st sid = Some m.
Proof.
  intros Hr Hs. unfold Sql.SQL_MIN_SESSION_START.
  assert (Hin : In r0 (filter (Sql.in_session st sid) db)) by (apply filter_In; now split).
  destruct (filter (Sql.in_session st sid) db) as [|a l]; [destruct Hin|].
  simpl. destruct (Sql.min_ts l); eauto.
Qed.

Lemma kept_origin (a b : table) (y : row) :
  Forall2 kept a b -> In y b -> exists x, In x a /\ kept x y.
Proof.
  induction 1 as [|x y' a b Hxy Hab IH]; intros Hy; [destruct Hy|].
  destruct Hy as [<-|Hy].
  - exists x. split; [now left | exact Hxy].
  - destruct (IH Hy) as (x' & Hx' & Hk). exists x'. split; [now right | exact Hk].
Qed.

(** After one transaction no row is later than the event it handled, if
    none was before. *)
Lemma run_insertion_not_later db i bound :
  (forall r, In r db -> row_ts r <= bound) -> ins_ts i <= bound ->
  forall r, In r (run_insertion db i) -> row_ts r <= bound.
Proof.
  intros Hdb Hi r Hr.
  destruct (run_insertion_keeps db i) as (old & added & E & K & A).
  rewrite E in Hr. apply in_app_or in Hr as [Hr|Hr].
  - destruct (kept_origin _ _ _ K Hr) as (x & Hx & Hk).
    unfold row_ts. rewrite (proj1 Hk). now apply Hdb.
  - destruct A as [->|(r1 & -> & Hs)]; [destruct Hr|].
    destruct Hr as [<-|[]]. unfold row_ts. now rewrite (proj1 Hs).
Qed.

(** Appending the row of an event that is not earlier than any stored
    row, after an update that leaves sites, sessions, recorded starts and
    timestamps alone. *)
Lemma start_is_earliest_extend (db db1 : table) (new : row) :
  (forall st sid, Sql.SQL_MIN_SESSION_START db1 st sid
                  = Sql.SQL_MIN_SESSION_START db st sid) ->
  (forall r1, In r1 db1 ->
     exists r, In r db /\ row_site r1 = row_site r /\ session_id r1 = session_id r /\
               session_start_ts_local r1 = session_start_ts_local r) ->
  start_is_earliest db ->
  (forall r, In r db -> row_ts r <= row_ts new) ->
  (forall sid, session_id new = Some sid ->
     session_start_ts_local new
     = match Sql.SQL_MIN_SESSION_START db (row_site new) sid with
       | Some m => Some m
       | None => Some (row_ts new)
       end) ->
  start_is_earliest (db1 ++ [new]).
Proof.
  intros Hmin Hrows Hs Hle Hnew r sid Hr Hsid.
  rewrite min_start_snoc, Hmin.
  apply in_app_or in Hr as [Hr|[<-|[]]].
  - destruct (Hrows r Hr) as (r0 & Hr0 & E1 & E2 & E3).
    rewrite E1, E3. rewrite E2 in Hsid. rewrite (Hs r0 sid Hr0 Hsid).
    destruct (Sql.in_session (row_site r0) sid new); [|reflexivity].
    destruct (min_start_member db (row_site r0) sid r0 Hr0) as [m M].
    { now apply in_session_iff. }
    rewrite M. now rewrite (min_start_not_later _ _ _ _ _ Hle M).
  - rewrite (proj2 (in_session_iff (row_site new) sid new) (conj eq_refl Hsid)).
    rewrite (Hnew sid Hsid).
    destruct (Sql.SQL_MIN_SESSION_START db (row_site new) sid) as [m|] eqn:M;
      [|reflexivity].
    now rewrite (min_start_not_later _ _ _ _ _ Hle M).
Qed.

Lemma run_insertion_start_is_earliest used db i :
  ids_from used db -> ~ In (ins_uuid4 i) used ->
  start_is_earliest db ->
  (forall r, In r db -> row_ts r <= ins_ts i) ->
  start_is_earliest (run_insertion db i).
Proof.
  intros Hids Hu Hs Hle. unfold run_insertion, assign_and_insert.
  destruct (find_existing_session_within_gap db (site (ins_result i))
              (tournament_start_ts_local (ins_result i)) (ins_gap_minutes i))
    as [[sid|] start] eqn:F.
  - rewrite (ensure_when_some _ _ _ _ _ _ _ _ F).
    unfold Sql.SQL_INSERT_TOURNAMENT.
    destruct (Sql.SQL_HASH_EXISTS _ _); [exact Hs|].
    rewrite min_start_bump.
    apply find_existing_some in F as (r0 & Hr0 & Hst & Hsid & _).
    destruct (min_start_member db (site (ins_result i)) sid r0 Hr0) as [m M].
    { now apply in_session_iff. }
    rewrite M.
    apply (start_is_earliest_extend db); [| |exact Hs|exact Hle|].
    + intros st' sid'. apply min_start_bump.
    + intros r1 Hr1. unfold Sql.SQL_BUMP_INDICES_AT_OR_AFTER_TS in Hr1.
      apply in_map_iff in Hr1 as (r & <- & Hr). exists r. split; [exact Hr|].
      now destruct (Sql.in_session _ sid r && _).
    + intros sid' Heq. simpl in Heq. injection Heq as <-.
      unfold row_site, row_ts. simpl. now rewrite M.
  - rewrite (ensure_when_none _ _ _ _ _ _ _ F).
    unfold Sql.SQL_INSERT_TOURNAMENT.
    destruct (Sql.SQL_HASH_EXISTS _ _); [exact Hs|].
    apply (start_is_earliest_extend db); [reflexivity| |exact Hs|exact Hle|].
    + intros r1 Hr1. exists r1. tauto.
    + intros sid' Heq. simpl in Heq. injection Heq as <-.
      unfold row_site, row_ts. simpl. rewrite min_start_no_member; [reflexivity|].
      intros r Hr Heq. destruct (Hids r Hr) as (s & Es & Hin). congruence.
Qed.

Lemma fold_insertions_start_is_earliest l : forall used db,
  store_ok used db -> NoDup (used ++ map ins_uuid4 l) ->
  StronglySorted Z.le (map ins_ts l) ->
  (forall r i, In r db -> In i l -> row_ts r <= ins_ts i) ->
  start_is_earliest db ->
  start_is_earliest (fold_left run_insertion l db).
Proof.
  induction l as [|i l IH]; intros used db Hok Hnd Hsort Hle Hs; simpl; [exact Hs|].
  simpl in Hnd, Hsort. apply StronglySorted_inv in Hsort as [Hsort Hall].
  rewrite Forall_forall in Hall.
  assert (Hfresh : ~ In (ins_uuid4 i) used).
  { apply NoDup_remove_2 in Hnd. intros Hin. apply Hnd. apply in_or_app. now left. }
  replace (used ++ ins_uuid4 i :: map ins_uuid4 l)
    with ((used ++ [ins_uuid4 i]) ++ map ins_uuid4 l) in Hnd
    by (now rewrite <- app_assoc).
  apply (IH (used ++ [ins_uuid4 i])); [|exact Hnd|exact Hsort| |].
  - now apply run_insertion_store_ok.
  - intros r j Hr Hj. apply (run_insertion_not_later db i); [| |exact Hr].
    + intros r' Hr'. apply Hle; [exact Hr' | now right].
    + apply Hall. apply in_map_iff. now exists j.
  - apply (run_insertion_start_is_earliest used); [apply Hok|exact Hfresh|exact Hs|].
    intros r Hr. apply Hle; [exact Hr | now left].
Qed.

(** What [start_is_earliest] says of a well-formed store, spelled out. *)
Lemma start_is_earliest_spelled used db :
  store_ok used db -> start_is_earliest db -> Forall (earliest_of_session db) db.
Proof.
  intros (Hids & Hsite & _) Hs. apply Forall_forall. intros r Hr.
  destruct (Hids r Hr) as (sid & Esid & _).
  destruct (min_start_member db (row_site r) sid r Hr) as [m M].
  { now apply in_session_iff. }
  exists sid, m. split; [exact Esid|].
  split; [now rewrite (Hs r sid Hr Esid)|].
  apply min_ts_least in M as ((r' & Hr' & Em) & Hmin). split.
  - apply filter_In in Hr' as [Hr' Hin]. apply in_session_iff in Hin as [_ Hin].
    now exists r'.
  - intros x Hx Ex. apply Hmin. apply filter_In. split; [exact Hx|].
    apply in_session_iff. split; [|exact Ex].
    apply Hsite; [exact Hx | exact Hr | congruence].
Qed.

End Chronological.

(** X6. When the events are inserted in chronological order (start
    timestamps never decreasing) with pairwise distinct UUID draws, every
    stored row records the true start of its session: a session id, and
    as session start the start timestamp of the earliest stored event of
    that session. *)
Theorem chronological_start_is_earliest (l : list insertion) :
  NoDup (map ins_uuid4 l) ->
  StronglySorted Z.le (map ins_ts l) ->
  Forall (earliest_of_session (replay l)) (replay l).
Proof.
  intros Hnd Hsort.
  apply (start_is_earliest_spelled (map ins_uuid4 l)); [now apply replay_store_ok|].
  unfold replay.
  apply (fold_insertions_start_is_earliest l []); auto using store_ok_nil.
  - intros r i [].
  - intros r sid [].
Qed.

Lemma chronological_start_is_earliest_witness :
  NoDup (map ins_uuid4 in_order) /\
  StronglySorted Z.le (map ins_ts in_order) /\
  Forall (earliest_of_session (replay in_order)) (replay in_order).
Proof.
  assert (H1 : NoDup (map ins_uuid4 in_order)).
  { simpl. repeat constructor; simpl; intuition discriminate. }
  assert (H2 : StronglySorted Z.le (map ins_ts in_order)).
  { unfold in_order, ins_ts. simpl. repeat constructor; lia. }
  exact (conj H1 (conj H2 (chronological_start_is_earliest in_order H1 H2))).
Defined.

(** The stored session starts of [in_order]: 0 for the three members of
    the first session, 7800 for the event two hours later. *)
Example in_order_starts :
  map (fun r => (row_ts r, session_id r, session_start_ts_local r,
                 session_tournament_index r)) (replay in_order)
  = [(0, Some "u1", Some 0, 1); (300, Some "u1", Some 0, 2);
     (600, Some "u1", Some 0, 3); (7800, Some "u4", Some 7800, 1)].
Proof. reflexivity. Qed.

(* ================================================================= *)
(** ** Further properties of the file router *)

Section FreshTarget.

(** What a move that returns has done. *)
Lemma safe_move_target (L : PyLib) (files : list file)
    (src : Path) (dest_dir : folder) (now : Z) (files' : list file) (target : Path) :
  safe_move_with_suffix L files src dest_dir now = (files', Returns target) ->
  path_exists files target = false /\
  parent target = dest_dir /\ suffix target = suffix src /\
  String.prefix (stem src) (stem target) = true /\
  (path_exists files {| parent := dest_dir; stem := stem src; suffix := suffix src |}
   = false -> path_name target = path_name src) /\
  files' = map (retarget src target) files /\
  (exists f, lookup files src = Some f /\ f_blocked f dest_dir = false) /\
  (NoDup (map f_path files) -> NoDup (map f_path files')).
Proof.
  destruct (safe_move_is_move L files src dest_dir now)
    as (t & Hp & Hs & Hfree & Hpre & Hplain & ->).
  unfold shutil_move. destruct (lookup files src) as [f|] eqn:El; [|discriminate].
  rewrite Hp. destruct (f_blocked f dest_dir) eqn:B; [discriminate|].
  intros H. inversion H; subst files' target.
  split; [exact Hfree|]. split; [exact Hp|]. split; [exact Hs|].
  split; [exact Hpre|]. split; [exact Hplain|]. split; [reflexivity|].
  split; [eauto|]. intros Hnd. now apply retarget_distinct_paths.
Qed.

End FreshTarget.

(** X7. [safe_move_with_suffix] never overwrites a file: when it returns,
    the target is a path that no file of the listing had, in the
    destination folder, with the suffix of the source and a stem that
    starts with the stem of the source; it is the plain name whenever the
    plain name was free; the source existed and was movable, and the
    listing afterwards is the old one with the source renamed to the
    target, so that listings of pairwise distinct paths stay so. *)
Theorem safe_move_never_overwrites (L : PyLib) (files : list file)
    (src : Path) (dest_dir : folder) (now : Z) (files' : list file) (target : Path) :
  safe_move_with_suffix L files src dest_dir now = (files', Returns target) ->
  path_exists files target = false /\
  parent target = dest_dir /\ suffix target = suffix src /\
  String.prefix (stem src) (stem target) = true /\
  (path_exists files {| parent := dest_dir; stem := stem src; suffix := suffix src |}
   = false -> path_name target = path_name src) /\
  files' = map (retarget src target) files /\
  (exists f, lookup files src = Some f /\ f_blocked f dest_dir = false) /\
  (NoDup (map f_path files) -> NoDup (map f_path files')).
Proof. apply safe_move_target. Qed.

Lemma safe_move_never_overwrites_witness :
  let src := {| parent := InputDir; stem := "a"; suffix := ".txt" |} in
  let target := {| parent := ProcessedDir; stem := "a_20240106_090000_1";
                   suffix := ".txt" |} in
  safe_move_with_suffix Sample.lib name_taken src ProcessedDir 86400
  = (map (retarget src target) name_taken, Returns target) /\
  path_exists name_taken target = false /\
  (NoDup (map f_path name_taken) ->
   NoDup (map f_path (map (retarget src target) name_taken))).
Proof.
  intros src target.
  assert (H : safe_move_with_suffix Sample.lib name_taken src ProcessedDir 86400
              = (map (retarget src target) name_taken, Returns target))
    by reflexivity.
  split; [exact H|].
  destruct (safe_move_never_overwrites Sample.lib name_taken src ProcessedDir 86400
              _ _ H) as (Hfree & _ & _ & _ & _ & _ & _ & Hnd).
  split; [exact Hfree | exact Hnd].
Defined.

(* ================================================================= *)
(** ** Further properties of a run *)

Section Accounting.

Variable L : PyLib.
Variable cfg : ImportConfig.

(** The accounts of one file, whether it is there or not: the counter
    that goes with the logged status is incremented; the files of the
    listing are as they were, or the file has taken a path that no file
    had, and what moves that raised have left comes after them; the store
    is as it was unless the status is inserted, and then it is the store
    after the insertion of the parsed result, which the record echoes. *)
Lemma process_file_account amb w t src :
  exists st rs core files' db',
    process_file L cfg amb w t src
    = ({| w_db := db'; w_files := files';
          w_log := w_log w ++ [ {| payload := with_status core st rs;
                                   timestamp := amb_now amb |} ] |},
       count_status st t) /\
    In st statuses /\
    ev_file_name core = path_name src /\
    (exists kept copies,
       files' = kept ++ copies /\
       (kept = w_files w \/
        exists target, path_exists (w_files w) target = false /\
          parent target <> InputDir /\ suffix target = suffix src /\
          kept = map (retarget src target) (w_files w)) /\
       Forall (fun c => parent (f_path c) <> InputDir) copies /\
       (copies = [] \/
        exists f, lookup (w_files w) src = Some f /\ Forall (leftover f) copies)) /\
    (NoDup (map f_path (w_files w)) -> NoDup (map f_path files')) /\
    ((st <> "inserted" /\ db' = w_db w) \/
     (st = "inserted" /\ exists f parsed r,
        lookup (w_files w) src = Some f /\
        GGSummaryParser.parse L (cfg_site cfg) (decode L (f_bytes f))
        = Returns (Some parsed, r) /\
        core = with_result (with_hash (new_event src) (sha256 L (f_bytes f))) parsed /\
        db' = run_insertion (w_db w)
                (insertion_of cfg amb src (sha256 L (f_bytes f)) parsed) /\
        assign_and_insert (w_db w) parsed (path_name src) (sha256 L (f_bytes f))
          (session_gap_minutes cfg) (amb_uuid4 amb) (amb_now amb) = Some db')) /\
    (forall f, lookup (w_files w) src = Some f ->
       core = with_hash (new_event src) (sha256 L (f_bytes f)) \/
       exists parsed r,
         GGSummaryParser.parse L (cfg_site cfg) (decode L (f_bytes f))
         = Returns (Some parsed, r) /\
         core = with_result (with_hash (new_event src) (sha256 L (f_bytes f))) parsed) /\
    (lookup (w_files w) src = None -> st = "error") /\
    (st = "dry_run" -> dry_run cfg = true).
Proof.
  destruct (lookup (w_files w) src) as [f|] eqn:Hl.
  2: { pose proof (safe_move_missing L (w_files w) src NeedsReviewDir (amb_now amb) Hl)
         as Mn.
       unfold process_file, try_file, sha256_file. rewrite Hl. cbn [w_files w_db].
       rewrite Mn. destruct (dry_run cfg); cbn [negb fst];
       (do 5 eexists; split; [apply (f_equal2 pair); reflexivity|];
        split; [unfold statuses; simpl; tauto|];
        split; [reflexivity|];
        split; [exists (w_files w), []; rewrite app_nil_r; auto|];
        split; [auto|];
        split; [left; split; [discriminate | reflexivity]|];
        split; [discriminate|]; split; [reflexivity | discriminate]). }
  destruct (process_file_cases L cfg amb w t src f Hl)
    as (st & rs & core & files' & db' & E & Hname & Hst & Hplace & Hnd & Hkeep & Hins
        & _ & _ & Hdry & _ & Hcore).
  exists st, rs, core, files', db'.
  split; [exact E|]. split; [exact Hst|]. split; [exact Hname|].
  split.
  { destruct Hplace as (copies & Hc & _ & _ & Hp).
    destruct Hp as [[-> _]|(target & Ht & Hfree & Hs & -> & _)];
      eexists _, copies; (split; [reflexivity|]);
      (split; [|split; [now apply (leftover_outside f) | right; eauto]]).
    - now left.
    - right. exists target. auto. }
  split; [exact Hnd|].
  split.
  { destruct (String.eqb_spec st "inserted") as [X|X].
    - right. split; [exact X|].
      destruct (Hins X) as (parsed & r & Hp & Hc & Ha).
      exists f, parsed, r. split; [reflexivity|]. split; [exact Hp|].
      split; [exact Hc|]. split; [|exact Ha].
      unfold run_insertion, insertion_of. cbn. now rewrite Ha.
    - left. split; [exact X | now apply Hkeep]. }
  split.
  { intros f' Hf'. inversion Hf'; subst f'. exact Hcore. }
  split; [discriminate | exact Hdry].
Qed.

Lemma records_with_cons st rec recs :
  records_with st (rec :: recs)
  = (if has_status st rec then 1 else 0) + records_with st recs.
Proof.
  unfold records_with. simpl. destruct (has_status st rec); simpl List.length; lia.
Qed.

Lemma assign_and_insert_some db p file_name file_hash gap_minutes uuid4 now db' :
  assign_and_insert db p file_name file_hash gap_minutes uuid4 now = Some db' ->
  exists old r,
    db' = old ++ [r] /\ Forall2 kept db old /\
    result r = p /\ source_file_name r = file_name /\
    source_file_hash r = file_hash /\ imported_at r = now.
Proof.
  unfold assign_and_insert.
  pose proof (Forall2_kept_ensure db (site p) (tournament_start_ts_local p)
                gap_minutes uuid4 now) as Hk.
  destruct (ensure_session_and_index db (site p) (tournament_start_ts_local p)
              gap_minutes uuid4 now) as [[[sid sstart] sindex] db1].
  simpl in Hk. unfold Sql.SQL_INSERT_TOURNAMENT.
  destruct (Sql.SQL_HASH_EXISTS db1 file_hash); [discriminate|].
  intros H. inversion H; subst. eexists db1, _. split; [reflexivity|].
  split; [exact Hk|]. simpl. tauto.
Qed.

Lemma kept_echoes rec a b : kept a b -> echoes rec a -> echoes rec b.
Proof.
  unfold kept, echoes, row_ts.
  intros (A1 & A2 & A3 & A4 & A5 & A6 & A7) (B1 & B2 & B3 & B4 & B5 & B6).
  rewrite A1, A2, A3. tauto.
Qed.

Lemma same_file_refl f : same_file f f.
Proof. unfold same_file. auto. Qed.

Lemma same_file_trans a b c : same_file a b -> same_file b c -> same_file a c.
Proof.
  unfold same_file. intros (A1 & A3) (B1 & B3).
  split; [congruence|].
  destruct A3 as [A3|(A3 & A4 & A5)], B3 as [B3|(B3 & B4 & B5)].
  - left. congruence.
  - right. rewrite <- A3. auto.
  - right. rewrite B3. auto.
  - contradiction.
Qed.

Lemma same_file_retarget src target g :
  parent src = InputDir -> parent target <> InputDir -> suffix target = suffix src ->
  same_file g (retarget src target g).
Proof.
  intros Hs Ht Hx. unfold same_file, retarget.
  destruct (path_eqb (f_path g) src) eqn:E; simpl; [|auto].
  apply path_eqb_eq in E. subst src.
  split; [reflexivity|]. right. auto.
Qed.

Lemma Forall2_same_file_refl l : Forall2 same_file l l.
Proof. induction l; constructor; auto using same_file_refl. Qed.

Lemma Forall2_same_file_retarget src target l :
  parent src = InputDir -> parent target <> InputDir -> suffix target = suffix src ->
  Forall2 same_file l (map (retarget src target) l).
Proof.
  intros Hs Ht Hx. induction l as [|g l IHl]; simpl; constructor; [|exact IHl].
  now apply same_file_retarget.
Qed.

Lemma Forall2_same_file_trans a b c :
  Forall2 same_file a b -> Forall2 same_file b c -> Forall2 same_file a c.
Proof.
  intros H. revert c. induction H as [|x y a b Hxy Hab IH]; intros c Hc.
  - inversion Hc. constructor.
  - inversion Hc as [|y' z b' c' Hyz Hbc]; subst. constructor.
    + eapply same_file_trans; eauto.
    + now apply IH.
Qed.

Variable amb : Path -> ambient.

(** The accounts of a queue. *)
Lemma queue_accounts : forall queue w t,
  exists recs old added,
    w_log (fst (process_queue L cfg amb queue (w, t))) = w_log w ++ recs /\
    List.length recs = List.length queue /\
    (let t' := snd (process_queue L cfg amb queue (w, t)) in
     inserted t' = inserted t + records_with "inserted" recs /\
     duplicates t' = duplicates t + records_with "duplicate" recs /\
     needs_review t' = needs_review t + records_with "needs_review" recs /\
     errors t' = errors t + records_with "error" recs) /\
    records_with "inserted" recs + records_with "duplicate" recs
    + records_with "needs_review" recs + records_with "error" recs
    + records_with "dry_run" recs = Z.of_nat (List.length recs) /\
    (dry_run cfg = false -> records_with "dry_run" recs = 0) /\
    w_db (fst (process_queue L cfg amb queue (w, t))) = old ++ added /\
    Forall2 kept (w_db w) old /\
    Forall2 echoes (filter (has_status "inserted") recs) added.
Proof.
  induction queue as [|src rest IH]; intros w t.
  - exists [], (w_db w), []. simpl. rewrite !app_nil_r. unfold records_with. simpl.
    repeat split; try lia; auto using Forall2_kept_refl.
  - rewrite process_queue_cons.
    destruct (process_file_account (amb src) w t src)
      as (st & rs & core & files' & db' & E & Hst & Hname & _ & _ & Hdb & Hhash & _ & Hdry).
    rewrite E. cbn [fst snd].
    match goal with
    | |- context [process_queue L cfg amb rest (?w1, ?t1)] =>
        destruct (IH w1 t1) as (recs & old & added & Hlog & Hlen & Ht & Hsum & Hd & Hs & Hk & He)
    end.
    cbn [w_log w_db] in Hlog, Hs, Hk.
    set (rec := {| payload := with_status core st rs; timestamp := amb_now (amb src) |}) in *.
    assert (Hcases :
      (st <> "inserted" /\ db' = w_db w /\ has_status "inserted" rec = false) \/
      (st = "inserted" /\ exists old1 r1, db' = old1 ++ [r1] /\
         Forall2 kept (w_db w) old1 /\ echoes rec r1)).
    { destruct Hdb as [[Hne ->]|(-> & f & parsed & r & Hl & Hp & -> & _ & Hins)].
      - left. split; [exact Hne|]. split; [reflexivity|].
        unfold has_status, rec. simpl. now apply String.eqb_neq.
      - right. split; [reflexivity|].
        apply assign_and_insert_some in Hins
          as (old1 & r1 & -> & Hk1 & R1 & R2 & R3 & R4).
        exists old1, r1. split; [reflexivity|]. split; [exact Hk1|].
        unfold echoes, rec, row_ts. simpl. rewrite R1, R2, R3. tauto. }
    exists (rec :: recs).
    assert (Hrest : exists old' added',
              old ++ added = old' ++ added' /\ Forall2 kept (w_db w) old' /\
              Forall2 echoes (filter (has_status "inserted") (rec :: recs)) added').
    { destruct Hcases as [(_ & -> & Hno)|(-> & old1 & r1 & -> & Hk1 & He1)].
      - exists old, added. simpl. rewrite Hno. auto.
      - apply Forall2_app_inv_l in Hk as (o2a & o2b & Ka & Kb & ->).
        inversion Kb as [|? r1' ? ? Hr1 Hnil]; subst. inversion Hnil; subst.
        exists o2a, (r1' :: added). split; [now rewrite <- app_assoc|].
        split; [eapply Forall2_kept_trans; eauto|].
        simpl. constructor; [|exact He]. eapply kept_echoes; eauto. }
    destruct Hrest as (old' & added' & Eq & Hk' & He').
    exists old', added'.
    split; [now rewrite Hlog, <- app_assoc|].
    split; [simpl; now rewrite Hlen|].
    rewrite !records_with_cons. cbv zeta in Ht |- *.
    destruct Ht as (T1 & T2 & T3 & T4).
    assert (Hone :
      exists a b c d e : Z,
        (if has_status "inserted" rec then 1 else 0) = a /\
        (if has_status "duplicate" rec then 1 else 0) = b /\
        (if has_status "needs_review" rec then 1 else 0) = c /\
        (if has_status "error" rec then 1 else 0) = d /\
        (if has_status "dry_run" rec then 1 else 0) = e /\
        inserted (count_status st t) = inserted t + a /\
        duplicates (count_status st t) = duplicates t + b /\
        needs_review (count_status st t) = needs_review t + c /\
        errors (count_status st t) = errors t + d /\
        a + b + c + d + e = 1 /\ 0 <= e /\ (dry_run cfg = false -> e = 0)).
    { unfold has_status, rec. cbn [payload with_status ev_status].
      unfold statuses in Hst. simpl in Hst.
      destruct Hst as [<-|[<-|[<-|[<-|[<-|[]]]]]]; cbn;
        [exists 1, 0, 0, 0, 0 | exists 0, 1, 0, 0, 0 | exists 0, 0, 1, 0, 0
        | exists 0, 0, 0, 1, 0 | exists 0, 0, 0, 0, 1];
        repeat split; try lia; try reflexivity.
      intros Hf. specialize (Hdry eq_refl). congruence. }
    destruct Hone as (a & b & c & d & e & -> & -> & -> & -> & -> & C1 & C2 & C3 & C4
                      & Hsum1 & He0 & Hde).
    split; [repeat split; lia|].
    split; [cbn [List.length]; lia|].
    split; [intros Hf; specialize (Hd Hf); specialize (Hde Hf); lia|].
    rewrite Hs. auto.
Qed.

Lemma same_file_outside c c' :
  same_file c c' -> parent (f_path c) <> InputDir -> parent (f_path c') <> InputDir.
Proof. intros (_ & [->|(H & _)]) Hc; [exact Hc | contradiction]. Qed.

Lemma retarget_nothing_left src target files :
  Forall (fun f => forall d, f_left f d = None) files ->
  Forall (fun f => forall d, f_left f d = None) (map (retarget src target) files).
Proof.
  intros H. apply Forall_map. eapply Forall_impl; [|exact H].
  intros g Hg d. unfold retarget. destruct (path_eqb (f_path g) src); apply Hg.
Qed.

(** What a queue of files of the input directory leaves of the listing. *)
Lemma queue_listing : forall queue w t,
  (forall src, In src queue -> parent src = InputDir) ->
  (exists kept copies,
     w_files (fst (process_queue L cfg amb queue (w, t))) = kept ++ copies /\
     Forall2 same_file (w_files w) kept /\
     Forall (fun c => parent (f_path c) <> InputDir) copies /\
     (Forall (fun f => forall d, f_left f d = None) (w_files w) -> copies = [])) /\
  (NoDup (map f_path (w_files w)) ->
   NoDup (map f_path (w_files (fst (process_queue L cfg amb queue (w, t)))))).
Proof.
  induction queue as [|src rest IH]; intros w t Hq.
  - simpl. split; [|auto]. exists (w_files w), []. rewrite app_nil_r.
    split; [reflexivity|]. split; [apply Forall2_same_file_refl|]. auto.
  - rewrite process_queue_cons.
    destruct (process_file_account (amb src) w t src)
      as (st & rs & core & files' & db' & E & _ & _ & Hfiles & Hdistinct & _).
    rewrite E. cbn [fst snd].
    match goal with
    | |- context [process_queue L cfg amb rest (?w1, ?t1)] =>
        destruct (IH w1 t1) as [Hsame Hnd]; [intros x Hx; apply Hq; now right|]
    end.
    cbn [w_files] in Hsame, Hnd.
    split; [|auto].
    destruct Hfiles as (kept1 & copies1 & -> & Hkept1 & Hout1 & Hleft1).
    destruct Hsame as (kept2 & copies2 & Hfinal & Hsame2 & Hout2 & Hnone2).
    apply Forall2_app_inv_l in Hsame2 as (k2a & k2b & Ha & Hb & ->).
    assert (Hk1 : Forall2 same_file (w_files w) kept1).
    { destruct Hkept1 as [->|(target & Hfree & Hp & Hx & ->)].
      - apply Forall2_same_file_refl.
      - apply Forall2_same_file_retarget; auto. apply Hq. now left. }
    exists k2a, (k2b ++ copies2).
    split; [now rewrite Hfinal, app_assoc|].
    split; [eapply Forall2_same_file_trans; eauto|].
    split.
    + apply Forall_app. split; [|exact Hout2].
      clear -Hb Hout1. induction Hb as [|c c' l l' Hc Hl IHl]; [constructor|].
      inversion Hout1; subst. constructor; [|now apply IHl].
      eapply same_file_outside; eauto.
    + intros Hnone.
      assert (copies1 = []).
      { destruct Hleft1 as [->|(f & Hl & Hlo)]; [reflexivity|].
        destruct copies1 as [|c copies1]; [reflexivity|]. exfalso.
        inversion Hlo as [|? ? (_ & _ & Hc) _]; subst.
        apply lookup_in in Hl as [Hin _].
        rewrite Forall_forall in Hnone. rewrite (Hnone f Hin) in Hc. discriminate. }
      subst copies1. inversion Hb; subst. simpl. apply Hnone2.
      rewrite app_nil_r.
      destruct Hkept1 as [->|(target & _ & _ & _ & ->)]; [exact Hnone|].
      now apply retarget_nothing_left.
Qed.

End Accounting.

(** X8. The four counters that [run] prints count the records it has
    logged: the run appends one record per file of the queue, and
    Inserted, Duplicates, Needs Review and Errors are the numbers of
    records with status inserted, duplicate, needs_review and error.
    Records with status dry_run are counted nowhere, and outside dry-run
    there is none, so that the four counters add up to the number of
    files. *)
Theorem counters_count_records (L : PyLib) (cfg : ImportConfig)
    (amb : Path -> ambient) (w : world) :
  exists recs,
    w_log (fst (run L cfg amb w)) = w_log w ++ recs /\
    List.length recs = List.length (file_queue L cfg (w_files w)) /\
    inserted (snd (run L cfg amb w)) = records_with "inserted" recs /\
    duplicates (snd (run L cfg amb w)) = records_with "duplicate" recs /\
    needs_review (snd (run L cfg amb w)) = records_with "needs_review" recs /\
    errors (snd (run L cfg amb w)) = records_with "error" recs /\
    inserted (snd (run L cfg amb w)) + duplicates (snd (run L cfg amb w))
    + needs_review (snd (run L cfg amb w)) + errors (snd (run L cfg amb w))
    + records_with "dry_run" recs = Z.of_nat (List.length recs) /\
    (if dry_run cfg then True else records_with "dry_run" recs = 0).
Proof.
  unfold run.
  destruct (queue_accounts L cfg amb (file_queue L cfg (w_files w)) w no_counts)
    as (recs & old & added & Hlog & Hlen & Ht & Hsum & Hd & _).
  cbv zeta in Ht. destruct Ht as (T1 & T2 & T3 & T4). simpl in T1, T2, T3, T4.
  exists recs. rewrite T1, T2, T3, T4.
  repeat split; try assumption.
  destruct (dry_run cfg); [exact I | now apply Hd].
Qed.

(** X9. The store and the log agree: after a run the store is the old
    rows, each kept with its result, file, session and import time (only
    index, notes and modification time may differ), followed by one new
    row per record with status inserted, in the order of the log; the row
    has the file name, the content hash, the tournament id, the start
    time, the buy-in and the payout that the record shows.  So the store
    grows by exactly the Inserted counter. *)
Theorem store_grows_by_inserted_records (L : PyLib) (cfg : ImportConfig)
    (amb : Path -> ambient) (w : world) :
  exists recs old added,
    w_log (fst (run L cfg amb w)) = w_log w ++ recs /\
    w_db (fst (run L cfg amb w)) = old ++ added /\
    Forall2 kept (w_db w) old /\
    Forall2 echoes (filter (has_status "inserted") recs) added /\
    Z.of_nat (List.length (w_db (fst (run L cfg amb w))))
    = Z.of_nat (List.length (w_db w)) + inserted (snd (run L cfg amb w)).
Proof.
  unfold run.
  destruct (queue_accounts L cfg amb (file_queue L cfg (w_files w)) w no_counts)
    as (recs & old & added & Hlog & _ & Ht & _ & _ & Hdb & Hk & He).
  cbv zeta in Ht. destruct Ht as (T1 & _). simpl in T1.
  exists recs, old, added. repeat split; try assumption.
  rewrite Hdb, T1, length_app. unfold records_with.
  apply Forall2_length in Hk, He. lia.
Qed.

(** X10. A run loses and alters no file: the listing after the run
    begins with the files of the listing before, at the same positions,
    each with its content; a file has its path too, unless it was in the
    input directory and is in another folder now, and then the name it
    has there ends in the same suffix.  What comes after them has been
    left by moves that raised: files in folders other than the input
    directory; there are none when no move of a file leaves anything
    behind. *)
Theorem run_keeps_every_file (L : PyLib) (cfg : ImportConfig)
    (amb : Path -> ambient) (w : world) :
  exists kept copies,
    w_files (fst (run L cfg amb w)) = kept ++ copies /\
    Forall2 same_file (w_files w) kept /\
    Forall (fun c => parent (f_path c) <> InputDir) copies /\
    (Forall (fun f => forall d, f_left f d = None) (w_files w) -> copies = []).
Proof.
  unfold run. apply queue_listing.
  intros src Hsrc. now apply (queue_files_exist L cfg) in Hsrc.
Qed.

(** X11. A run overwrites no file: when no two files of the listing share
    a path before the run, no two share a path after it, wherever the
    files have been moved and whatever names were taken in the folders. *)
Theorem run_keeps_paths_distinct (L : PyLib) (cfg : ImportConfig)
    (amb : Path -> ambient) (w : world) :
  NoDup (map f_path (w_files w)) ->
  NoDup (map f_path (w_files (fst (run L cfg amb w)))).
Proof.
  unfold run. apply queue_listing.
  intros src Hsrc. now apply (queue_files_exist L cfg) in Hsrc.
Qed.

Lemma run_keeps_paths_distinct_witness :
  NoDup (map f_path name_taken) /\
  NoDup (map f_path (w_files (fst (run Sample.lib (Sample.cfg false) Sample.amb
                                       (Sample.start name_taken))))).
Proof.
  assert (H : NoDup (map f_path name_taken)).
  { simpl. repeat constructor; simpl; intuition discriminate. }
  exact (conj H (run_keeps_paths_distinct Sample.lib (Sample.cfg false) Sample.amb
                   (Sample.start name_taken) H)).
Defined.

(** The file [a.txt] is inserted and moved beside the two files that hold
    its name in the processed folder. *)
Example name_taken_run :
  let out := run Sample.lib (Sample.cfg false) Sample.amb (Sample.start name_taken) in
  map (fun f => (parent (f_path f), path_name (f_path f), f_bytes f))
      (w_files (fst out))
  = [(ProcessedDir, "a_20240106_090000_1.txt", Sample.doc_1);
     (ProcessedDir, "a.txt", "old");
     (ProcessedDir, "a_20240106_090000.txt", "older")] /\
  (inserted (snd out), duplicates (snd out), needs_review (snd out), errors (snd out))
  = (1, 0, 0, 0).
Proof. split; reflexivity. Qed.

(* ================================================================= *)
(** ** Further properties of the queue *)

Section QueueFacts.

Lemma key_le_trans (a b c : option Z * Path) :
  key_le a b = true -> key_le b c = true -> key_le a c = true.
Proof.
  unfold key_le. destruct (fst a), (fst b), (fst c); try discriminate; try reflexivity.
  rewrite !Z.leb_le. lia.
Qed.

Lemma keyed_sorted_oldest_first (L : PyLib) (cfg : ImportConfig) (files : list file)
    (sp : list (option Z * Path)) :
  Forall (fun x => fst x = pre_parse L cfg files (snd x)) sp ->
  StronglySorted (fun a b => key_le a b = true) sp ->
  StronglySorted (not_after L cfg files) (map snd sp).
Proof.
  intros Hkeys Hs. induction Hs as [|x sp Hs IH Hall]; simpl; [constructor|].
  inversion Hkeys as [|? ? Hx Hrest]; subst. constructor; [now apply IH|].
  apply Forall_map. rewrite Forall_forall in *. intros y Hy.
  specialize (Hall y Hy). specialize (Hrest y Hy).
  unfold not_after, key_le in *. rewrite <- Hrest, <- Hx.
  destruct (fst x), (fst y); try discriminate; auto.
  apply Z.leb_le in Hall. eauto.
Qed.

Lemma file_queue_in_time_order (L : PyLib) (cfg : ImportConfig) (files : list file) :
  StronglySorted (not_after L cfg files) (file_queue L cfg files).
Proof.
  unfold file_queue. apply keyed_sorted_oldest_first.
  - apply Forall_forall. intros x Hx.
    apply (Permutation_in _ (sort_by_perm key_le _)) in Hx.
    apply in_map_iff in Hx as (p & <- & _). reflexivity.
  - apply Sorted_StronglySorted; [|apply file_queue_sorted].
    intros a b c. apply key_le_trans.
Qed.

End QueueFacts.

(** X12. The queue of a run holds exactly the paths of the files of the
    input directory whose suffix is the configured extension, letter case
    aside, each as often as the listing has it, and it is ordered oldest
    first: of two files of the queue, the one taken first has a start time
    whenever the other has one, and not a later one; the files whose
    content does not parse come last. *)
Theorem queue_oldest_first (L : PyLib) (cfg : ImportConfig) (files : list file) :
  Permutation (file_queue L cfg files)
    (filter (fun p => folder_eqb (parent p) InputDir
                      && String.eqb (str_lower L (suffix p))
                                    (str_lower L (file_extension cfg)))
            (map f_path files)) /\
  StronglySorted (not_after L cfg files) (file_queue L cfg files).
Proof.
  split; [apply file_queue_perm | apply file_queue_in_time_order].
Qed.

(* ================================================================= *)
(** ** The store after a run *)

Section RunStore.

Variable L : PyLib.
Variable cfg : ImportConfig.
Variable amb : Path -> ambient.

(** The UUID drawn for a file of the queue. *)
Let draw (src : Path) : string := amb_uuid4 (amb src).

Lemma pre_parse_lookup files files' src :
  lookup files' src = lookup files src ->
  pre_parse L cfg files' src = pre_parse L cfg files src.
Proof. unfold pre_parse, read_text_with_fallback. now intros ->. Qed.

Lemma not_after_ext files files' queue :
  (forall p, In p queue -> pre_parse L cfg files' p = pre_parse L cfg files p) ->
  StronglySorted (not_after L cfg files) queue ->
  StronglySorted (not_after L cfg files') queue.
Proof.
  intros Hpre Hs. induction Hs as [|p queue Hs IH Hall]; constructor.
  - apply IH. intros q Hq. apply Hpre. now right.
  - rewrite Forall_forall in *. intros q Hq. specialize (Hall q Hq).
    unfold not_after in *.
    rewrite (Hpre q (or_intror Hq)), (Hpre p (or_introl eq_refl)). exact Hall.
Qed.

Lemma queue_store_ok : forall queue w t used,
  store_ok used (w_db w) -> NoDup (used ++ map draw queue) ->
  store_ok (used ++ map draw queue)
           (w_db (fst (process_queue L cfg amb queue (w, t)))).
Proof.
  induction queue as [|src rest IH]; intros w t used Hok Hnd.
  - simpl. now rewrite app_nil_r.
  - rewrite process_queue_cons.
    destruct (process_file_account L cfg (amb src) w t src)
      as (st & rs & core & files' & db' & E & _ & _ & _ & _ & Hdb & _).
    rewrite E. cbn [fst snd].
    change (map draw (src :: rest)) with (draw src :: map draw rest) in *.
    replace (used ++ draw src :: map draw rest)
      with ((used ++ [draw src]) ++ map draw rest) in *
      by (now rewrite <- app_assoc).
    apply IH; [|exact Hnd]. cbn [w_db].
    destruct Hdb as [[_ ->]|(_ & f & parsed & r & _ & _ & _ & -> & _)].
    + now apply store_ok_more.
    + apply (run_insertion_store_ok used (w_db w)
               (insertion_of cfg (amb src) src (sha256 L (f_bytes f)) parsed));
        [exact Hok|].
      simpl. rewrite <- app_assoc in Hnd. apply NoDup_remove_2 in Hnd.
      intros Hin. apply Hnd. apply in_or_app. now left.
Qed.

Lemma queue_start_is_earliest : forall queue w t used,
  ready (w_files w) queue ->
  store_ok used (w_db w) -> NoDup (used ++ map draw queue) ->
  start_is_earliest (w_db w) ->
  StronglySorted (not_after L cfg (w_files w)) queue ->
  (forall r src ts, In r (w_db w) -> In src queue ->
     pre_parse L cfg (w_files w) src = Some ts -> row_ts r <= ts) ->
  start_is_earliest (w_db (fst (process_queue L cfg amb queue (w, t)))).
Proof.
  induction queue as [|src rest IH]; intros w t used Hready Hok Hnd Hs Hsort Hle.
  - exact Hs.
  - rewrite process_queue_cons.
    destruct (ready_lookup _ _ src Hready (or_introl eq_refl)) as [f0 Hl0].
    assert (Hsrc : parent src = InputDir).
    { destruct Hready as (_ & _ & Hq). now apply Hq; left. }
    pose proof (process_file_own_move L cfg amb w t src f0 Hl0 Hsrc) as Hown.
    pose proof (ready_step _ _ _ _ Hready Hown) as Hready'.
    destruct (process_file_account L cfg (amb src) w t src)
      as (st & rs & core & files' & db' & E & _ & _ & _ & _ & Hdb & _).
    rewrite E in Hown, Hready' |- *. cbn [fst snd w_files] in Hown, Hready' |- *.
    change (map draw (src :: rest)) with (draw src :: map draw rest) in *.
    assert (Hfresh : ~ In (draw src) used).
    { apply NoDup_remove_2 in Hnd. intros Hin. apply Hnd. apply in_or_app. now left. }
    replace (used ++ draw src :: map draw rest)
      with ((used ++ [draw src]) ++ map draw rest) in Hnd
      by (now rewrite <- app_assoc).
    apply StronglySorted_inv in Hsort as [Hsort Hall]. rewrite Forall_forall in Hall.
    assert (Hpre : forall p, In p rest ->
              pre_parse L cfg files' p = pre_parse L cfg (w_files w) p).
    { intros p Hp. apply pre_parse_lookup.
      destruct Hready as (_ & Hndq & Hq).
      apply (own_move_lookup _ _ src); [exact Hown| |].
      - inversion Hndq; subst. congruence.
      - now apply Hq; right. }
    apply (IH _ _ (used ++ [draw src])); cbn [w_db w_files]; try assumption.
    + destruct Hdb as [[_ ->]|(_ & f & parsed & r & _ & _ & _ & -> & _)].
      * now apply store_ok_more.
      * now apply (run_insertion_store_ok used (w_db w)
                     (insertion_of cfg (amb src) src (sha256 L (f_bytes f)) parsed)).
    + destruct Hdb as [[_ ->]|(_ & f & parsed & r & Hl & Hp & _ & -> & _)];
        [exact Hs|].
      apply (run_insertion_start_is_earliest used); [apply Hok|exact Hfresh|exact Hs|].
      intros x Hx. apply (Hle x src); [exact Hx | now left|].
      unfold pre_parse, read_text_with_fallback. now rewrite Hl, Hp.
    + apply (not_after_ext (w_files w)); assumption.
    + intros x p ts Hx Hp Hts. rewrite (Hpre p Hp) in Hts.
      assert (Hxb : forall y, In y (w_db w) -> row_ts y <= ts).
      { intros y Hy. apply (Hle y p); [exact Hy | now right | exact Hts]. }
      destruct Hdb as [[_ ->]|(_ & f & parsed & r & Hl & Hparse & _ & -> & _)];
        [now apply Hxb|].
      apply (run_insertion_not_later (w_db w)
               (insertion_of cfg (amb src) src (sha256 L (f_bytes f)) parsed));
        [exact Hxb| |exact Hx].
      specialize (Hall p Hp). unfold not_after in Hall. rewrite Hts in Hall.
      destruct Hall as (ta & Hta & Hle'). unfold pre_parse, read_text_with_fallback in Hta.
      rewrite Hl, Hparse in Hta. inversion Hta; subst. exact Hle'.
Qed.

End RunStore.

(** X13. A run keeps the store well formed.  When the UUIDs drawn for the
    files of the queue are pairwise distinct and none has been used, the
    store after the run, like the store before it, has a session id on
    every row, no session with members of two sites, and in every session
    the indices 1..N, in the order of the start times. *)
Theorem run_keeps_sessions_numbered (L : PyLib) (cfg : ImportConfig)
    (amb : Path -> ambient) (w : world) (used : list string) :
  store_ok used (w_db w) ->
  NoDup (used ++ map (fun src => amb_uuid4 (amb src)) (file_queue L cfg (w_files w))) ->
  store_ok (used ++ map (fun src => amb_uuid4 (amb src)) (file_queue L cfg (w_files w)))
           (w_db (fst (run L cfg amb w))).
Proof. intros Hok Hnd. unfold run. now apply queue_store_ok. Qed.

Lemma run_keeps_sessions_numbered_witness :
  store_ok [] (w_db (Sample.start three_files)) /\
  NoDup ([] ++ map (fun src => amb_uuid4 (Sample.amb src))
                   (file_queue Sample.lib (Sample.cfg false)
                               (w_files (Sample.start three_files)))) /\
  store_ok ([] ++ map (fun src => amb_uuid4 (Sample.amb src))
                      (file_queue Sample.lib (Sample.cfg false)
                                  (w_files (Sample.start three_files))))
           (w_db (fst (run Sample.lib (Sample.cfg false) Sample.amb
                           (Sample.start three_files)))).
Proof.
  assert (H1 : store_ok [] (w_db (Sample.start three_files))) by exact store_ok_nil.
  assert (H2 : NoDup ([] ++ map (fun src => amb_uuid4 (Sample.amb src))
                              (file_queue Sample.lib (Sample.cfg false)
                                          (w_files (Sample.start three_files))))).
  { simpl. repeat constructor; simpl; intuition discriminate. }
  exact (conj H1 (conj H2 (run_keeps_sessions_numbered Sample.lib (Sample.cfg false)
                             Sample.amb (Sample.start three_files) [] H1 H2))).
Defined.

(** X14. Because a run takes the files oldest first, it records true
    session starts.  Let the store be well formed with true session
    starts, no stored event later than a file of the queue that parses,
    the paths of the listing pairwise distinct and the UUID draws fresh
    and pairwise distinct.  Then after the run every row records, as
    session start, the start time of the earliest stored event of its
    session.  An empty store is such a store. *)
Theorem run_records_true_session_starts (L : PyLib) (cfg : ImportConfig)
    (amb : Path -> ambient) (w : world) (used : list string) :
  NoDup (map f_path (w_files w)) ->
  store_ok used (w_db w) ->
  start_is_earliest (w_db w) ->
  NoDup (used ++ map (fun src => amb_uuid4 (amb src)) (file_queue L cfg (w_files w))) ->
  (forall r src ts, In r (w_db w) -> In src (file_queue L cfg (w_files w)) ->
     pre_parse L cfg (w_files w) src = Some ts -> row_ts r <= ts) ->
  Forall (earliest_of_session (w_db (fst (run L cfg amb w))))
         (w_db (fst (run L cfg amb w))).
Proof.
  intros Hpaths Hok Hs Hnd Hle.
  apply (start_is_earliest_spelled
           (used ++ map (fun src => amb_uuid4 (amb src)) (file_queue L cfg (w_files w)))).
  - unfold run. now apply queue_store_ok.
  - unfold run. apply (queue_start_is_earliest L cfg amb _ w no_counts used);
      try assumption.
    + now apply ready_queue.
    + apply file_queue_in_time_order.
Qed.

Lemma run_records_true_session_starts_witness :
  let w := Sample.start three_files in
  let queue := file_queue Sample.lib (Sample.cfg false) (w_files w) in
  NoDup (map f_path (w_files w)) /\
  store_ok [] (w_db w) /\
  start_is_earliest (w_db w) /\
  NoDup ([] ++ map (fun src => amb_uuid4 (Sample.amb src)) queue) /\
  (forall r src ts, In r (w_db w) -> In src queue ->
     pre_parse Sample.lib (Sample.cfg false) (w_files w) src = Some ts ->
     row_ts r <= ts) /\
  Forall (earliest_of_session
            (w_db (fst (run Sample.lib (Sample.cfg false) Sample.amb w))))
         (w_db (fst (run Sample.lib (Sample.cfg false) Sample.amb w))).
Proof.
  intros w queue.
  assert (H1 : NoDup (map f_path (w_files w))).
  { simpl. repeat constructor; simpl; intuition discriminate. }
  assert (H2 : store_ok [] (w_db w)) by exact store_ok_nil.
  assert (H3 : start_is_earliest (w_db w)) by (intros r sid []).
  assert (H4 : NoDup ([] ++ map (fun src => amb_uuid4 (Sample.amb src)) queue)).
  { simpl. repeat constructor; simpl; intuition discriminate. }
  assert (H5 : forall r src ts, In r (w_db w) -> In src queue ->
             pre_parse Sample.lib (Sample.cfg false) (w_files w) src = Some ts ->
             row_ts r <= ts) by (intros r src ts []).
  exact (conj H1 (conj H2 (conj H3 (conj H4 (conj H5
           (run_records_true_session_starts Sample.lib (Sample.cfg false) Sample.amb
              w [] H1 H2 H3 H4 H5)))))).
Defined.

(* ================================================================= *)
(** ** Further properties of the parser *)

(** A reason without a record: it is one of the six, and it is taken for
    needs_review when it is one of the two non-cash reasons. *)
Ltac gives_reason :=
  eexists; split; [reflexivity|]; unfold parse_failures; simpl;
  split; [tauto|]; split; [reflexivity|];
  split; [first [discriminate | auto]
         | first [intros [H|H]; discriminate | reflexivity]].

(** X15. The three ways [parse] ends.  With a record it gives no reason,
    and the record has the site passed in, a name, a game type, and
    amounts rounded from the parsed buy-in and the hero's payout, the
    profit being rounded from the difference of the unrounded amounts.
    Without a record it gives one of six reasons, never the default
    [unknown_parse_failure] of the importer, and the importer takes the
    reason for needs_review exactly when it is one of the two non-cash
    reasons.  The only exception it raises is ValueError: that of [int]
    on the digits of the id, of the player count or of the place, or
    that of [strptime]. *)
Theorem parse_outcomes (L : PyLib) (st text : string) :
  match GGSummaryParser.parse L st text with
  | Returns (Some p, reason) =>
      reason = None /\ site p = st /\
      tournament_name p <> None /\ game_type p <> None /\
      exists m_buy buy_in payout,
        re_search L GGSummaryParser.RE_BUYIN text = Some m_buy /\
        parse_money_usd L (m_buy "amt") = Some buy_in /\
        GGSummaryParser.hero_payout L "Hero"
          (re_finditer L GGSummaryParser.RE_PLACEMENT_LINE text) = GGSummaryParser.HeroPaid payout /\
        buy_in_amount p = py_round L buy_in 2 /\
        payout_amount p = py_round L payout 2 /\
        profit_amount p = py_round L (PrimFloat.sub payout buy_in) 2
  | Returns (None, reason) =>
      exists r, reason = Some r /\ In r parse_failures /\
        reason_or reason "unknown_parse_failure" = r /\
        (String.prefix "needs_review" (reason_or reason EmptyString) = true <->
         r = "needs_review:non_cash_buy_in" \/ r = "needs_review:non_cash_payout")
  | Raises e => e = "ValueError"
  end.
Proof.
  unfold GGSummaryParser.parse, GGSummaryParser.int_group.
  destruct (re_search L GGSummaryParser.RE_TOURNAMENT_LINE text) as [m|];
    [|gives_reason].
  destruct (py_int L (m "tid")) as [tid|]; [|reflexivity].
  destruct (re_search L GGSummaryParser.RE_BUYIN text) as [m_buy|] eqn:Ebuy;
    [|gives_reason].
  destruct (parse_money_usd L (m_buy "amt")) as [buy_in|] eqn:Emoney;
    [|gives_reason].
  destruct (re_search L GGSummaryParser.RE_PLAYERS text) as [m_p|];
    [destruct (py_int L (m_p "n")) as [n|]; [|reflexivity]|];
    (destruct (re_search L GGSummaryParser.RE_STARTED text) as [m_s|];
       [|gives_reason]);
    (destruct (strptime L (m_s "dt") "%Y/%m/%d %H:%M:%S") as [start_dt|];
       [|reflexivity]);
    (destruct (re_search L GGSummaryParser.RE_FINISH text) as [m_f|];
       [destruct (py_int L (m_f "place")) as [place|]; [|reflexivity]|]);
    (destruct (GGSummaryParser.hero_payout L "Hero"
                 (re_finditer L GGSummaryParser.RE_PLACEMENT_LINE text))
       as [payout| |] eqn:Ehero; [|gives_reason|gives_reason]);
    simpl; (split; [reflexivity|]); (split; [reflexivity|]);
    (split; [discriminate|]); (split; [discriminate|]);
    exists m_buy, buy_in, payout; repeat split; assumption.
Qed.

(** An id of more digits than [int] takes: [parse] raises, whatever
    follows the header. *)
Lemma id_out_of_range_raises (L : PyLib) (st text : string) (m : rmatch) :
  re_search L GGSummaryParser.RE_TOURNAMENT_LINE text = Some m ->
  py_int L (m "tid") = None ->
  GGSummaryParser.parse L st text = Raises "ValueError".
Proof. intros Hm Hint. unfold GGSummaryParser.parse. now rewrite Hm, Hint. Qed.

(** X16. The first placement line with the hero's name decides, whatever
    follows it: when no line before it has the hero's name (compared as
    the code does, stripped and in lower case), the outcome is the payout
    of that line if it is a cash amount and non-cash otherwise; later
    lines of the hero are not read. *)
Theorem first_hero_line_decides (L : PyLib) (hero : string)
    (before_it : list rmatch) (pm : rmatch) (after_it : list rmatch) :
  forallb (fun x => negb (names_hero L hero x)) before_it = true ->
  names_hero L hero pm = true ->
  GGSummaryParser.hero_payout L hero (before_it ++ pm :: after_it)
  = match parse_money_usd L (str_strip L (pm "payout")) with
    | Some payout_amount => GGSummaryParser.HeroPaid payout_amount
    | None => GGSummaryParser.HeroNonCash
    end.
Proof.
  unfold names_hero. intros Hbefore Hpm.
  induction before_it as [|x l IH]; simpl.
  - rewrite Hpm. now destruct (parse_money_usd L (str_strip L (pm "payout"))).
  - simpl in Hbefore. apply andb_true_iff in Hbefore as [Hx Hl].
    apply negb_true_iff in Hx. rewrite Hx. now apply IH.
Qed.

Lemma first_hero_line_decides_witness :
  let before_it := [Sample.placement "1" "Villain" "$100"] in
  let pm := Sample.placement "50" "hero" "tickets" in
  let after_it := [Sample.placement "51" "Hero" "$5"] in
  forallb (fun x => negb (names_hero Sample.lib "Hero" x)) before_it = true /\
  names_hero Sample.lib "Hero" pm = true /\
  GGSummaryParser.hero_payout Sample.lib "Hero" (before_it ++ pm :: after_it)
  = GGSummaryParser.HeroNonCash.
Proof.
  intros before_it pm after_it.
  assert (H1 : forallb (fun x => negb (names_hero Sample.lib "Hero" x)) before_it = true)
    by reflexivity.
  assert (H2 : names_hero Sample.lib "Hero" pm = true) by reflexivity.
  split; [exact H1|]. split; [exact H2|].
  exact (first_hero_line_decides Sample.lib "Hero" before_it pm after_it H1 H2).
Defined.

(** X17. No hero line is found exactly when no placement line has the
    hero's name. *)
Theorem no_hero_line_iff (L : PyLib) (hero : string) (pms : list rmatch) :
  GGSummaryParser.hero_payout L hero pms = GGSummaryParser.NoHeroLine <->
  forallb (fun x => negb (names_hero L hero x)) pms = true.
Proof.
  unfold names_hero. induction pms as [|pm l IH]; simpl; [tauto|].
  destruct (String.eqb (str_lower L (str_strip L (pm "name"))) (str_lower L hero)); simpl.
  - destruct (parse_money_usd L (str_strip L (pm "payout"))); split; discriminate.
  - exact IH.
Qed.

(* ================================================================= *)
(** ** The environment of the engine *)

(** X18. [build_engine_from_env] reaches [create_engine] exactly when the
    five keys are all set to non-empty values, and then with the URL made
    of these values; otherwise it raises RuntimeError, and the message
    lists the keys that are unset or empty, all of them, in the order
    host, port, name, user, password.  A key set to the empty string
    counts as missing. *)
Theorem engine_needs_every_key (getenv : environ) :
  match build_engine_from_env getenv with
  | CreateEngine url =>
      exists host port name user pwd,
        getenv "DB_HOST" = Some host /\ getenv "DB_PORT" = Some port /\
        getenv "DB_NAME" = Some name /\ getenv "DB_USER" = Some user /\
        getenv "DB_PASSWORD" = Some pwd /\
        ~ In EmptyString [host; port; name; user; pwd] /\
        url = ("postgresql+psycopg://" ++ user ++ ":" ++ pwd ++ "@" ++ host ++ ":"
               ++ port ++ "/" ++ name)%string
  | RaisesRuntimeError message =>
      exists missing,
        missing <> [] /\
        missing = filter (fun k => not_v (getenv k)) env_keys /\
        message = ("Missing required .env keys: " ++ join ", " missing)%string
  end.
Proof.
  unfold build_engine_from_env, env_keys, not_v. simpl filter.
  destruct (getenv "DB_HOST") as [[|c1 host]|];
  destruct (getenv "DB_PORT") as [[|c2 port]|];
  destruct (getenv "DB_NAME") as [[|c3 name]|];
  destruct (getenv "DB_USER") as [[|c4 user]|];
  destruct (getenv "DB_PASSWORD") as [[|c5 pwd]|];
  simpl;
  try (eexists; (split; [|split; reflexivity]); discriminate).
  do 5 eexists. repeat (split; [reflexivity|]).
  split; [|reflexivity].
  simpl. intuition discriminate.
Qed.

(** The name is empty and the password is not set: both are reported. *)
Example engine_reports_empty_and_unset :
  build_engine_from_env (sample_env None)
  = RaisesRuntimeError "Missing required .env keys: DB_NAME, DB_PASSWORD".
Proof. reflexivity. Qed.

(* ================================================================= *)
(** ** The records and the hashes of a run *)

Section RunRecords.

Variable L : PyLib.
Variable cfg : ImportConfig.
Variable amb : Path -> ambient.

Lemma queue_describes : forall queue w t,
  ready (w_files w) queue ->
  exists recs,
    w_log (fst (process_queue L cfg amb queue (w, t))) = w_log w ++ recs /\
    Forall2 (describes L cfg (w_files w)) queue recs.
Proof.
  induction queue as [|src rest IH]; intros w t Hready.
  - exists []. simpl. rewrite app_nil_r. split; [reflexivity | constructor].
  - rewrite process_queue_cons.
    destruct (ready_lookup _ _ src Hready (or_introl eq_refl)) as [f Hl].
    assert (Hsrc : parent src = InputDir).
    { destruct Hready as (_ & _ & Hq). now apply Hq; left. }
    pose proof (process_file_own_move L cfg amb w t src f Hl Hsrc) as Hown.
    pose proof (ready_step _ _ _ _ Hready Hown) as Hready'.
    destruct (process_file_account L cfg (amb src) w t src)
      as (st & rs & core & files' & db' & E & _ & Hname & _ & _ & _ & Hcore & _).
    rewrite E in Hown, Hready' |- *. cbn [fst snd w_files] in Hown, Hready' |- *.
    match goal with
    | |- context [process_queue L cfg amb rest (?w1, ?t1)] =>
        destruct (IH w1 t1 Hready') as (recs & Hlog & HF)
    end.
    cbn [w_log w_files] in Hlog, HF.
    eexists (_ :: recs). split; [rewrite Hlog, <- app_assoc; reflexivity|].
    constructor.
    + exists f. split; [exact Hl|]. cbn [payload].
      destruct (Hcore f Hl) as [->|(p & r & Hp & ->)].
      * repeat split; try reflexivity. left. repeat split; reflexivity.
      * repeat split; try reflexivity. right. exists p, r. repeat split; auto.
    + apply (Forall2_impl_in _ _ _ _ HF). intros p rec Hp (g & Hg & Hrest).
      exists g. split; [|exact Hrest]. rewrite <- Hg. symmetry.
      destruct Hready as (_ & Hnd & Hq).
      apply (own_move_lookup _ _ src); [exact Hown| |now apply Hq; right].
      inversion Hnd; subst. congruence.
Qed.

Lemma stored_hashes_kept (db old : table) :
  Forall2 kept db old -> stored_hashes old = stored_hashes db.
Proof.
  unfold stored_hashes. induction 1 as [|x y a b Hxy Hab IH]; simpl; [reflexivity|].
  destruct Hxy as (_ & _ & -> & _). now rewrite IH.
Qed.

Lemma run_insertion_hashes_distinct db i :
  NoDup (stored_hashes db) -> NoDup (stored_hashes (run_insertion db i)).
Proof.
  intros Hnd. unfold run_insertion, assign_and_insert.
  pose proof (Forall2_kept_ensure db (site (ins_result i))
                (tournament_start_ts_local (ins_result i)) (ins_gap_minutes i)
                (ins_uuid4 i) (ins_now i)) as Hk.
  destruct (ensure_session_and_index db (site (ins_result i))
              (tournament_start_ts_local (ins_result i)) (ins_gap_minutes i)
              (ins_uuid4 i) (ins_now i)) as [[[sid sstart] sindex] db1].
  simpl in Hk. apply stored_hashes_kept in Hk.
  unfold Sql.SQL_INSERT_TOURNAMENT.
  destruct (Sql.SQL_HASH_EXISTS db1 (ins_file_hash i)) eqn:Hh; [exact Hnd|].
  unfold stored_hashes in *. rewrite map_app, Hk. simpl.
  apply NoDup_app; [exact Hnd | repeat constructor; intros [] |].
  intros h Hin [<-|[]].
  rewrite <- Hk in Hin. apply in_map_iff in Hin as (r & Er & Hr).
  assert (X : Sql.SQL_HASH_EXISTS db1 (source_file_hash r) = true).
  { unfold Sql.SQL_HASH_EXISTS. apply existsb_exists. exists r.
    split; [exact Hr | apply String.eqb_refl]. }
  congruence.
Qed.

Lemma queue_hashes_distinct : forall queue w t,
  NoDup (stored_hashes (w_db w)) ->
  NoDup (stored_hashes (w_db (fst (process_queue L cfg amb queue (w, t))))).
Proof.
  induction queue as [|src rest IH]; intros w t Hnd; [exact Hnd|].
  rewrite process_queue_cons.
  destruct (process_file_account L cfg (amb src) w t src)
    as (st & rs & core & files' & db' & E & _ & _ & _ & _ & Hdb & _).
  rewrite E. cbn [fst snd]. apply IH. cbn [w_db].
  destruct Hdb as [[_ ->]|(_ & f & parsed & r & _ & _ & _ & -> & _)]; [exact Hnd|].
  now apply run_insertion_hashes_distinct.
Qed.

End RunRecords.

(** X19. The log tells of the files as they were.  When no two files of
    the listing share a path, a run appends, for each file of the queue
    in turn, a record with the name of the file and the SHA-256 of its
    content; the record has the tournament id, the start time, the buy-in
    and the payout of the record parsed from the content of the file, or
    none of the four. *)
Theorem records_describe_files (L : PyLib) (cfg : ImportConfig)
    (amb : Path -> ambient) (w : world) :
  NoDup (map f_path (w_files w)) ->
  exists recs,
    w_log (fst (run L cfg amb w)) = w_log w ++ recs /\
    Forall2 (describes L cfg (w_files w)) (file_queue L cfg (w_files w)) recs.
Proof.
  intros Hnd. unfold run. apply queue_describes. now apply ready_queue.
Qed.

Lemma records_describe_files_witness :
  NoDup (map f_path (w_files (Sample.start three_files))) /\
  exists recs,
    w_log (fst (run Sample.lib (Sample.cfg false) Sample.amb (Sample.start three_files)))
    = w_log (Sample.start three_files) ++ recs /\
    Forall2 (describes Sample.lib (Sample.cfg false)
               (w_files (Sample.start three_files)))
            (file_queue Sample.lib (Sample.cfg false)
                        (w_files (Sample.start three_files))) recs.
Proof.
  assert (H : NoDup (map f_path (w_files (Sample.start three_files)))).
  { simpl. repeat constructor; simpl; intuition discriminate. }
  exact (conj H (records_describe_files Sample.lib (Sample.cfg false) Sample.amb
                   (Sample.start three_files) H)).
Defined.

(** X20. A run stores no content twice: when the content hashes of the
    stored rows are pairwise distinct before a run, they are so after it,
    whatever the files hold; the hash pre-check and the INSERT never let a
    second row with a stored hash in. *)
Theorem run_keeps_hashes_distinct (L : PyLib) (cfg : ImportConfig)
    (amb : Path -> ambient) (w : world) :
  NoDup (stored_hashes (w_db w)) ->
  NoDup (stored_hashes (w_db (fst (run L cfg amb w)))).
Proof. intros Hnd. unfold run. now apply queue_hashes_distinct. Qed.

Lemma run_keeps_hashes_distinct_witness :
  NoDup (stored_hashes (w_db (Sample.start twice_the_same))) /\
  NoDup (stored_hashes (w_db (fst (run Sample.lib (Sample.cfg false) Sample.amb
                                       (Sample.start twice_the_same))))).
Proof.
  assert (H : NoDup (stored_hashes (w_db (Sample.start twice_the_same))))
    by constructor.
  exact (conj H (run_keeps_hashes_distinct Sample.lib (Sample.cfg false) Sample.amb
                   (Sample.start twice_the_same) H)).
Defined.

(* ================================================================= *)
(** ** Sites do not interfere *)

Section Sites.

Lemma filter_within_site (p : row -> bool) (st : string) (db : table) :
  (forall r, p r = true -> of_site st r = true) ->
  filter p (filter (of_site st) db) = filter p db.
Proof.
  intros Hp. induction db as [|r db IH]; simpl; [reflexivity|].
  destruct (of_site st r) eqn:E; simpl; rewrite IH; [reflexivity|].
  destruct (p r) eqn:X; [|reflexivity]. apply Hp in X. congruence.
Qed.

Lemma prev_of_site st ts gap r :
  Sql.prev_within_gap st ts gap r = true -> of_site st r = true.
Proof.
  unfold Sql.prev_within_gap, of_site. intros H.
  now apply andb_true_iff in H as [H _]; apply andb_true_iff in H as [H _].
Qed.

Lemma next_of_site st ts gap r :
  Sql.next_within_gap st ts gap r = true -> of_site st r = true.
Proof.
  unfold Sql.next_within_gap, of_site. intros H.
  now apply andb_true_iff in H as [H _]; apply andb_true_iff in H as [H _].
Qed.

Lemma in_session_of_site st sid r :
  Sql.in_session st sid r = true -> of_site st r = true.
Proof.
  unfold Sql.in_session, of_site. intros H. now apply andb_true_iff in H as [H _].
Qed.

Lemma find_existing_within_site db st ts gap_minutes :
  find_existing_session_within_gap (filter (of_site st) db) st ts gap_minutes
  = find_existing_session_within_gap db st ts gap_minutes.
Proof.
  unfold find_existing_session_within_gap, Sql.SQL_PREV_WITHIN_GAP,
    Sql.SQL_NEXT_WITHIN_GAP.
  rewrite !filter_within_site; [reflexivity| |];
    intros r; first [apply next_of_site | apply prev_of_site].
Qed.

Lemma ensure_within_site db st ts gap_minutes uuid4 now :
  fst (ensure_session_and_index (filter (of_site st) db) st ts gap_minutes uuid4 now)
  = fst (ensure_session_and_index db st ts gap_minutes uuid4 now).
Proof.
  unfold ensure_session_and_index. rewrite find_existing_within_site.
  destruct (find_existing_session_within_gap db st ts gap_minutes) as [[sid|] start];
    [|reflexivity].
  cbn [fst]. rewrite !min_start_bump.
  unfold Sql.SQL_COUNT_BEFORE_IN_SESSION, Sql.SQL_MIN_SESSION_START.
  rewrite !filter_within_site; [reflexivity| |].
  all: intros r H;
    match type of H with
    | (_ && (_ <? _)) = true => apply andb_true_iff in H as [H _]
    | _ => idtac
    end; revert H; apply in_session_of_site.
Qed.

Lemma ensure_other_sites db st ts gap_minutes uuid4 now :
  filter (fun r => negb (of_site st r))
         (snd (ensure_session_and_index db st ts gap_minutes uuid4 now))
  = filter (fun r => negb (of_site st r)) db.
Proof.
  unfold ensure_session_and_index.
  destruct (find_existing_session_within_gap db st ts gap_minutes) as [[sid|] start];
    [|reflexivity].
  cbn [snd]. unfold Sql.SQL_BUMP_INDICES_AT_OR_AFTER_TS.
  induction db as [|r db IH]; simpl; [reflexivity|].
  destruct (Sql.in_session st sid r) eqn:E; simpl.
  - pose proof (in_session_of_site _ _ _ E) as Hs.
    assert (Hb : of_site st (Sql.bump now r) = true) by exact Hs.
    rewrite Hs. destruct (ts <=? row_ts r); [rewrite Hb | rewrite Hs]; simpl; exact IH.
  - destruct (of_site st r); simpl; now rewrite IH.
Qed.

End Sites.

(** X21. Sites do not interfere in the session assigner: the session id,
    session start and index that [ensure_session_and_index] returns for an
    event of a site are those it returns on the rows of that site alone,
    and its update leaves the rows of every other site as they are. *)
Theorem assignment_reads_own_site_only (db : table) (st : string)
    (ts gap_minutes : Z) (uuid4 : string) (now : Z) :
  fst (ensure_session_and_index db st ts gap_minutes uuid4 now)
  = fst (ensure_session_and_index (filter (of_site st) db) st ts gap_minutes uuid4 now) /\
  filter (fun r => negb (of_site st r))
         (snd (ensure_session_and_index db st ts gap_minutes uuid4 now))
  = filter (fun r => negb (of_site st r)) db.
Proof.
  split; [symmetry; apply ensure_within_site | apply ensure_other_sites].
Qed.

(* ================================================================= *)
(** ** Files of one start time *)

Section Stable.

Lemma same_key_le (x y : option Z * Path) (k : option Z) :
  key_le x y = false -> same_key k (fst x) = true -> same_key k (fst y) = false.
Proof.
  unfold key_le, same_key.
  destruct (fst x) as [a|], (fst y) as [b|], k as [c|]; try discriminate; try reflexivity.
  intros H1 H2. apply Z.leb_gt in H1. apply Z.eqb_eq in H2. apply Z.eqb_neq. lia.
Qed.

Lemma filter_insert_by_key (k : option Z) (x : option Z * Path)
    (l : list (option Z * Path)) :
  filter (fun y => same_key k (fst y)) (insert_by key_le x l)
  = filter (fun y => same_key k (fst y)) (x :: l).
Proof.
  induction l as [|y l IH]; [reflexivity|].
  simpl insert_by. destruct (key_le x y) eqn:E; [reflexivity|].
  simpl. simpl in IH. rewrite IH.
  destruct (same_key k (fst x)) eqn:Kx; [|reflexivity].
  now rewrite (same_key_le x y k E Kx).
Qed.

Lemma filter_sort_by_key (k : option Z) (l : list (option Z * Path)) :
  filter (fun y => same_key k (fst y)) (sort_by key_le l)
  = filter (fun y => same_key k (fst y)) l.
Proof.
  unfold sort_by. induction l as [|x l IH]; [reflexivity|].
  simpl fold_right. rewrite filter_insert_by_key. simpl. now rewrite IH.
Qed.

Lemma filter_keyed (L : PyLib) (cfg : ImportConfig) (files : list file)
    (k : option Z) (sp : list (option Z * Path)) :
  Forall (fun x => fst x = pre_parse L cfg files (snd x)) sp ->
  filter (fun p => same_key k (pre_parse L cfg files p)) (map snd sp)
  = map snd (filter (fun y => same_key k (fst y)) sp).
Proof.
  induction 1 as [|x sp Hx Hsp IH]; simpl; [reflexivity|].
  rewrite <- Hx, IH. now destruct (same_key k (fst x)).
Qed.

End Stable.

(** X22. Files with the same start time are taken in the order of the
    directory scan: for every sort key, a start time or none, the files of
    the queue with that key are the files of [_list_input_files] with
    that key, in the same order.  In particular the files that do not
    parse keep their order. *)
Theorem queue_keeps_order_among_equals (L : PyLib) (cfg : ImportConfig)
    (files : list file) (k : option Z) :
  filter (fun p => same_key k (pre_parse L cfg files p)) (file_queue L cfg files)
  = filter (fun p => same_key k (pre_parse L cfg files p))
           (list_input_files L cfg files).
Proof.
  unfold file_queue.
  set (keyed := map (fun p => (pre_parse L cfg files p, p)) (list_input_files L cfg files)).
  assert (Hkeyed : Forall (fun x => fst x = pre_parse L cfg files (snd x)) keyed).
  { apply Forall_forall. intros x Hx. apply in_map_iff in Hx as (p & <- & _).
    reflexivity. }
  assert (Hsorted : Forall (fun x => fst x = pre_parse L cfg files (snd x))
                           (sort_by key_le keyed)).
  { rewrite Forall_forall in *. intros x Hx. apply Hkeyed.
    now apply (Permutation_in _ (sort_by_perm key_le keyed)). }
  rewrite (filter_keyed L cfg files k _ Hsorted), filter_sort_by_key.
  rewrite <- (filter_keyed L cfg files k _ Hkeyed).
  unfold keyed. now rewrite map_map, map_id.
Qed.
